(** * ExportToDatabase: a shallow embedding of
    [cellprofiler/modules/exporttodatabase.py]

    The development follows the Python module: a small prelude for the
    Python values and exceptions the module relies on, the class
    [ColumnNameMapping], then the methods of [ExportToDatabase] that
    derive the table layouts and assemble the rows.  Properties come
    after the definitions. *)

From Stdlib Require Import ZArith Ascii String SpecFloat DecimalString.
From stdpp Require Import gmap strings list fin_maps.

Local Open Scope nat_scope.

(** ** Python prelude *)

Module Py.

(** A Python 2 [str] is a sequence of bytes. *)
Definition str : Type := list ascii.

(** String literals of the source. *)
Definition s (lit : string) : str := list_ascii_of_string lit.

(** The exceptions the modelled code can raise. *)
Inductive exn : Type :=
| KeyError | IndexError | ValueError | TypeError | OverflowError.

(** The result of running a piece of code: a value, an exception, or no
    result within the supplied number of loop iterations and random
    draws. *)
Inductive outcome (A : Type) : Type :=
| Done (a : A)
| Raise (e : exn)
| Diverge.
Arguments Done {A} a.
Arguments Raise {A} e.
Arguments Diverge {A}.

Global Instance outcome_ret : MRet outcome := fun A a => Done a.
Global Instance outcome_bind : MBind outcome := fun A B f c =>
  match c with
  | Done a => f a
  | Raise e => Raise e
  | Diverge => Diverge
  end.

(** [for x in l: acc = body(acc, x)] with exceptions. *)
Fixpoint for_each {A S : Type} (body : S → A → outcome S) (l : list A)
    (acc : S) : outcome S :=
  match l with
  | [] => Done acc
  | x :: l' => acc' ← body acc x; for_each body l' acc'
  end.

(** [d[k]] on a dictionary: [KeyError] when the key is absent. *)
Definition getitem `{Countable K} {V : Type} (d : gmap K V) (k : K) : outcome V :=
  match d !! k with
  | Some v => Done v
  | None => Raise KeyError
  end.

(** [d.pop(k)]. *)
Definition pop `{Countable K} {V : Type} (d : gmap K V) (k : K) : outcome (gmap K V) :=
  match d !! k with
  | Some _ => Done (delete k d)
  | None => Raise KeyError
  end.

(** [l[i]] on a sequence, for a non-negative [i]. *)
Definition index {A : Type} (l : list A) (i : nat) : outcome A :=
  match l !! i with
  | Some x => Done x
  | None => Raise IndexError
  end.

(** [l[i] = x] on a list, for a non-negative [i]. *)
Definition setitem {A : Type} (l : list A) (i : nat) (x : A) : outcome (list A) :=
  if decide (i < length l) then Done (<[i:=x]> l) else Raise IndexError.

(** [l[i:j]] for non-negative [i] and [j]. *)
Definition slice {A : Type} (l : list A) (i j : nat) : list A :=
  take (j - i) (drop i l).

(** [name[:index] + name[index+1:]]. *)
Definition remove_at {A : Type} (l : list A) (i : nat) : list A :=
  take i l ++ drop (S i) l.

(** [range(start, stop, step)] for a positive [step]. *)
Fixpoint range_from (fuel start stop step : nat) : list nat :=
  match fuel with
  | 0 => []
  | S fuel' =>
      if decide (start < stop)
      then start :: range_from fuel' (start + step) stop step
      else []
  end.
Definition range (start stop step : nat) : list nat :=
  range_from stop start stop step.

(** [a[i,j] = x] on a two-dimensional array. *)
Definition setitem2 {A : Type} (rows : list (list A)) (i j : nat) (x : A)
    : outcome (list (list A)) :=
  row ← index rows i;
  row ← setitem row j x;
  setitem rows i row.

(** [a[:n,j] = values] on a two-dimensional array with [width] columns:
    the shapes must agree, a single value is broadcast. *)
Definition setcolumn {A : Type} (width : nat) (rows : list (list A))
    (n j : nat) (values : list A) : outcome (list (list A)) :=
  let k := n `min` length rows in
  if decide (j < width) then
    if decide (length values = k) then
      for_each (fun rows i => v ← index values i; setitem2 rows i j v) (seq 0 k) rows
    else
      match values with
      | [v] => for_each (fun rows i => setitem2 rows i j v) (seq 0 k) rows
      | _ => Raise ValueError
      end
  else Raise IndexError.

(** [s.startswith(p)]. *)
Fixpoint startswith (x p : str) : bool :=
  match p, x with
  | [], _ => true
  | c :: p', d :: x' => if decide (c = d) then startswith x' p' else false
  | _ :: _, [] => false
  end.

(** [s.find(sub) != -1]. *)
Fixpoint contains (x sub : str) : bool :=
  startswith x sub ||
  match x with
  | [] => false
  | _ :: x' => contains x' sub
  end.

(** ["%s_%s" % (a, b)] and ["%s_%s_%s" % (a, b, c)]. *)
Definition fmt2 (a b : str) : str := a ++ s "_" ++ b.
Definition fmt3 (a b c : str) : str := a ++ s "_" ++ b ++ s "_" ++ c.

End Py.
Import Py.

(** ** class ColumnNameMapping *)

Module ColumnNameMapping.

(** The private dictionary is kept as the list of its items in iteration
    order, keys unique; Python 2 leaves that order unspecified, so the
    properties below are stated for every order. *)
Record t : Type := Build {
  dictionary : list (str * str);
  mapped : bool;
  max_len : nat
}.

Fixpoint dict_set (k v : str) (d : list (str * str)) : list (str * str) :=
  match d with
  | [] => [(k, v)]
  | (k', v') :: d' =>
      if decide (k = k') then (k, v) :: d' else (k', v') :: dict_set k v d'
  end.

Fixpoint dict_get (k : str) (d : list (str * str)) : outcome str :=
  match d with
  | [] => Raise KeyError
  | (k', v') :: d' => if decide (k = k') then Done v' else dict_get k d'
  end.

(** [__init__(self, max_len=64)] *)
Definition init (max_len : nat) : t :=
  {| dictionary := []; mapped := false; max_len := max_len |}.
Definition default_max_len : nat := 64.

(** [add(self, feature_name)] *)
Definition add (feature_name : str) (self : t) : t :=
  {| dictionary := dict_set feature_name feature_name (dictionary self);
     mapped := false;
     max_len := max_len self |}.

(** [keys(self)] *)
Definition keys (self : t) : list str := (dictionary self).*1.

(** The three groups of characters dropped by [do_mapping], in order. *)
Definition vowels : list ascii := s "aeiou".
Definition consonants : list ascii := s "bcdfghjklmnpqrstvwxyz".
Definition capitals : list ascii := s "ABCDEFGHIJKLMNOPQRSTUVWXYZ".
Definition drop_groups : list (list ascii) := [vowels; consonants; capitals].

(** First loop of [do_mapping]: the reverse dictionary and the names
    longer than [max_len], in iteration order. *)
Definition scan (max_len : nat) (d : list (str * str)) : gmap str str * list str :=
  fold_left
    (fun acc kv =>
       let '(reverse_dictionary, problem_names) := acc in
       let '(key, value) := kv in
       (<[value:=key]> reverse_dictionary,
        if decide (max_len < length value)
        then problem_names ++ [value] else problem_names))
    d (∅, []).

(** [for index in range(len(name)-1,-1,-1)]: [n] indices remain, the next
    one is [n-1].  Stops as soon as [to_remove] characters are gone. *)
Fixpoint drop_scan (to_drop : list ascii) (to_remove n : nat) (name : str)
    (remove_count : nat) : outcome (str * nat) :=
  match n with
  | 0 => Done (name, remove_count)
  | S index =>
      c ← Py.index name index;
      if decide (c ∈ to_drop) then
        let name := remove_at name index in
        let remove_count := S remove_count in
        if decide (remove_count = to_remove) then Done (name, remove_count)
        else drop_scan to_drop to_remove index name remove_count
      else drop_scan to_drop to_remove index name remove_count
  end.

(** [for to_drop in (vowels, consonants, capitals)]. *)
Fixpoint drop_passes (groups : list (list ascii)) (to_remove : nat) (name : str)
    (remove_count : nat) : outcome (str * nat) :=
  match groups with
  | [] => Done (name, remove_count)
  | to_drop :: groups' =>
      '(name, remove_count) ← drop_scan to_drop to_remove (length name) name remove_count;
      if decide (remove_count = to_remove) then Done (name, remove_count)
      else drop_passes groups' to_remove name remove_count
  end.

(** [while len(name) > max_len: index = int(random.uniform(0,len(name))); ...]
    The tape holds the successive values of [int(random.uniform(0,len(name)))];
    an empty tape means the loop has not finished within the draws supplied. *)
Fixpoint random_drop (max_len : nat) (name : str) (tape : list nat)
    : outcome (str * list nat) :=
  if decide (max_len < length name) then
    match tape with
    | [] => Diverge
    | index :: tape' => random_drop max_len (remove_at name index) tape'
    end
  else Done (name, tape).

(** [while name in reverse_dictionary.keys(): name = orig_name; ...]
    [fuel] is the number of times the body may run. *)
Fixpoint retry (fuel : nat) (reverse_dictionary : gmap str str) (max_len : nat)
    (orig_name name : str) (tape : list nat) : outcome (str * list nat) :=
  if decide (is_Some (reverse_dictionary !! name)) then
    match fuel with
    | 0 => Diverge
    | S fuel' =>
        '(name, tape) ← random_drop max_len orig_name tape;
        retry fuel' reverse_dictionary max_len orig_name name tape
    end
  else Done (name, tape).

(** Body of [for name in problem_names]. *)
Definition map_name (fuel max_len : nat)
    (st : gmap str str * list (str * str) * list nat) (name : str)
    : outcome (gmap str str * list (str * str) * list nat) :=
  let '(reverse_dictionary, dictionary, tape) := st in
  key ← getitem reverse_dictionary name;
  let orig_name := name in
  let to_remove := length name - max_len in
  '(name, _) ← drop_passes drop_groups to_remove name 0;
  '(name, tape) ← retry fuel reverse_dictionary max_len orig_name name tape;
  reverse_dictionary ← pop reverse_dictionary orig_name;
  let reverse_dictionary := <[name:=key]> reverse_dictionary in
  Done (reverse_dictionary, dict_set key name dictionary, tape).

(** [do_mapping(self)].  [__mapped] is left as it is: the method never
    assigns it. *)
Definition do_mapping (fuel : nat) (tape : list nat) (self : t)
    : outcome (t * list nat) :=
  let '(reverse_dictionary, problem_names) := scan (max_len self) (dictionary self) in
  '(_, d, tape) ← for_each (map_name fuel (max_len self)) problem_names
                    (reverse_dictionary, dictionary self, tape);
  Done ({| dictionary := d; mapped := mapped self; max_len := max_len self |}, tape).

(** [__getitem__(self, feature_name)] *)
Definition getitem (fuel : nat) (tape : list nat) (self : t) (feature_name : str)
    : outcome (str * t * list nat) :=
  '(self, tape) ← (if mapped self then Done (self, tape)
                   else do_mapping fuel tape self);
  v ← dict_get feature_name (dictionary self);
  Done (v, self, tape).

(** [values(self)] *)
Definition values (fuel : nat) (tape : list nat) (self : t)
    : outcome (list str * t * list nat) :=
  '(self, tape) ← (if mapped self then Done (self, tape)
                   else do_mapping fuel tape self);
  Done ((dictionary self).*2, self, tape).

End ColumnNameMapping.

(** ** Constants of [cellprofiler.measurements] *)

Module cpmeas.

(** Modelled from the spec: the entity-class name [cpmeas.IMAGE]; the module
    [cellprofiler.measurements] is not part of the sources, and the code
    compares the same names against the literal ['Image']. *)
Definition IMAGE : str := s "Image".

(** Modelled from the spec: the entity-class name [cpmeas.EXPERIMENT]. *)
Definition EXPERIMENT : str := s "Experiment".

(** Modelled from the spec: the aggregate kind [cpmeas.AGG_MEAN]. *)
Definition AGG_MEAN : str := s "Mean".

(** Modelled from the spec: the aggregate kind [cpmeas.AGG_MEDIAN]. *)
Definition AGG_MEDIAN : str := s "Median".

(** Modelled from the spec: the aggregate kind [cpmeas.AGG_STD_DEV]. *)
Definition AGG_STD_DEV : str := s "StdDev".

(** Modelled from the spec: [cpmeas.AGG_NAMES], every aggregate kind. *)
Definition AGG_NAMES : list str := [AGG_MEAN; AGG_STD_DEV; AGG_MEDIAN].

(** Modelled from the spec: the value kind [cpmeas.COLTYPE_INTEGER]. *)
Definition COLTYPE_INTEGER : str := s "integer".

(** Modelled from the spec: the value kind [cpmeas.COLTYPE_FLOAT]. *)
Definition COLTYPE_FLOAT : str := s "float".

End cpmeas.

(** ** Measurement values *)

Module Value.

(** A scalar Python value: [None], an integer, a double ([float] and
    [numpy.float64]), or a string. *)
Inductive scalar : Type :=
| VNone
| VInt (z : Z)
| VFloat (f : spec_float)
| VStr (x : str).

(** What [get_measurement] returns: a scalar, or a one-dimensional
    [numpy] array of doubles. *)
Inductive measurement : Type :=
| Scalar (v : scalar)
| Array (a : list spec_float).

(** [numpy.isfinite] on a double. *)
Definition isfinite (f : spec_float) : bool :=
  match f with
  | S754_zero _ | S754_finite _ _ _ => true
  | S754_infinity _ | S754_nan => false
  end.

(** The double [0.0]. *)
Definition fzero : spec_float := S754_zero false.

(** [float(z)]: the double nearest to an integer. *)
Definition float_of_Z (z : Z) : spec_float :=
  binary_normalize 53 1024 z 0 false.

(** [int(f)] on a double: truncation towards zero. *)
Definition int_of_float (f : spec_float) : outcome Z :=
  match f with
  | S754_zero _ => Done 0%Z
  | S754_finite sg m e =>
      let a := if (0 <=? e)%Z then (Z.pos m * 2 ^ e)%Z
               else (Z.pos m / 2 ^ (- e))%Z in
      Done (if sg then (- a)%Z else a)
  | S754_infinity _ => Raise OverflowError
  | S754_nan => Raise ValueError
  end.

Definition is_space (c : ascii) : bool :=
  bool_decide (c ∈ [" "; "009"; "010"; "011"; "012"; "013"]%char).

Definition digit (c : ascii) : option Z :=
  let n := nat_of_ascii c in
  if decide (48 ≤ n ≤ 57) then Some (Z.of_nat (n - 48)) else None.

Fixpoint digits (x : str) (acc : Z) : option Z :=
  match x with
  | [] => Some acc
  | c :: x' => d ← digit c; digits x' (acc * 10 + d)%Z
  end.

Fixpoint lstrip (x : str) : str :=
  match x with
  | c :: x' => if is_space c then lstrip x' else x
  | [] => []
  end.

Definition strip (x : str) : str :=
  reverse (lstrip (reverse (lstrip x))).

(** [int(x)] on a string: surrounding blanks, an optional sign, decimal
    digits. *)
Definition int_of_str (x : str) : outcome Z :=
  let parse (d : str) (neg : bool) : outcome Z :=
    match d with
    | [] => Raise ValueError
    | _ => match digits d 0%Z with
           | Some z => Done (if neg then (- z)%Z else z)
           | None => Raise ValueError
           end
    end in
  match strip x with
  | "-"%char :: d => parse d true
  | "+"%char :: d => parse d false
  | d => parse d false
  end.

(** [int(value)]. *)
Definition int (v : scalar) : outcome Z :=
  match v with
  | VNone => Raise TypeError
  | VInt z => Done z
  | VFloat f => int_of_float f
  | VStr x => int_of_str x
  end.

(** [str(z)] on an integer. *)
Definition str_of_Z (z : Z) : str :=
  list_ascii_of_string (NilZero.string_of_int (Z.to_int z)).

(** [values[np.logical_not(np.isfinite(values))] = 0]. *)
Definition zero_nonfinite (values : list spec_float) : list spec_float :=
  (fun f => if isfinite f then f else fzero) <$> values.

End Value.
Import Value.
(** ** The measurement source *)

(** [workspace.measurements], as far as the module uses it.
    [compute_aggregate_measurements] belongs to [cellprofiler.measurements]
    and is taken from the source of measurements as it is. *)
Record measurements : Type := Measurements {
  get_object_names : list str;
  get_feature_names : str → list str;
  get_measurement : str → str → nat → measurement;
  image_set_index : nat;
  image_set_start_number : Z;
  compute_aggregate_measurements : nat → list str → list (str * scalar)
}.

(** ** class ExportToDatabase *)

Module ExportToDatabase.

(** A column definition: object name, feature, column type. *)
Abbreviation column_def := (str * str * str)%type.

(** The settings and the attributes the methods below read and write. *)
Record t : Type := Build {
  wants_agg_mean : bool;
  wants_agg_median : bool;
  wants_agg_std_dev : bool;
  image_col_order : gmap str nat;
  object_col_order : gmap str nat;
  col_dict : gmap str (list column_def)
}.

(** [ignore_object(self, object_name)]; the missing [return] counts as
    false. *)
Definition ignore_object (object_name : str) : bool :=
  bool_decide (object_name ∈ [s "Experiment"; s "Neighbors"]).

(** [ignore_feature(self, object_name, feature_name, measurements=None)] *)
Definition ignore_feature (object_name feature_name : str) : bool :=
  if (ignore_object object_name
      || startswith feature_name (s "Description_")
      || startswith feature_name (s "ModuleError_")
      || startswith feature_name (s "TimeElapsed_")
      || startswith feature_name (s "ExecutionTime_"))
  then true
  else false.

(** Body of [for feature_name in measurements.get_feature_names(object_name)]
    in [get_column_name_mappings]. *)
Definition register_feature (object_name : str) (mappings : ColumnNameMapping.t)
    (feature_name : str) : ColumnNameMapping.t :=
  if ignore_feature object_name feature_name then mappings
  else
    let mappings :=
      ColumnNameMapping.add (fmt2 object_name feature_name) mappings in
    if decide (object_name ≠ s "Image") then
      fold_left
        (fun mappings agg_name =>
           ColumnNameMapping.add
             (fmt3 agg_name object_name feature_name) mappings)
        cpmeas.AGG_NAMES mappings
    else mappings.

(** [get_column_name_mappings(self, workspace)] *)
Definition get_column_name_mappings (self : t) (m : measurements)
    : ColumnNameMapping.t :=
  fold_left
    (fun mappings object_name =>
       fold_left (register_feature object_name)
         (get_feature_names m object_name) mappings)
    (get_object_names m)
    (ColumnNameMapping.init ColumnNameMapping.default_max_len).

(** The property [agg_names]: the selected aggregate names. *)
Definition agg_names (self : t) : list str :=
  (filter (fun ns => snd ns = true)
     [(cpmeas.AGG_MEAN, wants_agg_mean self);
      (cpmeas.AGG_MEDIAN, wants_agg_median self);
      (cpmeas.AGG_STD_DEV, wants_agg_std_dev self)]).*1.

(** What [create_database_tables] leaves behind: the object with its column
    orders and column dictionary, the columns of the two [CREATE TABLE]
    statements as (name, type) lines, and the final value of the counter
    [c] of each table. *)
Record tables : Type := Tables {
  self_after : t;
  object_statement : list (str * str);
  object_c : nat;
  image_statement : list (str * str);
  image_c : nat
}.

(** The dictionary [self.col_dict], keyed by object name. *)
Definition build_col_dict (column_defs : list column_def)
    : gmap str (list column_def) :=
  fold_left
    (fun col_dict (c : column_def) =>
       if decide (c.1.1 ≠ cpmeas.EXPERIMENT) then
         match col_dict !! c.1.1 with
         | Some cols => <[c.1.1 := cols ++ [c]]> col_dict
         | None => <[c.1.1 := [c]]> col_dict
         end
       else col_dict)
    column_defs ∅.

(** [ob_tables]: a [set], iterated in the order of its elements. *)
Definition ob_tables (column_defs : list column_def) : gset str :=
  list_to_set
    (filter (fun obname => obname ≠ cpmeas.IMAGE ∧ obname ≠ cpmeas.EXPERIMENT)
       column_defs.*1.*1).

(** The state of the object-table loop: [agg_column_defs],
    [self.object_col_order], [c] and the statement. *)
Definition object_loop_state : Type :=
  list column_def * gmap str nat * nat * list (str * str).

(** Body of [for obname, feature, ftype in column_defs] in the object
    table. *)
Definition object_column (self : t) (ob_table : str) (st : object_loop_state)
    (cd : column_def) : object_loop_state :=
  let '(agg_column_defs, object_col_order, c, statement) := st in
  let '(obname, feature, ftype) := cd in
  if decide (obname = ob_table ∧ ignore_feature obname feature = false)
  then
    let feature_name := fmt2 obname feature in
    let agg_column_defs :=
      fold_left
        (fun acc aggname =>
           acc ++ [(cpmeas.IMAGE, fmt2 aggname feature_name,
                    cpmeas.COLTYPE_FLOAT)])
        (agg_names self) agg_column_defs in
    (agg_column_defs, <[feature_name := c]> object_col_order, S c,
     statement ++ [(feature_name, ftype)])
  else st.

Definition object_loop (self : t) (column_defs : list column_def)
    : object_loop_state :=
  fold_left
    (fun st ob_table => fold_left (object_column self ob_table) column_defs st)
    (elements (ob_tables column_defs))
    ([], ∅, 2, [(s "ImageNumber", s "INTEGER"); (s "ObjectNumber", s "INTEGER")]).

(** The state of the image-table loop: [self.image_col_order], [c] and the
    statement. *)
Definition image_loop_state : Type := gmap str nat * nat * list (str * str).

(** Body of [for obname, feature, ftype in column_defs+agg_column_defs]. *)
Definition image_column (agg_column_defs : list column_def)
    (st : image_loop_state) (cd : column_def) : image_loop_state :=
  let '(image_col_order, c, statement) := st in
  let '(obname, feature, ftype) := cd in
  if decide (obname = cpmeas.IMAGE ∧ ignore_feature obname feature = false)
  then
    let feature_name :=
      if decide (feature ∉ agg_column_defs.*1.*2)
      then fmt2 obname feature else feature in
    (<[feature_name := c]> image_col_order, S c,
     statement ++ [(feature_name, ftype)])
  else st.

Definition image_loop (column_defs agg_column_defs : list column_def)
    : image_loop_state :=
  fold_left (image_column agg_column_defs) (column_defs ++ agg_column_defs)
    (∅, 1, [(s "ImageNumber", s "INTEGER")]).

(** [create_database_tables(self, cursor, column_defs, create_database)].
    The statements are built whether or not they are executed. *)
Definition create_database_tables (self : t) (column_defs : list column_def)
    : tables :=
  let col_dict := build_col_dict column_defs in
  let '(agg_column_defs, object_col_order, oc, ostmt) :=
    object_loop self column_defs in
  let '(image_col_order, ic, istmt) := image_loop column_defs agg_column_defs in
  {| self_after :=
       {| wants_agg_mean := wants_agg_mean self;
          wants_agg_median := wants_agg_median self;
          wants_agg_std_dev := wants_agg_std_dev self;
          image_col_order := image_col_order;
          object_col_order := object_col_order;
          col_dict := col_dict |};
     object_statement := ostmt;
     object_c := oc;
     image_statement := istmt;
     image_c := ic |}.

(** *** Row assembly *)

(** The diagnostics written to [sys.stderr]. *)
Inductive warning_kind : Type := TooFew | TooMany.
Record warning : Type := Warning {
  w_kind : warning_kind;
  w_feature_name : str;
  w_image_number : Z;
  w_got : nat;
  w_expected : nat
}.

(** A cell of the image row of [write_data_to_db]: [None] or the tuple
    (value, type, column name). *)
Definition image_cell : Type := option (scalar * str * str).

(** A cell of the object rows of [write_data_to_db]: the [0] left by
    [np.zeros(..., dtype=object)] or the tuple (value, type). *)
Inductive object_cell : Type :=
| Zero
| Cell (v : scalar) (t : str).

(** [value = get_measurement(...); if isinstance(value, np.ndarray):
    value = value[0]]. *)
Definition first_value (v : measurement) : outcome scalar :=
  match v with
  | Scalar v => Done v
  | Array a => f ← index a 0; Done (VFloat f)
  end.

(** An object measurement is used as an array of doubles. *)
Definition as_array (v : measurement) : outcome (list spec_float) :=
  match v with
  | Array a => Done a
  | Scalar _ => Raise TypeError
  end.

(** The rows of [for i in range(0, len(rows), 25): rows[i:min(i+25, len(rows))]]. *)
Definition batches {A : Type} (rows : list A) : list (list A) :=
  (fun i => slice rows i ((i + 25) `min` length rows)) <$> range 0 (length rows) 25.

Section Writers.

(** [MySQLdb.escape_string] and the text Python gives a double are taken
    as they come. *)
Variable escape_string : str → str.
Variable float_str : spec_float → str.

(** [str(val)] *)
Definition py_str (v : scalar) : str :=
  match v with
  | VNone => s "None"
  | VInt z => str_of_Z z
  | VFloat f => float_str f
  | VStr x => x
  end.

(** **** [write_data_to_db] *)

(** Body of [for m_col in self.col_dict[cpmeas.IMAGE]]. *)
Definition db_image_feature (self : t) (m : measurements) (index : nat)
    (st : list image_cell * Z) (m_col : column_def) : outcome (list image_cell * Z) :=
  let '(image_row, max_count) := st in
  let feature_name := fmt2 cpmeas.IMAGE m_col.1.2 in
  value ← first_value (get_measurement m cpmeas.IMAGE m_col.1.2 index);
  let value := match value with
               | VFloat f => if isfinite f then value else VInt 0
               | _ => value
               end in
  match image_col_order self !! feature_name with
  | Some c =>
      image_row ← setitem image_row c (Some (value, m_col.2, feature_name));
      if contains feature_name (s "Count") then
        n ← int value; Done (image_row, Z.max max_count n)
      else Done (image_row, max_count)
  | None => Done (image_row, max_count)
  end.

(** The branch [if max_count == 0]: every selected aggregate of every
    column of [col_dict] outside [Image]. *)
Definition db_zero_aggregates (self : t) (image_row : list image_cell)
    : outcome (list image_cell) :=
  for_each
    (fun image_row (item : str * list column_def) =>
       let '(obname, cols) := item in
       if decide (obname = cpmeas.IMAGE) then Done image_row
       else
         for_each
           (fun image_row (col : column_def) =>
              for_each
                (fun image_row agg_name =>
                   let feature_name := fmt3 agg_name obname col.1.2 in
                   match image_col_order self !! feature_name with
                   | Some c =>
                       setitem image_row c
                         (Some (VInt 0, cpmeas.COLTYPE_FLOAT, feature_name))
                   | None => Done image_row
                   end)
                (agg_names self) image_row)
           cols image_row)
    (map_to_list (col_dict self)) image_row.

(** [for feature_name, value in agg_dict.items()]. *)
Definition db_aggregates (self : t) (agg_dict : list (str * scalar))
    (image_row : list image_cell) : outcome (list image_cell) :=
  for_each
    (fun image_row (item : str * scalar) =>
       let '(feature_name, value) := item in
       match image_col_order self !! feature_name with
       | Some c => setitem image_row c (Some (value, cpmeas.COLTYPE_FLOAT, feature_name))
       | None => Done image_row
       end)
    agg_dict image_row.

(** Body of [for _, feature, ftype in cols]: one object feature is fetched,
    reconciled with [max_count] and scattered into its column. *)
Definition db_object_feature (self : t) (m : measurements) (index : nat)
    (image_number : Z) (max_count : nat) (obname : str)
    (st : list (list object_cell) * list warning) (col : column_def)
    : outcome (list (list object_cell) * list warning) :=
  let '(object_rows, warnings) := st in
  let feature_name := fmt2 obname col.1.2 in
  values ← as_array (get_measurement m obname col.1.2 index);
  let values := zero_nonfinite values in
  let nvalues := length values in
  let '(values, warnings) :=
    if decide (nvalues < max_count) then
      (values ++ drop nvalues (replicate max_count fzero),
       warnings ++ [Warning TooFew feature_name image_number nvalues max_count])
    else if decide (max_count < nvalues) then
      (take max_count values,
       warnings ++ [Warning TooMany feature_name image_number nvalues max_count])
    else (values, warnings) in
  object_rows ←
    for_each
      (fun object_rows i =>
         c ← getitem (object_col_order self) feature_name;
         v ← Py.index values i;
         setitem2 object_rows i c (Cell (VFloat v) cpmeas.COLTYPE_FLOAT))
      (seq 0 max_count) object_rows;
  Done (object_rows, warnings).

(** [[f(x) for x in l]] with exceptions. *)
Definition map_each {A B : Type} (f : A → outcome B) (l : list A) : outcome (list B) :=
  for_each (fun acc x => y ← f x; Done (acc ++ [y])) l [].

(** What one call of [write_data_to_db] produces: the rows, the local
    [max_count], the diagnostics, the column names and formatted values of
    the image [INSERT], the object column names, and the rows handed to
    each [executemany]. *)
Record db_result : Type := DbResult {
  db_image_row : list image_cell;
  db_object_rows : list (list object_cell);
  db_max_count : Z;
  db_warnings : list warning;
  db_image_insert : list str * list str;
  db_object_cols : list str;
  db_executemany : list (list (list str))
}.

(** The image row, the object rows and the diagnostics of the two branches
    on [max_count]. *)
Definition db_rows (self : t) (m : measurements) (image_number : Z)
    (max_count : Z) (image_row : list image_cell)
    : outcome (list image_cell * list (list object_cell) * list warning) :=
  let index := image_set_index m in
  if decide (max_count = 0%Z) then
    image_row ← db_zero_aggregates self image_row;
    Done (image_row, [], [])
  else
    let agg_dict := compute_aggregate_measurements m index (agg_names self) in
    image_row ← db_aggregates self agg_dict image_row;
    let n := Z.to_nat max_count in
    let object_rows := replicate n (replicate (size (object_col_order self) + 2) Zero) in
    object_rows ←
      for_each
        (fun object_rows i =>
           object_rows ← setitem2 object_rows i 0
                           (Cell (VInt image_number) cpmeas.COLTYPE_INTEGER);
           setitem2 object_rows i 1
             (Cell (VInt (Z.of_nat i + 1)) cpmeas.COLTYPE_INTEGER))
        (seq 0 n) object_rows;
    '(object_rows, warnings) ←
      for_each
        (fun st (item : str * list column_def) =>
           let '(obname, cols) := item in
           if decide (obname = cpmeas.IMAGE ∨ obname = cpmeas.EXPERIMENT) then Done st
           else for_each (db_object_feature self m index image_number n obname) cols st)
        (map_to_list (col_dict self)) (object_rows, []);
    Done (image_row, object_rows, warnings).

(** [write_data_to_db(self, workspace, mappings)] *)
Definition write_data_to_db (self : t) (m : measurements) : outcome db_result :=
  let index := image_set_index m in
  let image_number := (Z.of_nat index + image_set_start_number m)%Z in
  let image_row : list image_cell :=
    replicate (size (image_col_order self) + 1) None in
  image_row ← setitem image_row 0
                (Some (VInt image_number, cpmeas.COLTYPE_INTEGER, s "ImageNumber"));
  '(image_row, max_count) ←
    match col_dict self !! cpmeas.IMAGE with
    | Some cols => for_each (db_image_feature self m index) cols (image_row, 0%Z)
    | None => Done (image_row, 0%Z)
    end;
  object_cols ←
    for_each
      (fun object_cols (kv : str * nat) => setitem object_cols kv.2 (Some kv.1))
      (map_to_list (object_col_order self))
      ([Some (s "ImageNumber"); Some (s "ObjectNumber")]
         ++ replicate (size (object_col_order self)) None);
  '(image_row, object_rows, warnings) ←
    db_rows self m image_number max_count image_row;
  cells ← map_each (fun cell : image_cell =>
                      match cell with
                      | Some c => Done c
                      | None => Raise TypeError
                      end) image_row;
  let image_row_formatted :=
    (fun c : scalar * str * str =>
       let '(val, dtype, _) := c in
       if bool_decide (dtype ∈ [cpmeas.COLTYPE_FLOAT; cpmeas.COLTYPE_INTEGER])
          && bool_decide (py_str val ≠ [])
       then py_str val
       else s "'" ++ escape_string (py_str val) ++ s "'") <$> cells in
  object_cols ← map_each (fun c : option str =>
                            match c with
                            | Some c => Done c
                            | None => Raise TypeError
                            end) object_cols;
  executemany ←
    map_each
      (map_each
         (map_each (fun c : object_cell =>
                      match c with
                      | Cell v _ => Done (py_str v)
                      | Zero => Raise TypeError
                      end)))
      (batches object_rows);
  Done {| db_image_row := image_row;
          db_object_rows := object_rows;
          db_max_count := max_count;
          db_warnings := warnings;
          db_image_insert := (cells.*2, image_row_formatted);
          db_object_cols := object_cols;
          db_executemany := executemany |}.

(** **** [write_data] *)

(** The quoting constants of the [csv] module the method can be given. *)
Inductive quoting : Type := QUOTE_MINIMAL | QUOTE_ALL | QUOTE_NONNUMERIC.

(** A field as [csv.writer.writerow] emits it in the default dialect: its
    text, and whether it is enclosed in quote characters. *)
Record csv_field : Type := CsvField {
  cf_text : str;
  cf_quoted : bool
}.

(** Numbers, for the writer. *)
Definition is_number (v : scalar) : bool :=
  match v with
  | VInt _ | VFloat _ => true
  | VNone | VStr _ => false
  end.

(** The delimiter, the quote character and the characters of the line
    terminator: a field holding one of them is always quoted. *)
Definition csv_special : list ascii := [","; "034"; "013"; "010"]%char.

(** One field under a quoting policy: [None] is written as the empty
    string; [QUOTE_ALL] quotes every field, [QUOTE_NONNUMERIC] every field
    that is not a number, [QUOTE_MINIMAL] only what needs it; an empty
    field that is alone in its row ([quote_empty]) is quoted as well. *)
Definition writefield (q : quoting) (quote_empty : bool) (v : scalar)
    : csv_field :=
  let text := match v with VNone => [] | _ => py_str v end in
  let wanted := match q with
                | QUOTE_ALL => true
                | QUOTE_NONNUMERIC => negb (is_number v)
                | QUOTE_MINIMAL => false
                end in
  {| cf_text := text;
     cf_quoted :=
       wanted
       || existsb (fun c => bool_decide (c ∈ csv_special)) text
       || (quote_empty && bool_decide (text = [])) |}.

(** [writer.writerow(row)] *)
Definition writerow (q : quoting) (row : list scalar) : list csv_field :=
  writefield q (bool_decide (length row = 1)) <$> row.

(** [max(d.values())] *)
Definition max_value (d : gmap str nat) : outcome nat :=
  match (map_to_list d).*2 with
  | [] => Raise ValueError
  | l => Done (max_list l)
  end.

(** Body of [for feature in measurements.get_feature_names('Image')]. *)
Definition csv_image_feature (m : measurements) (per_image : gmap str nat)
    (i : nat) (st : list scalar * Z) (feature : str) : outcome (list scalar * Z) :=
  let '(image_row, max_count) := st in
  if ignore_feature (s "Image") feature then Done st
  else
    let feature_name := fmt2 (s "Image") feature in
    value ← first_value (get_measurement m (s "Image") feature i);
    let value := match value with
                 | VStr x => VStr (escape_string x)
                 | _ => value
                 end in
    c ← getitem per_image feature_name;
    image_row ← setitem image_row c value;
    if contains feature_name (s "Count") then
      n ← int value; Done (image_row, Z.max max_count n)
    else Done (image_row, max_count).

(** The branch [if max_count == 0]. *)
Definition csv_zero_aggregates (self : t) (m : measurements)
    (per_image : gmap str nat) (image_row : list scalar) : outcome (list scalar) :=
  for_each
    (fun image_row object_name =>
       if decide (object_name = s "Image") then Done image_row
       else
         for_each
           (fun image_row feature =>
              if ignore_feature object_name feature then Done image_row
              else
                for_each
                  (fun image_row agg_name =>
                     let feature_name := fmt3 agg_name object_name feature in
                     c ← getitem per_image feature_name;
                     setitem image_row c (VInt 0))
                  (agg_names self) image_row)
           (get_feature_names m object_name) image_row)
    (get_object_names m) image_row.

(** One object feature of the file path: fetched, reconciled with
    [max_count] and stored by [object_rows[:nvalues,column] = values]. *)
Definition csv_object_feature (m : measurements) (per_object : gmap str nat)
    (per_object_cols : nat) (i : nat) (image_number : Z) (max_count : nat)
    (object_name : str) (st : list (list spec_float) * list warning)
    (feature : str) : outcome (list (list spec_float) * list warning) :=
  let '(object_rows, warnings) := st in
  if ignore_feature object_name feature then Done st
  else
    let feature_name := fmt2 object_name feature in
    values ← as_array (get_measurement m object_name feature i);
    let values := zero_nonfinite values in
    let nvalues := length values in
    let '(values, warnings) :=
      if decide (nvalues < max_count) then
        (values,
         warnings ++ [Warning TooFew feature_name image_number nvalues max_count])
      else if decide (max_count < nvalues) then
        (take max_count values,
         warnings ++ [Warning TooMany feature_name image_number nvalues max_count])
      else (values, warnings) in
    c ← getitem per_object feature_name;
    object_rows ← setcolumn per_object_cols object_rows nvalues c values;
    Done (object_rows, warnings).

(** One turn of [for i in range(measurements.image_set_index+1)]: the image
    row, the object rows, the local [max_count] and the diagnostics. *)
Record csv_result : Type := CsvResult {
  csv_image_row : list scalar;
  csv_object_rows : list (list spec_float);
  csv_max_count : Z;
  csv_warnings : list warning
}.

Definition csv_image_set (self : t) (m : measurements)
    (per_image per_object : gmap str nat) (per_image_cols per_object_cols : nat)
    (i : nat) : outcome csv_result :=
  let image_row : list scalar := replicate per_image_cols VNone in
  let image_number := (Z.of_nat i + image_set_start_number m)%Z in
  c ← getitem per_image (s "ImageNumber");
  image_row ← setitem image_row c (VInt image_number);
  '(image_row, max_count) ←
    for_each (csv_image_feature m per_image i) (get_feature_names m (s "Image"))
      (image_row, 0%Z);
  if decide (max_count = 0%Z) then
    image_row ← csv_zero_aggregates self m per_image image_row;
    Done (CsvResult image_row [] max_count [])
  else
    let agg_dict := compute_aggregate_measurements m i (agg_names self) in
    image_row ←
      for_each
        (fun image_row (item : str * scalar) =>
           c ← getitem per_image item.1; setitem image_row c item.2)
        agg_dict image_row;
    let n := Z.to_nat max_count in
    let object_rows := replicate n (replicate per_object_cols fzero) in
    c ← getitem per_object (s "ImageNumber");
    object_rows ← setcolumn per_object_cols object_rows n c [float_of_Z image_number];
    c ← getitem per_object (s "ObjectNumber");
    object_rows ← setcolumn per_object_cols object_rows n c
                    ((fun k => float_of_Z (Z.of_nat k + 1)) <$> seq 0 n);
    '(object_rows, warnings) ←
      for_each
        (fun st object_name =>
           if decide (object_name = s "Image") then Done st
           else
             for_each
               (csv_object_feature m per_object per_object_cols i image_number n
                  object_name)
               (get_feature_names m object_name) st)
        (get_object_names m) (object_rows, []);
    Done (CsvResult image_row object_rows max_count warnings).

(** The two files and the diagnostics of [write_data]. *)
Record csv_files : Type := CsvFiles {
  per_image_file : list (list csv_field);
  per_object_file : list (list csv_field);
  file_warnings : list warning
}.

(** [write_data(self, workspace, mappings, per_image, per_object)]: the
    image writer is created with [quoting=csv.QUOTE_NONNUMERIC], the object
    writer with the default of [csv.writer]. *)
Definition write_data (self : t) (m : measurements)
    (per_image per_object : gmap str nat) : outcome csv_files :=
  per_image_cols ← max_value per_image;
  let per_image_cols := per_image_cols + 1 in
  per_object_cols ← max_value per_object;
  let per_object_cols := per_object_cols + 1 in
  for_each
    (fun files i =>
       r ← csv_image_set self m per_image per_object per_image_cols
             per_object_cols i;
       Done {| per_image_file :=
                 per_image_file files
                   ++ [writerow QUOTE_NONNUMERIC (csv_image_row r)];
               per_object_file :=
                 per_object_file files
                   ++ ((fun row => writerow QUOTE_MINIMAL (VFloat <$> row))
                         <$> csv_object_rows r);
               file_warnings := file_warnings files ++ csv_warnings r |})
    (seq 0 (image_set_index m + 1))
    (CsvFiles [] [] []).

End Writers.

(** *** Settings of an earlier revision *)

(** What [backwards_compatibilize] does: it returns the tuple
    (setting values, revision number, from_matlab), or raises [IndexError]
    or [NameError]. *)
Inductive upgrade : Type :=
| Returns (setting_values : list str) (variable_revision_number : Z)
    (from_matlab : bool)
| RaisesIndexError
| RaisesNameError.

(** A value in a list of setting values. *)
Inductive setting_value : Type :=
| SText (x : str)
| SBool (b : bool).

Section Upgrade.

(** The constants [cps.DO_NOT_USE], [cps.YES] and [cps.NO] of
    [cellprofiler.settings] are taken as they come. *)
Variables DO_NOT_USE YES NO : str.

(** The branch [if from_matlab and variable_revision_number == 6]: the new
    list of setting values; [None] stands for the [IndexError] of a
    subscript out of range. *)
Definition from_matlab_6 (setting_values : list str) : option (list str) :=
  v0 ← setting_values !! 0;
  v1 ← setting_values !! 1;
  let new_setting_values := [v0; v1] in
  v2 ← setting_values !! 2;
  new_setting_values ←
    (if decide (v2 = DO_NOT_USE)
     then Some (new_setting_values ++ [NO] ++ [s "Expt_"])
     else v2 ← setting_values !! 2; Some (new_setting_values ++ [YES] ++ [v2]));
  v3 ← setting_values !! 3;
  let new_setting_values := new_setting_values ++ [v3] in
  v4 ← setting_values !! 4;
  new_setting_values ←
    (if decide (v4 = s ".")
     then v4 ← setting_values !! 4; Some (new_setting_values ++ [YES] ++ [v4])
     else v4 ← setting_values !! 4; Some (new_setting_values ++ [NO] ++ [v4]));
  v5 ← setting_values !! 5;
  Some (if decide (slice v5 0 3 = YES)
        then new_setting_values ++ [YES]
        else new_setting_values ++ [NO]).

(** [backwards_compatibilize(self, setting_values, variable_revision_number,
    module_name, from_matlab)].  The second branch reads the name
    [settings_values], which is bound nowhere; the third builds
    [new_setting_values] and returns [setting_values]. *)
Definition backwards_compatibilize (setting_values : list str)
    (variable_revision_number : Z) (module_name : str) (from_matlab : bool)
    : upgrade :=
  let first :=
    if from_matlab && bool_decide (variable_revision_number = 6%Z) then
      new_setting_values ← from_matlab_6 setting_values;
      Some (new_setting_values, false)
    else Some (setting_values, from_matlab) in
  match first with
  | None => RaisesIndexError
  | Some (setting_values, from_matlab) =>
      if negb from_matlab && bool_decide (variable_revision_number = 6%Z) then
        RaisesNameError
      else
        if negb from_matlab && bool_decide (variable_revision_number = 7%Z) then
          let new_setting_values :=
            (SText <$> setting_values) ++ [SBool true; SBool true; SBool true] in
          let variable_revision_number := 8%Z in
          Returns setting_values variable_revision_number from_matlab
        else Returns setting_values variable_revision_number from_matlab
  end.

End Upgrade.

(** *** The table definitions of the file path *)

(** [workspace], as far as [write_mysql_table_defs], [get_file_path_width]
    and [write_properties] use it beyond the measurements:
    [pipeline.get_measurement_columns()] and
    [measurements.get_all_measurements]. *)
Record workspace : Type := Workspace {
  ws_measurements : measurements;
  get_measurement_columns : list column_def;
  get_all_measurements : str → str → list str
}.

(** [np.max(l)] on a list of lengths: there is no maximum of nothing. *)
Definition np_max (l : list nat) : outcome nat :=
  match l with
  | [] => Raise ValueError
  | _ => Done (max_list l)
  end.

(** [get_file_path_width(self, workspace)] *)
Definition get_file_path_width (workspace : workspace) : outcome (nat * nat) :=
  let m := ws_measurements workspace in
  for_each
    (fun (widths : nat * nat) feature =>
       let '(FileNameWidth, PathNameWidth) := widths in
       if startswith feature (s "FileName") then
         let names := get_all_measurements workspace (s "Image") feature in
         width ← np_max (length <$> names);
         Done (FileNameWidth `max` width, PathNameWidth)
       else if startswith feature (s "PathName") then
         let names := get_all_measurements workspace (s "Image") feature in
         width ← np_max (length <$> names);
         Done (FileNameWidth, PathNameWidth `max` width)
       else Done widths)
    (get_feature_names m (s "Image")) (128, 128).

(** [s.upper()] in the C locale. *)
Definition upper (x : str) : str :=
  (fun c : ascii =>
     let n := nat_of_ascii c in
     if decide (97 ≤ n ≤ 122) then ascii_of_nat (n - 32) else c) <$> x.

(** The state of the column loops of [write_mysql_table_defs]: the column
    dictionary, the next index, the column lines written so far (column
    name and type), the mapping and the random draws left. *)
Definition defs_state : Type :=
  gmap str nat * nat * list (str * str) * ColumnNameMapping.t * list nat.

(** One column: [colname = mappings[feature_name]], the line, the index. *)
Definition define_column (fuel : nat) (feature_name coltype : str)
    (st : defs_state) : outcome defs_state :=
  let '(columns, idx, lines, mappings, tape) := st in
  '(colname, mappings, tape) ←
    ColumnNameMapping.getitem fuel tape mappings feature_name;
  Done (<[feature_name := idx]> columns, idx + 1, lines ++ [(colname, coltype)],
        mappings, tape).

(** Body of [for object_name, feature, coltype in m_cols]. *)
Definition define_image_column (fuel : nat) (st : defs_state) (col : column_def)
    : outcome defs_state :=
  let '(object_name, feature, coltype) := col in
  if decide (object_name ≠ cpmeas.IMAGE) then Done st
  else if ignore_feature object_name feature then Done st
  else
    let feature_name := fmt2 object_name feature in
    let coltype :=
      if decide (upper coltype = s "FLOAT") then s "FLOAT NOT NULL" else coltype in
    define_column fuel feature_name coltype st.

(** [for aggname in self.agg_names: for object_name in ...: for feature in ...]. *)
Definition define_aggregate_columns (fuel : nat) (self : t) (m : measurements)
    (st : defs_state) : outcome defs_state :=
  for_each
    (fun st aggname =>
       for_each
         (fun st object_name =>
            if decide (object_name = s "Image") then Done st
            else
              for_each
                (fun st feature =>
                   if ignore_feature object_name feature then Done st
                   else
                     define_column fuel (fmt3 aggname object_name feature)
                       (s "FLOAT NOT NULL") st)
                (get_feature_names m object_name) st)
         (get_object_names m) st)
    (agg_names self) st.

(** [for object_name in ...: for feature in ...] of the object table. *)
Definition define_object_columns (fuel : nat) (m : measurements)
    (st : defs_state) : outcome defs_state :=
  for_each
    (fun st object_name =>
       if decide (object_name = s "Image") then Done st
       else
         for_each
           (fun st feature =>
              if ignore_feature object_name feature then Done st
              else
                define_column fuel (fmt2 object_name feature)
                  (s "FLOAT NOT NULL") st)
           (get_feature_names m object_name) st)
    (get_object_names m) st.

(** What [write_mysql_table_defs] produces: the two column dictionaries it
    returns, the column lines it writes after [ImageNumber] in
    [Per_Image] and after [ImageNumber] and [ObjectNumber] in
    [Per_Object], and the mapping and the draws as the resolutions leave
    them. *)
Record table_defs : Type := TableDefs {
  td_per_image : gmap str nat;
  td_per_object : gmap str nat;
  td_image_lines : list (str * str);
  td_object_lines : list (str * str);
  td_mappings : ColumnNameMapping.t;
  td_tape : list nat
}.

(** [write_mysql_table_defs(self, workspace, mappings)].  Of the text
    written to the SQL file the column lines are kept; the statements
    around them depend on the settings only. *)
Definition write_mysql_table_defs (fuel : nat) (tape : list nat) (self : t)
    (workspace : workspace) (mappings : ColumnNameMapping.t) : outcome table_defs :=
  let m_cols := get_measurement_columns workspace in
  let per_image : gmap str nat := {[ s "ImageNumber" := 0 ]} in
  let per_object : gmap str nat :=
    <[ s "ObjectNumber" := 1 ]> {[ s "ImageNumber" := 0 ]} in
  let measurements := ws_measurements workspace in
  _ ← get_file_path_width workspace;
  st ← for_each (define_image_column fuel) m_cols (per_image, 1, [], mappings, tape);
  '(per_image, _, image_lines, mappings, tape) ←
    define_aggregate_columns fuel self measurements st;
  '(per_object, _, object_lines, mappings, tape) ←
    define_object_columns fuel measurements (per_object, 2, [], mappings, tape);
  Done {| td_per_image := per_image;
          td_per_object := per_object;
          td_image_lines := image_lines;
          td_object_lines := object_lines;
          td_mappings := mappings;
          td_tape := tape |}.

(** *** The properties file *)

(** The loop [for object_name in workspace.measurements.get_object_names()]
    at the head of [write_properties]: the value of the loop variable
    after the loop, if it was ever bound. *)
Definition primary_object_loop (object_names : list str) : option str :=
  fold_left
    (fun (bound : option str) object_name =>
       let bound := Some object_name in
       if decide (object_name = s "Image") then bound (* continue *)
       else if ignore_object object_name then bound (* continue *)
       else bound)
    object_names None.

(** The names that [write_properties] derives from the object the loop
    leaves: [supposed_primary_object], [object_count], [cell_x_loc] and
    [cell_y_loc]; [None] stands for the error of reading the loop variable
    when it was never bound. *)
Record object_names : Type := ObjectNames {
  supposed_primary_object : str;
  object_count : str;
  cell_x_loc : str;
  cell_y_loc : str
}.

Definition properties_object_names (m : measurements) : option object_names :=
  object_name ← primary_object_loop (get_object_names m);
  let supposed_primary_object := object_name in
  Some {| supposed_primary_object := supposed_primary_object;
          object_count := s "Image_Count_" ++ supposed_primary_object;
          cell_x_loc := supposed_primary_object ++ s "_Location_Center_X";
          cell_y_loc := supposed_primary_object ++ s "_Location_Center_Y" |}.

(** *** Validation of the settings *)

(** The database types. *)
Definition DB_MYSQL : str := s "MySQL".
Definition DB_ORACLE : str := s "Oracle".
Definition DB_SQLITE : str := s "SQLite".

(** The values of the settings that [test_valid] reads. *)
Record settings : Type := Settings {
  db_type : str;
  db_name : str;
  want_table_prefix : bool;
  table_prefix : str;
  sql_file_prefix : str;
  store_csvs : bool;
  db_host : str;
  db_user : str;
  sqlite_file : str
}.

(** The setting a [ValidationError] is raised for. *)
Inductive setting_name : Type :=
| TablePrefix | DbName | SqliteFile | DbUser | DbHost | SqlFilePrefix.

(** The character classes [[A-Za-z]] and [[A-Za-z0-9_]] and the newline. *)
Definition is_alpha (c : ascii) : bool :=
  let n := nat_of_ascii c in
  bool_decide (65 ≤ n ≤ 90) || bool_decide (97 ≤ n ≤ 122).
Definition is_word (c : ascii) : bool :=
  let n := nat_of_ascii c in
  is_alpha c || bool_decide (48 ≤ n ≤ 57) || bool_decide (c = "_"%char).
Definition newline : ascii := "010"%char.

(** [$] at the rest [x] of the subject: the end of the string, or the
    newline that ends it. *)
Definition at_end (x : str) : bool :=
  bool_decide (x = []) || bool_decide (x = [newline]).

(** [[A-Za-z0-9_]+$] against the rest [x] of the subject. *)
Fixpoint match_words (x : str) : bool :=
  match x with
  | c :: x' => is_word c && (at_end x' || match_words x')
  | [] => false
  end.

(** [.*$] against the rest [x] of the subject; the dot takes any character
    but the newline. *)
Fixpoint match_any (x : str) : bool :=
  at_end x
  || match x with
     | c :: x' => negb (bool_decide (c = newline)) && match_any x'
     | [] => false
     end.

(** [re.match("^[A-Za-z][A-Za-z0-9_]+$", x)] *)
Definition match_identifier (x : str) : bool :=
  match x with
  | c :: x' => is_alpha c && match_words x'
  | [] => false
  end.

(** [re.match("^[A-Za-z0-9_].*$", x)] *)
Definition match_name (x : str) : bool :=
  match x with
  | c :: x' => is_word c && match_any x'
  | [] => false
  end.

(** [test_valid(self, pipeline)]: [None] when it returns, the message and
    the setting of the [ValidationError] when it raises. *)
Definition test_valid (self : settings) : option (str * setting_name) :=
  if want_table_prefix self && negb (match_identifier (table_prefix self)) then
    Some (s "Invalid table prefix", TablePrefix)
  else
    let database :=
      if decide (db_type self = DB_MYSQL) then
        if negb (match_words (db_name self))
        then Some (s "The database name has invalid characters", DbName)
        else None
      else if decide (db_type self = DB_SQLITE) then
        if negb (match_name (sqlite_file self))
        then Some (s "The sqlite file name has invalid characters", SqliteFile)
        else None
      else None in
    match database with
    | Some error => Some error
    | None =>
        if negb (store_csvs self) then
          if negb (match_words (db_user self)) then
            Some (s "The database user name has invalid characters", DbUser)
          else if negb (match_name (db_host self)) then
            Some (s "The database host name has invalid characters", DbHost)
          else None
        else
          if negb (match_identifier (sql_file_prefix self)) then
            Some (s "Invalid SQL file prefix", SqlFilePrefix)
          else None
    end.

End ExportToDatabase.

Module CNM := ColumnNameMapping.
Module E2D := ExportToDatabase.

(** ** Vocabulary of the properties *)

(** The (object class, feature) pairs of a catalog that are exported: the
    class is neither [Image] nor [Experiment] and the feature filter keeps
    the feature. *)
Definition retained_object_pairs (column_defs : list E2D.column_def)
    : list E2D.column_def :=
  filter (fun cd : E2D.column_def =>
            cd.1.1 ≠ cpmeas.IMAGE ∧ E2D.ignore_feature cd.1.1 cd.1.2 = false)
    column_defs.

(** A column definition that goes into the image table. *)
Definition image_kept (cd : E2D.column_def) : Prop :=
  cd.1.1 = cpmeas.IMAGE ∧ E2D.ignore_feature cd.1.1 cd.1.2 = false.

(** The [Image] features of a catalog that the feature filter keeps. *)
Definition retained_image_features (column_defs : list E2D.column_def)
    : list E2D.column_def :=
  filter image_kept column_defs.

(** The column definitions of one object table that are exported. *)
Definition kept (ob_table : str) (column_defs : list E2D.column_def)
    : list E2D.column_def :=
  filter (fun cd : E2D.column_def =>
            cd.1.1 = ob_table ∧ E2D.ignore_feature cd.1.1 cd.1.2 = false)
    column_defs.

(** Only [add] has touched the mapping: the names are registered once and
    each is still its own column name.  The order of the items is free. *)
Definition fresh (m : CNM.t) : Prop :=
  NoDup (CNM.keys m) ∧ Forall (fun kv : str * str => kv.2 = kv.1) (CNM.dictionary m).

(** The reverse dictionary [rd] and the dictionary [d] of [do_mapping]
    describe the same one-to-one mapping, in which a name within the bound
    [n] is its own column name. *)
Definition linked (n : nat) (rd : gmap str str) (d : list (str * str)) : Prop :=
  NoDup d.*1 ∧ NoDup d.*2
  ∧ (∀ k v, rd !! v = Some k ↔ (k, v) ∈ d)
  ∧ (∀ k v, (k, v) ∈ d → length k ≤ n → v = k).

(** The state of a mapping between two resolutions: names and column names
    are in one-to-one correspondence, and a name within the bound is its
    own column name. *)
Definition coherent (m : CNM.t) : Prop :=
  NoDup (CNM.dictionary m).*1 ∧ NoDup (CNM.dictionary m).*2
  ∧ Forall (fun kv : str * str => length kv.1 ≤ CNM.max_len m → kv.2 = kv.1)
      (CNM.dictionary m).

Global Instance fresh_dec (m : CNM.t) : Decision (fresh m).
Proof. unfold fresh. apply _. Defined.

Global Instance coherent_dec (m : CNM.t) : Decision (coherent m).
Proof. unfold coherent. apply _. Defined.

(** A name without any of the letters that [do_mapping] can drop. *)
Definition letterless (x : str) : Prop :=
  Forall (fun g : list ascii => Forall (fun c => c ∉ g) x) CNM.drop_groups.

(** A column name within the bound [n], or one left over it because no
    letter remained to drop. *)
Definition bounded_or_letterless (n : nat) (x : str) : Prop :=
  length x ≤ n ∨ letterless x.

(** The letters of a name: the characters [do_mapping] can drop. *)
Definition letters (x : list ascii) : list ascii :=
  filter (fun c => Exists (fun g : list ascii => c ∈ g) CNM.drop_groups) x.

(** The states a mapping goes through: it is created, then names are
    registered and name mappings run, in any order.  A name mapping leaves
    a state behind after each of the names it has to shorten, whether it
    then goes on to return (as do the resolution or the call of [values]
    that started it) or stops with an exception at the next name. *)
Inductive reachable : CNM.t → Prop :=
| reachable_init (max_len : nat) : reachable (CNM.init max_len)
| reachable_add (feature_name : str) (m : CNM.t) :
    reachable m → reachable (CNM.add feature_name m)
| reachable_map_names (fuel : nat) (tape : list nat) (m : CNM.t)
    (names : list str) (st : gmap str str * list (str * str) * list nat) :
    reachable m →
    names `prefix_of` (CNM.scan (CNM.max_len m) (CNM.dictionary m)).2 →
    for_each (CNM.map_name fuel (CNM.max_len m)) names
      ((CNM.scan (CNM.max_len m) (CNM.dictionary m)).1, CNM.dictionary m, tape)
    = Done st →
    reachable {| CNM.dictionary := st.1.2;
                 CNM.mapped := CNM.mapped m;
                 CNM.max_len := CNM.max_len m |}.

(** [n] times the letter [a]. *)
Definition a_run (n : nat) : str := replicate n "a"%char.

(** A mapping with the default bound in which 65 and 64 times [a] are
    registered: every way of shortening the first name gives the second. *)
Definition stuck_mapping : CNM.t :=
  CNM.add (a_run 64) (CNM.add (a_run 65) (CNM.init CNM.default_max_len)).

(** A mapping with the default bound in which [b] followed by 64 and by 63
    times [a] are registered: dropping the [b] of the first name is the only
    way to a free column name. *)
Definition slow_mapping : CNM.t :=
  CNM.add ("b"%char :: a_run 63)
    (CNM.add ("b"%char :: a_run 64) (CNM.init CNM.default_max_len)).

(** Draws that delete an [a] of the long name [k] times, then its [b]. *)
Definition slow_tape (k : nat) : list nat := replicate k 1 ++ [0].

(** The column a vector of values leaves in [max_count] object rows:
    non-finite entries become 0, missing entries are 0, entries beyond
    [max_count] are dropped. *)
Definition reconciled (max_count : nat) (values : list spec_float)
    : list spec_float :=
  take max_count
    (zero_nonfinite values ++ replicate (max_count - length values) fzero).

(** Column [c] of a two-dimensional array. *)
Definition column {A : Type} (c : nat) (rows : list (list A)) : list (option A) :=
  (fun row => row !! c) <$> rows.

(** The diagnostic for a vector of [got] values where [expected] are
    wanted. *)
Definition mismatch (feature_name : str) (image_number : Z) (got expected : nat)
    : E2D.warning :=
  E2D.Warning (if decide (got < expected) then E2D.TooFew else E2D.TooMany)
    feature_name image_number got expected.

(** A zero written by the branch [max_count == 0] of [write_data_to_db]. *)
Definition db_zero (cell : E2D.image_cell) : Prop :=
  ∃ name, cell = Some (VInt 0, cpmeas.COLTYPE_FLOAT, name).

(** A text that is not empty and in which no character is special for the
    [csv] writer. *)
Definition plain (x : str) : Prop :=
  x ≠ [] ∧ Forall (fun c => c ∉ E2D.csv_special) x.

(** ** A sample run *)

(** A catalog with one count, one intensity and one object feature. *)
Definition sample_catalog : list E2D.column_def :=
  [(s "Image", s "Count_Nuclei", s "integer");
   (s "Image", s "Intensity_Mean", s "float");
   (s "Nuclei", s "AreaShape_Area", s "float")].

(** Settings in which only the mean is selected, before any table exists. *)
Definition sample_settings : E2D.t :=
  {| E2D.wants_agg_mean := true;
     E2D.wants_agg_median := false;
     E2D.wants_agg_std_dev := false;
     E2D.image_col_order := ∅;
     E2D.object_col_order := ∅;
     E2D.col_dict := ∅ |}.

(** Settings in which no aggregate kind is selected. *)
Definition no_aggregates : E2D.t :=
  {| E2D.wants_agg_mean := false;
     E2D.wants_agg_median := false;
     E2D.wants_agg_std_dev := false;
     E2D.image_col_order := ∅;
     E2D.object_col_order := ∅;
     E2D.col_dict := ∅ |}.

(** The module after [create_database_tables] on the sample catalog. *)
Definition sample_self : E2D.t :=
  E2D.self_after (E2D.create_database_tables sample_settings sample_catalog).

(** The column indices of the file path for the sample catalog. *)
Definition sample_per_image : gmap str nat :=
  list_to_map [(s "ImageNumber", 0); (s "Image_Count_Nuclei", 1);
               (s "Image_Intensity_Mean", 2);
               (s "Mean_Nuclei_AreaShape_Area", 3)].
Definition sample_per_object : gmap str nat :=
  list_to_map [(s "ImageNumber", 0); (s "ObjectNumber", 1);
               (s "Nuclei_AreaShape_Area", 2)].

(** One image set, numbered 1, with the given count, intensity and areas;
    every aggregate of the areas is reported as 2.0. *)
Definition sample_source (count intensity : scalar) (areas : list spec_float)
    : measurements :=
  {| get_object_names := [s "Image"; s "Nuclei"];
     get_feature_names := fun object_name =>
       if decide (object_name = s "Image")
       then [s "Count_Nuclei"; s "Intensity_Mean"]
       else [s "AreaShape_Area"];
     get_measurement := fun object_name feature _ =>
       if decide (object_name = s "Image") then
         if decide (feature = s "Count_Nuclei") then Scalar count
         else Scalar intensity
       else Array areas;
     image_set_index := 0;
     image_set_start_number := 1;
     compute_aggregate_measurements := fun _ aggs =>
       (fun agg => (fmt3 agg (s "Nuclei") (s "AreaShape_Area"),
                    VFloat (float_of_Z 2))) <$> aggs |}.

(** A text for doubles, for the sample run: [nan], [inf], [0.0], and
    mantissa and exponent for the others. *)
Definition sample_float_str (f : spec_float) : str :=
  match f with
  | S754_nan => s "nan"
  | S754_infinity sg => (if sg then s "-" else []) ++ s "inf"
  | S754_zero sg => (if sg then s "-" else []) ++ s "0.0"
  | S754_finite sg mant e =>
      (if sg then s "-" else []) ++ str_of_Z (Z.pos mant) ++ s "p" ++ str_of_Z e
  end.

(** [MySQLdb.escape_string] on the texts of the sample run, which hold
    nothing to escape. *)
Definition sample_escape_string (x : str) : str := x.

(** ** Further vocabulary *)

(** A column order and the column lines of a [CREATE TABLE] statement
    agree beyond the [fixed] leading columns: every name of the order
    points at the line of that name, and every line has its name in the
    order. *)
Definition placed (fixed : nat) (order : gmap str nat) (statement : list (str * str))
    : Prop :=
  (∀ k i, order !! k = Some i → fixed ≤ i ∧ statement.*1 !! i = Some k)
  ∧ (∀ i k, fixed ≤ i → statement.*1 !! i = Some k → is_Some (order !! k)).

(** What the object-table loop of [create_database_tables] keeps true of
    its state: the counter is the number of column lines, the order agrees
    with the lines after [ImageNumber] and [ObjectNumber], and every name
    of the order is that of an exported (object class, feature) pair. *)
Definition object_layout (column_defs : list E2D.column_def)
    (st : E2D.object_loop_state) : Prop :=
  let '(_, object_col_order, c, statement) := st in
  c = length statement ∧ 2 ≤ c
  ∧ placed 2 object_col_order statement
  ∧ take 2 statement
    = [(s "ImageNumber", s "INTEGER"); (s "ObjectNumber", s "INTEGER")]
  ∧ ∀ k, is_Some (object_col_order !! k) →
      ∃ cd, cd ∈ retained_object_pairs column_defs ∧ k = fmt2 cd.1.1 cd.1.2.

(** What the image-table loop keeps true of its state. *)
Definition image_layout (st : E2D.image_loop_state) : Prop :=
  let '(image_col_order, c, statement) := st in
  c = length statement ∧ 1 ≤ c
  ∧ placed 1 image_col_order statement
  ∧ take 1 statement = [(s "ImageNumber", s "INTEGER")].

(** The text [executemany] is handed for a cell of an object row. *)
Definition sent (float_str : spec_float → str) (cell : E2D.object_cell) (x : str)
    : Prop :=
  ∃ v t, cell = E2D.Cell v t ∧ x = E2D.py_str float_str v.

(** The two key cells of object row [i] of an image set. *)
Definition keyed (image_number : Z) (i : nat) (row : list E2D.object_cell) : Prop :=
  row !! 0 = Some (E2D.Cell (VInt image_number) cpmeas.COLTYPE_INTEGER)
  ∧ row !! 1 = Some (E2D.Cell (VInt (Z.of_nat i + 1)) cpmeas.COLTYPE_INTEGER).

(** The sample catalog with a text feature of the object class, which the
    feature filter leaves out of the tables. *)
Definition annotated_catalog : list E2D.column_def :=
  sample_catalog ++ [(s "Nuclei", s "Description_Stain", s "varchar(20)")].

(** The module after [create_database_tables] on the annotated catalog. *)
Definition annotated_self : E2D.t :=
  E2D.self_after (E2D.create_database_tables sample_settings annotated_catalog).

(** One image set, numbered 1, of a source that also reports the text
    feature of the annotated catalog: the given count, an intensity of 3.0,
    and the given vector for the features of the object class; every
    aggregate of the areas is reported as 2.0. *)
Definition annotated_source (count : scalar) (areas : list spec_float)
    : measurements :=
  {| get_object_names := [s "Image"; s "Nuclei"];
     get_feature_names := fun object_name =>
       if decide (object_name = s "Image")
       then [s "Count_Nuclei"; s "Intensity_Mean"]
       else [s "AreaShape_Area"; s "Description_Stain"];
     get_measurement := fun object_name feature _ =>
       if decide (object_name = s "Image") then
         if decide (feature = s "Count_Nuclei") then Scalar count
         else Scalar (VFloat (float_of_Z 3))
       else Array areas;
     image_set_index := 0;
     image_set_start_number := 1;
     compute_aggregate_measurements := fun _ aggs =>
       (fun agg => (fmt3 agg (s "Nuclei") (s "AreaShape_Area"),
                    VFloat (float_of_Z 2))) <$> aggs |}.

(** A diagnostic of [write_data_to_db] that reports what is there: some
    column of [col_dict] outside [Image] and [Experiment] whose vector in
    this image set has a number of values other than the [n] expected. *)
Definition real_mismatch (self : E2D.t) (m : measurements) (image_number : Z)
    (n : nat) (w : E2D.warning) : Prop :=
  ∃ obname cols col values,
    E2D.col_dict self !! obname = Some cols ∧ col ∈ cols
    ∧ obname ≠ cpmeas.IMAGE ∧ obname ≠ cpmeas.EXPERIMENT
    ∧ get_measurement m obname col.1.2 (image_set_index m) = Array values
    ∧ length values ≠ n
    ∧ w = mismatch (fmt2 obname col.1.2) image_number (length values) n.

(** The cells of an image row that have been filled sit where the column
    order says: a cell that carries a column name is the leading
    [ImageNumber] cell or has the index the order gives that name. *)
Definition image_cells_placed (order : gmap str nat) (width : nat)
    (row : list E2D.image_cell) : Prop :=
  length row = width
  ∧ ∀ i v t name, row !! i = Some (Some (v, t, name)) →
      (i = 0 ∧ name = s "ImageNumber") ∨ order !! name = Some i.

(** The same for the list of object column names of the [INSERT]. *)
Definition object_cols_placed (order : gmap str nat) (width : nat)
    (cols : list (option str)) : Prop :=
  length cols = width
  ∧ ∀ i name, cols !! i = Some (Some name) →
      (i = 0 ∧ name = s "ImageNumber") ∨ (i = 1 ∧ name = s "ObjectNumber")
      ∨ order !! name = Some i.

(** What the column loops of [write_mysql_table_defs] keep true of their
    state, for a table whose first [base] columns are fixed: the next
    index counts the fixed columns and the lines written, every index of
    the dictionary is below it, and the index before it is in the
    dictionary. *)
Definition defs_counted (base : nat) (st : E2D.defs_state) : Prop :=
  let '(columns, idx, lines, _, _) := st in
  idx = base + length lines ∧ 0 < idx
  ∧ (∀ k i, columns !! k = Some i → i < idx)
  ∧ ∃ k, columns !! k = Some (idx - 1).

(** The column dictionary of a state of those loops. *)
Definition defs_columns (st : E2D.defs_state) : gmap str nat := st.1.1.1.1.

(** How those loops move from one state to a later one: the count is
    kept up, the entries under names without underscore are left alone,
    and no name is lost. *)
Definition defs_extend (base : nat) (st st' : E2D.defs_state) : Prop :=
  (defs_counted base st → defs_counted base st')
  ∧ (∀ k, "_"%char ∉ k → defs_columns st' !! k = defs_columns st !! k)
  ∧ (∀ k, is_Some (defs_columns st !! k) → is_Some (defs_columns st' !! k)).

(** A workspace around the sample source, with the sample catalog as the
    measurement columns of the pipeline. *)
Definition sample_workspace (m : measurements) : E2D.workspace :=
  {| E2D.ws_measurements := m;
     E2D.get_measurement_columns := sample_catalog;
     E2D.get_all_measurements := fun _ _ => [] |}.

(** A text with or without one final newline. *)
Definition with_optional_newline (body x : str) : Prop :=
  x = body ∨ x = body ++ [E2D.newline].

(** Texts of one or more characters of the class [[A-Za-z0-9_]]. *)
Definition words (body : str) : Prop :=
  body ≠ [] ∧ Forall (fun c => E2D.is_word c = true) body.

(** What the three patterns of [test_valid] accept: a letter followed by
    words; words; a character of the word class followed by anything on
    the same line; each with or without one final newline. *)
Definition identifier_text (x : str) : Prop :=
  ∃ c body, E2D.is_alpha c = true ∧ words body
            ∧ with_optional_newline (c :: body) x.
Definition words_text (x : str) : Prop :=
  ∃ body, words body ∧ with_optional_newline body x.
Definition name_text (x : str) : Prop :=
  ∃ c body, E2D.is_word c = true ∧ Forall (fun c => c ≠ E2D.newline) body
            ∧ with_optional_newline (c :: body) x.

(** The settings as [create_settings] leaves them, for MySQL. *)
Definition default_settings : E2D.settings :=
  {| E2D.db_type := E2D.DB_MYSQL;
     E2D.db_name := s "DefaultDB";
     E2D.want_table_prefix := false;
     E2D.table_prefix := s "Expt_";
     E2D.sql_file_prefix := s "SQL_";
     E2D.store_csvs := false;
     E2D.db_host := s "imgdb01";
     E2D.db_user := s "cpuser";
     E2D.sqlite_file := s "DefaultDB.db" |}.

(** * Properties *)

(** ** Running code with exceptions *)

Lemma bind_Done {A B : Type} (c : outcome A) (f : A → outcome B) (b : B) :
  c ≫= f = Done b ↔ ∃ a, c = Done a ∧ f a = Done b.
Proof.
  destruct c as [a| |]; simpl; split.
  - intros Hf. exists a. done.
  - intros (a' & [= <-] & Hf). done.
  - done.
  - intros (a' & [=] & _).
  - done.
  - intros (a' & [=] & _).
Qed.

Lemma bind_Done_l {A B : Type} (a : A) (f : A → outcome B) : Done a ≫= f = f a.
Proof. done. Qed.

Lemma bind_Diverge_l {A B : Type} (f : A → outcome B) : Diverge ≫= f = Diverge.
Proof. done. Qed.

Lemma bind_Raise_l {A B : Type} (e : exn) (f : A → outcome B) :
  Raise e ≫= f = Raise e.
Proof. done. Qed.

Section Outcome.
Context {A B : Type}.

Lemma for_each_app (body : B → A → outcome B) (l1 l2 : list A) (acc : B) :
  for_each body (l1 ++ l2) acc = for_each body l1 acc ≫= for_each body l2.
Proof.
  revert acc. induction l1 as [|x l1 IH]; intros acc; simpl; [done|].
  destruct (body acc x) as [acc'| |]; simpl; [apply IH|done|done].
Qed.

(** An invariant of the loop state holds after the loop. *)
Lemma for_each_invariant (P : B → Prop) (body : B → A → outcome B)
    (l : list A) (acc acc' : B) :
  (∀ st x st', x ∈ l → P st → body st x = Done st' → P st') →
  P acc → for_each body l acc = Done acc' → P acc'.
Proof.
  revert acc. induction l as [|x l IH]; intros acc Hbody Hacc Hrun; simpl in Hrun.
  - by injection Hrun as <-.
  - apply bind_Done in Hrun as (st & Hst & Hrun).
    eapply IH; [|eapply Hbody; [apply list_elem_of_here|done..]|done].
    intros st0 y st1 Hy. apply Hbody. by apply list_elem_of_further.
Qed.

End Outcome.

Lemma setitem_Done {B : Type} (row : list B) (i : nat) (x : B) (row' : list B) :
  setitem row i x = Done row' ↔ i < length row ∧ row' = <[i:=x]> row.
Proof.
  unfold setitem. destruct (decide (i < length row)); split.
  - by intros [= <-].
  - by intros [_ ->].
  - done.
  - by intros [? _].
Qed.

Lemma index_Done {B : Type} (l : list B) (i : nat) (x : B) :
  index l i = Done x ↔ l !! i = Some x.
Proof. unfold index. destruct (l !! i); split; congruence. Qed.

Lemma getitem_Done `{Countable K} {V : Type} (d : gmap K V) (k : K) (v : V) :
  Py.getitem d k = Done v ↔ d !! k = Some v.
Proof. unfold Py.getitem. destruct (d !! k); split; congruence. Qed.

(** Deciding a closed proposition by evaluation. *)
Ltac by_eval := apply (bool_decide_unpack _); vm_compute; exact I.

(** ** Batched writes of the object rows *)

Section Batches.
Context {A : Type}.
Implicit Types rows : list A.

Lemma range_from_spec (fuel start stop step : nat) :
  0 < step → stop - start ≤ fuel →
  range_from fuel start stop step
  = (fun k => start + k * step) <$> seq 0 ((stop - start + step - 1) / step).
Proof.
  intros Hstep. revert start.
  induction fuel as [|fuel IH]; intros start Hfuel; simpl.
  - replace (stop - start + step - 1) with (step - 1) by lia.
    rewrite Nat.div_small; [done|lia].
  - destruct (decide (start < stop)) as [Hlt|Hge].
    + rewrite IH by lia.
      assert ((stop - start + step - 1) / step
              = S ((stop - (start + step) + step - 1) / step)) as ->.
      { destruct (decide (step ≤ stop - start)) as [Hle|Hgt].
        - replace (stop - start + step - 1) with
            ((stop - (start + step) + step - 1) + 1 * step) by lia.
          rewrite Nat.div_add by lia. lia.
        - replace (stop - (start + step) + step - 1) with (step - 1) by lia.
          rewrite (Nat.div_small (step - 1)) by lia.
          replace (stop - start + step - 1) with
            ((stop - start - 1) + 1 * step) by lia.
          rewrite Nat.div_add by lia. rewrite Nat.div_small; lia. }
      simpl. f_equal; [lia|]. rewrite <- seq_shift, <- list_fmap_compose.
      apply list_fmap_ext. intros _ k _. simpl. lia.
    + replace (stop - start + step - 1) with (step - 1) by lia.
      rewrite Nat.div_small; [done|lia].
Qed.

Lemma slice_chunk rows (i : nat) :
  slice rows i ((i + 25) `min` length rows) = take 25 (drop i rows).
Proof.
  unfold slice.
  destruct (decide (i + 25 ≤ length rows)) as [Hle|Hgt].
  - rewrite Nat.min_l by lia. f_equal. lia.
  - rewrite Nat.min_r by lia.
    rewrite !take_ge; [done|rewrite length_drop; lia..].
Qed.

Lemma batches_chunks rows :
  E2D.batches rows
  = (fun k => take 25 (drop (25 * k) rows)) <$> seq 0 ((length rows + 24) / 25).
Proof.
  unfold E2D.batches, range. rewrite range_from_spec by lia.
  rewrite <- list_fmap_compose.
  replace (length rows - 0 + 25 - 1) with (length rows + 24) by lia.
  apply list_fmap_ext. intros _ k _. simpl.
  rewrite slice_chunk. do 2 f_equal. lia.
Qed.

Lemma concat_chunks rows (c : nat) :
  concat ((fun k => take 25 (drop (25 * k) rows)) <$> seq 0 c) = take (25 * c) rows.
Proof.
  induction c as [|c IH].
  - by rewrite Nat.mul_0_r, take_0.
  - rewrite seq_S, fmap_app, concat_app, IH. simpl.
    rewrite app_nil_r, take_take_drop. f_equal. lia.
Qed.

Lemma batches_lookup rows (k : nat) (b : list A) :
  E2D.batches rows !! k = Some b ↔
  k < (length rows + 24) / 25 ∧ b = take 25 (drop (25 * k) rows).
Proof.
  rewrite batches_chunks, list_lookup_fmap.
  destruct (decide (k < (length rows + 24) / 25)) as [Hlt|Hge].
  - rewrite lookup_seq_lt by done. simpl.
    split; [intros [= <-]; done|intros [_ ->]; done].
  - rewrite lookup_seq_ge by lia. split; [intros [=]|intros [? _]; contradiction].
Qed.

End Batches.


(** ** Table layouts *)

Section Schema.
Variable self : E2D.t.
Implicit Types column_defs : list E2D.column_def.

Lemma agg_defs_length (feature_name : str) (aggs : list str)
    (acc : list E2D.column_def) :
  length (fold_left
            (fun acc aggname =>
               acc ++ [(cpmeas.IMAGE, fmt2 aggname feature_name,
                        cpmeas.COLTYPE_FLOAT)]) aggs acc)
  = length acc + length aggs.
Proof.
  revert acc. induction aggs as [|a aggs IH]; intros acc; simpl; [lia|].
  rewrite IH, length_app. simpl. lia.
Qed.

Lemma agg_defs_Forall (P : E2D.column_def → Prop) (feature_name : str)
    (aggs : list str) (acc : list E2D.column_def) :
  (∀ a, a ∈ aggs → P (cpmeas.IMAGE, fmt2 a feature_name, cpmeas.COLTYPE_FLOAT)) →
  Forall P acc →
  Forall P (fold_left
              (fun acc aggname =>
                 acc ++ [(cpmeas.IMAGE, fmt2 aggname feature_name,
                          cpmeas.COLTYPE_FLOAT)]) aggs acc).
Proof.
  revert acc. induction aggs as [|a aggs IH]; intros acc Hnew Hacc; simpl; [done|].
  apply IH.
  - intros b Hb. apply Hnew. by apply list_elem_of_further.
  - apply Forall_app. split; [done|]. apply Forall_singleton, Hnew, list_elem_of_here.
Qed.

(** The aggregate kinds are not among the ignored prefixes. *)
Lemma agg_feature_kept (a rest : str) :
  a ∈ E2D.agg_names self → E2D.ignore_feature cpmeas.IMAGE (fmt2 a rest) = false.
Proof.
  unfold E2D.agg_names.
  destruct (E2D.wants_agg_mean self), (E2D.wants_agg_median self),
    (E2D.wants_agg_std_dev self); simpl; intros Ha;
    repeat (apply elem_of_cons in Ha as [->|Ha]; [reflexivity|]);
    by apply elem_of_nil in Ha.
Qed.

Lemma object_columns_fold (ob_table : str) column_defs
    (aggs : list E2D.column_def) (oco : gmap str nat) (c : nat)
    (stmt : list (str * str)) :
  ∃ aggs' oco' stmt',
    fold_left (E2D.object_column self ob_table) column_defs (aggs, oco, c, stmt)
    = (aggs', oco', c + length (kept ob_table column_defs), stmt')
    ∧ length stmt' = length stmt + length (kept ob_table column_defs)
    ∧ length aggs'
      = length aggs + length (E2D.agg_names self) * length (kept ob_table column_defs)
    ∧ (Forall image_kept aggs → Forall image_kept aggs').
Proof.
  revert aggs oco c stmt.
  induction column_defs as [|[[obname feature] ftype] column_defs IH];
    intros aggs oco c stmt.
  - exists aggs, oco, stmt. simpl. split; [do 2 f_equal; lia|]. split; [lia|].
    split; [lia|done].
  - unfold kept. rewrite filter_cons. simpl.
    destruct (decide (obname = ob_table ∧ E2D.ignore_feature obname feature = false))
      as [Hkeep|Hdrop].
    + match goal with
      | |- context [fold_left _ column_defs (?a, ?o, ?n, ?st)] =>
          destruct (IH a o n st) as (aggs' & oco' & stmt' & Hrun & Hs & Ha & HF)
      end.
      exists aggs', oco', stmt'. fold (kept ob_table column_defs) in *.
      rewrite Hrun. simpl. split; [do 2 f_equal; lia|].
      rewrite length_app in Hs. simpl in Hs. split; [lia|].
      rewrite agg_defs_length in Ha. split; [lia|].
      intros Haggs. apply HF, agg_defs_Forall; [|done].
      intros a Ha'. split; [done|]. simpl. by apply agg_feature_kept.
    + destruct (IH aggs oco c stmt) as (aggs' & oco' & stmt' & Hrun & Hs & Ha & HF).
      exists aggs', oco', stmt'. by fold (kept ob_table column_defs) in *.
Qed.

Lemma sum_list_cons (x : nat) (l : list nat) : sum_list (x :: l) = x + sum_list l.
Proof. done. Qed.

(** Summing the exported columns table by table counts every exported
    column once. *)
Lemma kept_sum (tables : list str) column_defs :
  NoDup tables →
  sum_list ((fun ob => length (kept ob column_defs)) <$> tables)
  = length (filter (fun cd : E2D.column_def =>
                      cd.1.1 ∈ tables ∧ E2D.ignore_feature cd.1.1 cd.1.2 = false)
              column_defs).
Proof.
  intros Hnd. induction column_defs as [|cd column_defs IH].
  - clear Hnd. induction tables as [|ob tables IH']; [done|].
    rewrite fmap_cons. simpl. exact IH'.
  - rewrite filter_cons.
    assert (sum_list ((fun ob => length (kept ob (cd :: column_defs))) <$> tables)
            = (if decide (cd.1.1 ∈ tables ∧ E2D.ignore_feature cd.1.1 cd.1.2 = false)
               then 1 else 0)
              + sum_list ((fun ob => length (kept ob column_defs)) <$> tables)) as ->.
    { clear IH. induction tables as [|ob tables IH'].
      - rewrite decide_False; [done|]. intros [Hin _]. by apply elem_of_nil in Hin.
      - apply NoDup_cons in Hnd as [Hob Hnd]. rewrite !fmap_cons.
        rewrite !sum_list_cons. rewrite (IH' Hnd).
        unfold kept at 1. rewrite filter_cons. fold (kept ob column_defs).
        destruct (decide (cd.1.1 = ob ∧ E2D.ignore_feature cd.1.1 cd.1.2 = false))
          as [[Heq Hk]|Hne].
        + rewrite (decide_True (P := cd.1.1 ∈ ob :: tables ∧ _));
            [|split; [rewrite Heq; apply list_elem_of_here|done]].
          rewrite (decide_False (P := cd.1.1 ∈ tables ∧ _));
            [simpl; lia|]. intros [Hin _]. by rewrite Heq in Hin.
        + destruct (decide (cd.1.1 ∈ tables ∧ E2D.ignore_feature cd.1.1 cd.1.2 = false))
            as [[Hin Hk]|Hnin].
          * rewrite decide_True; [lia|]. split; [by apply list_elem_of_further|done].
          * rewrite decide_False; [lia|]. intros [Hin Hk].
            apply elem_of_cons in Hin as [Heq|Hin];
              [apply Hne|apply Hnin]; by split. }
    rewrite IH. by destruct (decide _).
Qed.

Lemma object_tables_fold (tables : list str) column_defs
    (aggs : list E2D.column_def) (oco : gmap str nat) (c : nat)
    (stmt : list (str * str)) :
  let total := sum_list ((fun ob => length (kept ob column_defs)) <$> tables) in
  ∃ aggs' oco' stmt',
    fold_left
      (fun st ob_table => fold_left (E2D.object_column self ob_table) column_defs st)
      tables (aggs, oco, c, stmt)
    = (aggs', oco', c + total, stmt')
    ∧ length stmt' = length stmt + total
    ∧ length aggs' = length aggs + length (E2D.agg_names self) * total
    ∧ (Forall image_kept aggs → Forall image_kept aggs').
Proof.
  revert aggs oco c stmt. induction tables as [|ob tables IH];
    intros aggs oco c stmt total.
  - exists aggs, oco, stmt. unfold total. simpl.
    split; [do 2 f_equal; lia|]. split; [lia|]. split; [lia|done].
  - simpl.
    destruct (object_columns_fold ob column_defs aggs oco c stmt)
      as (aggs1 & oco1 & stmt1 & -> & Hs1 & Ha1 & HF1).
    destruct (IH aggs1 oco1 (c + length (kept ob column_defs)) stmt1)
      as (aggs2 & oco2 & stmt2 & -> & Hs2 & Ha2 & HF2).
    exists aggs2, oco2, stmt2. unfold total. rewrite fmap_cons.
    rewrite !sum_list_cons.
    split; [do 2 f_equal; lia|]. split; [lia|]. split; [lia|]. auto.
Qed.

Lemma image_columns_fold (aggs l : list E2D.column_def) (ico : gmap str nat)
    (c : nat) (stmt : list (str * str)) :
  ∃ ico' stmt',
    fold_left (E2D.image_column aggs) l (ico, c, stmt)
    = (ico', c + length (filter image_kept l), stmt')
    ∧ length stmt' = length stmt + length (filter image_kept l).
Proof.
  revert ico c stmt.
  induction l as [|[[obname feature] ftype] l IH]; intros ico c stmt.
  - exists ico, stmt. simpl. split; [do 2 f_equal; lia|lia].
  - rewrite filter_cons. cbn [fold_left]. unfold E2D.image_column at 2.
    destruct (decide (image_kept (obname, feature, ftype))) as [Hkeep|Hdrop].
    + rewrite decide_True by exact Hkeep.
      match goal with
      | |- context [fold_left _ l (?o, ?n, ?st)] =>
          destruct (IH o n st) as (ico' & stmt' & Hrun & Hs)
      end.
      exists ico', stmt'. rewrite Hrun. rewrite length_app in Hs.
      cbn [length] in *. split; [do 2 f_equal; lia|lia].
    + rewrite decide_False by exact Hdrop.
      destruct (IH ico c stmt) as (ico' & stmt' & Hrun & Hs).
      by exists ico', stmt'.
Qed.

Lemma filter_all {A : Type} (P : A → Prop) `{!∀ x, Decision (P x)} (l : list A) :
  Forall P l → filter P l = l.
Proof.
  induction 1 as [|x l Hx _ IH]; [done|].
  by rewrite filter_cons, decide_True, IH.
Qed.

Lemma filter_ext_elem {A : Type} (P Q : A → Prop) `{!∀ x, Decision (P x)}
    `{!∀ x, Decision (Q x)} (l : list A) :
  (∀ x, x ∈ l → P x ↔ Q x) → filter P l = filter Q l.
Proof.
  induction l as [|x l IH]; intros Hext; [done|].
  rewrite !filter_cons, IH.
  - destruct (decide (P x)) as [HP|HP], (decide (Q x)) as [HQ|HQ]; try done;
      exfalso; apply (Hext x (list_elem_of_here _ _)) in HP || apply (Hext x (list_elem_of_here _ _)) in HQ; done.
  - intros y Hy. apply Hext. by apply list_elem_of_further.
Qed.

Lemma ob_tables_total column_defs :
  sum_list ((fun ob => length (kept ob column_defs))
              <$> elements (E2D.ob_tables column_defs))
  = length (retained_object_pairs column_defs).
Proof.
  rewrite kept_sum by apply NoDup_elements.
  unfold retained_object_pairs. f_equal. apply filter_ext_elem.
  intros cd Hcd. rewrite elem_of_elements. unfold E2D.ob_tables.
  rewrite elem_of_list_to_set, list_elem_of_filter.
  split.
  - intros [[[Hi He] _] Hk]. done.
  - intros [Hi Hk]. split; [|done]. split.
    + split; [done|]. intros He. rewrite He in Hk. done.
    + apply list_elem_of_fmap. exists cd.1. split; [done|].
      apply list_elem_of_fmap. by exists cd.
Qed.

End Schema.

(** C4: the object table has 2 columns plus one for every retained
    (object class, feature) pair of the catalog, and the image table has 1
    column, plus one for every retained Image feature, plus one for every
    selected aggregate kind and retained (object class, feature) pair.
    Both the counter [c] of each table and the number of column lines of
    its [CREATE TABLE] statement have that value. *)
Theorem table_column_counts (self : E2D.t) (column_defs : list E2D.column_def) :
  let tb := E2D.create_database_tables self column_defs in
  let pairs := length (retained_object_pairs column_defs) in
  let images := length (retained_image_features column_defs) in
  E2D.object_c tb = 2 + pairs
  ∧ length (E2D.object_statement tb) = 2 + pairs
  ∧ E2D.image_c tb = 1 + images + length (E2D.agg_names self) * pairs
  ∧ length (E2D.image_statement tb) = 1 + images + length (E2D.agg_names self) * pairs.
Proof.
  intros tb pairs images. unfold tb, E2D.create_database_tables, E2D.object_loop.
  destruct (object_tables_fold self (elements (E2D.ob_tables column_defs))
              column_defs [] ∅ 2
              [(s "ImageNumber", s "INTEGER"); (s "ObjectNumber", s "INTEGER")])
    as (aggs & oco & ostmt & -> & Hs & Ha & HF).
  rewrite ob_tables_total in *. fold pairs in Hs, Ha |- *.
  unfold E2D.image_loop.
  destruct (image_columns_fold aggs (column_defs ++ aggs) ∅ 1
              [(s "ImageNumber", s "INTEGER")]) as (ico & istmt & -> & Hi).
  rewrite filter_app, length_app in *.
  rewrite (filter_all image_kept aggs) in * by (apply HF; constructor).
  fold (retained_image_features column_defs) in *. fold images in Hi |- *.
  simpl in *. lia.
Qed.

Section SchemaColumns.
Variable self : E2D.t.
Implicit Types column_defs : list E2D.column_def.

Lemma agg_defs_elem (feature_name : str) (aggs : list str)
    (acc : list E2D.column_def) (x : E2D.column_def) :
  x ∈ fold_left
        (fun acc aggname =>
           acc ++ [(cpmeas.IMAGE, fmt2 aggname feature_name, cpmeas.COLTYPE_FLOAT)])
        aggs acc
  ↔ x ∈ acc
    ∨ ∃ a, a ∈ aggs ∧ x = (cpmeas.IMAGE, fmt2 a feature_name, cpmeas.COLTYPE_FLOAT).
Proof.
  revert acc. induction aggs as [|a aggs IH]; intros acc; simpl.
  - split; [by left|]. intros [?|(a & Ha & _)]; [done|]. by apply elem_of_nil in Ha.
  - rewrite IH, elem_of_app, list_elem_of_singleton. split.
    + intros [[? | ->]|(b & Hb & ->)]; [by left| |].
      * right. exists a. split; [apply list_elem_of_here|done].
      * right. exists b. split; [by apply list_elem_of_further|done].
    + intros [?|(b & Hb & ->)]; [by left; left|].
      apply elem_of_cons in Hb as [->|Hb]; [by left; right|].
      right. by exists b.
Qed.

(** The aggregate column definitions only grow, and every exported column
    of the table contributes one per selected aggregate. *)
Lemma object_columns_aggs (ob_table : str) column_defs
    (st : E2D.object_loop_state) :
  let st' := fold_left (E2D.object_column self ob_table) column_defs st in
  (∀ x, x ∈ st.1.1.1 → x ∈ st'.1.1.1)
  ∧ ∀ cd a, cd ∈ column_defs → cd.1.1 = ob_table →
      E2D.ignore_feature cd.1.1 cd.1.2 = false → a ∈ E2D.agg_names self →
      (cpmeas.IMAGE, fmt3 a cd.1.1 cd.1.2, cpmeas.COLTYPE_FLOAT) ∈ st'.1.1.1.
Proof.
  revert st. induction column_defs as [|[[obname feature] ftype] column_defs IH];
    intros [[[aggs oco] c] stmt]; simpl.
  - split; [done|]. intros cd a Hcd. by apply elem_of_nil in Hcd.
  - match goal with
    | |- context [fold_left _ column_defs ?st1] =>
        destruct (IH st1) as [Hmono Hnew]; set (step := st1) in *
    end.
    assert (∀ x, x ∈ aggs → x ∈ step.1.1.1) as Hstep.
    { intros x Hx. unfold step. destruct (decide _); simpl; [|done].
      apply agg_defs_elem. by left. }
    split; [intros x Hx; by apply Hmono, Hstep|].
    intros cd a [->|Hcd]%elem_of_cons Hob Hkeep Ha; [|by apply Hnew].
    simpl in *. apply Hmono. unfold step. rewrite decide_True by done. simpl.
    apply agg_defs_elem. right. by exists a.
Qed.

Lemma object_tables_aggs (tables : list str) column_defs
    (st : E2D.object_loop_state) :
  let st' :=
    fold_left
      (fun st ob_table => fold_left (E2D.object_column self ob_table) column_defs st)
      tables st in
  (∀ x, x ∈ st.1.1.1 → x ∈ st'.1.1.1)
  ∧ ∀ cd a, cd ∈ column_defs → cd.1.1 ∈ tables →
      E2D.ignore_feature cd.1.1 cd.1.2 = false → a ∈ E2D.agg_names self →
      (cpmeas.IMAGE, fmt3 a cd.1.1 cd.1.2, cpmeas.COLTYPE_FLOAT) ∈ st'.1.1.1.
Proof.
  revert st. induction tables as [|ob tables IH]; intros st; simpl.
  - split; [done|]. intros cd a _ Hob. by apply elem_of_nil in Hob.
  - destruct (object_columns_aggs ob column_defs st) as [Hmono1 Hnew1].
    destruct (IH (fold_left (E2D.object_column self ob) column_defs st))
      as [Hmono2 Hnew2].
    split; [intros x Hx; by apply Hmono2, Hmono1|].
    intros cd a Hcd [Hob|Hob]%elem_of_cons Hkeep Ha.
    + by apply Hmono2, Hnew1.
    + by apply Hnew2.
Qed.

(** Every column that goes into the image table has a place in
    [image_col_order]. *)
Lemma image_columns_keys (aggs l : list E2D.column_def) (st : E2D.image_loop_state) :
  let st' := fold_left (E2D.image_column aggs) l st in
  (∀ k, is_Some (st.1.1 !! k) → is_Some (st'.1.1 !! k))
  ∧ ∀ cd, cd ∈ l → image_kept cd →
      is_Some (st'.1.1 !! (if decide (cd.1.2 ∉ aggs.*1.*2)
                           then fmt2 cd.1.1 cd.1.2 else cd.1.2)).
Proof.
  revert st. induction l as [|[[obname feature] ftype] l IH];
    intros [[ico c] stmt]; simpl.
  - split; [done|]. intros cd Hcd. by apply elem_of_nil in Hcd.
  - match goal with
    | |- context [fold_left _ l ?st1] =>
        destruct (IH st1) as [Hmono Hnew]; set (step := st1) in *
    end.
    assert (∀ k, is_Some (ico !! k) → is_Some (step.1.1 !! k)) as Hstep.
    { intros k Hk. unfold step. destruct (decide _); simpl; [|done].
      apply lookup_insert_is_Some'. by right. }
    split; [intros k Hk; by apply Hmono, Hstep|].
    intros cd [->|Hcd]%elem_of_cons Hkept; [|by apply Hnew].
    simpl. apply Hmono. unfold step.
    rewrite (decide_True (P := _ ∧ _)) by exact Hkept. simpl.
    rewrite lookup_insert_eq. by eexists.
Qed.

(** A column definition outside [Experiment] is listed in [col_dict] under
    its object name. *)
Lemma build_col_dict_fold column_defs (acc : gmap str (list E2D.column_def)) :
  let r :=
    fold_left
      (fun col_dict (c : E2D.column_def) =>
         if decide (c.1.1 ≠ cpmeas.EXPERIMENT) then
           match col_dict !! c.1.1 with
           | Some cols => <[c.1.1 := cols ++ [c]]> col_dict
           | None => <[c.1.1 := [c]]> col_dict
           end
         else col_dict)
      column_defs acc in
  (∀ ob cols0 x, acc !! ob = Some cols0 → x ∈ cols0 →
     ∃ cols, r !! ob = Some cols ∧ x ∈ cols)
  ∧ ∀ cd, cd ∈ column_defs → cd.1.1 ≠ cpmeas.EXPERIMENT →
      ∃ cols, r !! cd.1.1 = Some cols ∧ cd ∈ cols.
Proof.
  revert acc. induction column_defs as [|c column_defs IH]; intros acc; simpl.
  - split; [by eauto|]. intros cd Hcd. by apply elem_of_nil in Hcd.
  - match goal with
    | |- context [fold_left _ column_defs ?acc1] =>
        destruct (IH acc1) as [Hmono Hnew]; set (step := acc1) in *
    end.
    assert (∀ ob cols0 x, acc !! ob = Some cols0 → x ∈ cols0 →
              ∃ cols, step !! ob = Some cols ∧ x ∈ cols) as Hstep.
    { intros ob cols0 x Hob Hx. unfold step.
      destruct (decide (c.1.1 ≠ cpmeas.EXPERIMENT)); [|by eauto].
      destruct (decide (ob = c.1.1)) as [->|Hne].
      - rewrite Hob. rewrite lookup_insert_eq. eexists. split; [done|].
        apply elem_of_app. by left.
      - destruct (acc !! c.1.1); rewrite lookup_insert_ne by done; eauto. }
    split.
    + intros ob cols0 x Hob Hx.
      destruct (Hstep ob cols0 x Hob Hx) as (cols1 & Hob1 & Hx1). by eapply Hmono.
    + intros cd [->|Hcd]%elem_of_cons Hne; [|by apply Hnew].
      assert (∃ cols, step !! c.1.1 = Some cols ∧ c ∈ cols) as (cols1 & Hc1 & Hin1).
      { unfold step. rewrite decide_True by done.
        destruct (acc !! c.1.1); rewrite lookup_insert_eq; eexists;
          (split; [done|]).
        - apply elem_of_app. right. apply list_elem_of_here.
        - apply list_elem_of_here. }
      by eapply Hmono.
Qed.

(** The aggregate columns of the image table made by
    [create_database_tables]: every retained (object class, feature) pair
    is listed in [col_dict], and each of its selected aggregates has a
    place in [image_col_order]. *)
Lemma schema_aggregate_columns column_defs (cd : E2D.column_def) (a : str) :
  let self' := E2D.self_after (E2D.create_database_tables self column_defs) in
  cd ∈ retained_object_pairs column_defs → a ∈ E2D.agg_names self →
  E2D.agg_names self' = E2D.agg_names self
  ∧ (∃ cols, E2D.col_dict self' !! cd.1.1 = Some cols ∧ cd ∈ cols)
  ∧ is_Some (E2D.image_col_order self' !! fmt3 a cd.1.1 cd.1.2).
Proof.
  intros self' [[Himg Hkeep] Hcd]%list_elem_of_filter Ha.
  assert (cd.1.1 ≠ cpmeas.EXPERIMENT) as Hexp.
  { intros Heq. by rewrite Heq in Hkeep. }
  unfold self', E2D.create_database_tables.
  destruct (E2D.object_loop self column_defs) as [[[aggs oco] oc] ostmt] eqn:Hobj.
  destruct (E2D.image_loop column_defs aggs) as [[ico ic] istmt] eqn:Himgl.
  simpl. split; [done|]. split.
  - by apply (build_col_dict_fold column_defs ∅).
  - assert ((cpmeas.IMAGE, fmt3 a cd.1.1 cd.1.2, cpmeas.COLTYPE_FLOAT) ∈ aggs)
      as Hagg.
    { unfold E2D.object_loop in Hobj.
      match type of Hobj with
      | fold_left _ ?tables ?st = _ =>
          destruct (object_tables_aggs tables column_defs st) as [_ Hnew]
      end.
      rewrite Hobj in Hnew. apply Hnew; [done| |done|done].
      apply elem_of_elements. unfold E2D.ob_tables.
      apply elem_of_list_to_set, list_elem_of_filter. split; [done|].
      apply list_elem_of_fmap. exists cd.1. split; [done|].
      apply list_elem_of_fmap. by exists cd. }
    unfold E2D.image_loop in Himgl.
    match type of Himgl with
    | fold_left _ ?l ?st = _ =>
        destruct (image_columns_keys aggs l st) as [_ Hnew]
    end.
    rewrite Himgl in Hnew.
    specialize (Hnew (cpmeas.IMAGE, fmt3 a cd.1.1 cd.1.2, cpmeas.COLTYPE_FLOAT)).
    simpl in Hnew. rewrite decide_False in Hnew.
    + apply Hnew.
      * apply elem_of_app. by right.
      * split; [done|]. by apply (agg_feature_kept self).
    + intros Hnot. apply Hnot. apply list_elem_of_fmap.
      exists (cpmeas.IMAGE, fmt3 a cd.1.1 cd.1.2). split; [done|].
      apply list_elem_of_fmap.
      by exists (cpmeas.IMAGE, fmt3 a cd.1.1 cd.1.2, cpmeas.COLTYPE_FLOAT).
Qed.

End SchemaColumns.

(** ** The name registry *)

Section Dict.
Implicit Types d : list (str * str).
Implicit Types k v : str.

Lemma dict_set_keys_present k v d :
  k ∈ d.*1 → (CNM.dict_set k v d).*1 = d.*1.
Proof.
  induction d as [|[k' v'] d IH]; simpl; intros Hk.
  - by apply elem_of_nil in Hk.
  - destruct (decide (k = k')) as [->|Hne]; simpl; [done|].
    f_equal. apply IH. by apply elem_of_cons in Hk as [?|?].
Qed.

Lemma dict_set_keys_absent k v d :
  k ∉ d.*1 → (CNM.dict_set k v d).*1 = d.*1 ++ [k].
Proof.
  induction d as [|[k' v'] d IH]; simpl; intros Hk; [done|].
  apply not_elem_of_cons in Hk as [Hne Hk].
  rewrite decide_False by done. simpl. f_equal. by apply IH.
Qed.

Lemma dict_set_keys_elem k v d x :
  x ∈ (CNM.dict_set k v d).*1 ↔ x = k ∨ x ∈ d.*1.
Proof.
  destruct (decide (k ∈ d.*1)) as [Hin|Hnin].
  - rewrite dict_set_keys_present by done.
    split; [by right|]. by intros [->|?].
  - rewrite dict_set_keys_absent, elem_of_app, list_elem_of_singleton by done.
    tauto.
Qed.

Lemma dict_set_keys_NoDup k v d :
  NoDup d.*1 → NoDup (CNM.dict_set k v d).*1.
Proof.
  intros Hnd. destruct (decide (k ∈ d.*1)) as [Hin|Hnin].
  - by rewrite dict_set_keys_present.
  - rewrite dict_set_keys_absent by done. apply NoDup_app. split; [done|].
    split; [|apply NoDup_singleton].
    intros x Hx ->%list_elem_of_singleton. done.
Qed.

(** With unique keys, assigning a key replaces its item and leaves the
    others alone. *)
Lemma dict_set_elem k v d x y :
  NoDup d.*1 →
  (x, y) ∈ CNM.dict_set k v d ↔ (x = k ∧ y = v) ∨ (x ≠ k ∧ (x, y) ∈ d).
Proof.
  induction d as [|[k' v'] d IH]; simpl; intros Hnd.
  - rewrite list_elem_of_singleton. split.
    + intros [= -> ->]. by left.
    + intros [[-> ->]|[_ Hin]]; [done|]. by apply elem_of_nil in Hin.
  - apply NoDup_cons in Hnd as [Hk' Hnd].
    destruct (decide (k = k')) as [<-|Hne].
    + rewrite !elem_of_cons. split.
      * intros [[= -> ->]|Hin]; [by left|]. right. split; [|by right].
        intros ->. apply Hk'. apply list_elem_of_fmap. by exists (k, y).
      * intros [[-> ->]|[Hx [[= ? ?]|Hin]]]; [by left|done|by right].
    + rewrite !elem_of_cons, IH by done. split.
      * intros [[= -> ->]|[[-> ->]|[Hx Hin]]].
        -- right. split; [done|by left].
        -- by left.
        -- right. split; [done|by right].
      * intros [[-> ->]|[Hx [[= -> ->]|Hin]]].
        -- right. by left.
        -- by left.
        -- right. right. done.
Qed.

Lemma dict_get_elem k v d :
  NoDup d.*1 → CNM.dict_get k d = Done v ↔ (k, v) ∈ d.
Proof.
  induction d as [|[k' v'] d IH]; simpl; intros Hnd.
  - split; [done|]. intros Hin. by apply elem_of_nil in Hin.
  - apply NoDup_cons in Hnd as [Hk' Hnd]. rewrite elem_of_cons.
    destruct (decide (k = k')) as [<-|Hne].
    + split.
      * intros [= ->]. by left.
      * intros [[= ->]|Hin]; [done|]. exfalso. apply Hk'.
        apply list_elem_of_fmap. by exists (k, v).
    + rewrite IH by done. split; [by right|]. by intros [[= ? ?]|Hin].
Qed.

Lemma dict_get_present k d :
  k ∈ d.*1 → ∃ v, CNM.dict_get k d = Done v.
Proof.
  induction d as [|[k' v'] d IH]; simpl; intros Hk.
  - by apply elem_of_nil in Hk.
  - destruct (decide (k = k')) as [->|Hne]; [by eexists|].
    apply IH. by apply elem_of_cons in Hk as [?|?].
Qed.

(** Replacing the value of a present key changes exactly that value. *)
Lemma dict_set_values k v d old :
  NoDup d.*1 → (k, old) ∈ d →
  ∀ y, y ∈ (CNM.dict_set k v d).*2 ↔ y = v ∨ (y ≠ old ∧ y ∈ d.*2) ∨ (y = old ∧ ∃ x, x ≠ k ∧ (x, y) ∈ d).
Proof.
  intros Hnd Hold y. rewrite list_elem_of_fmap. split.
  - intros ([x y'] & -> & Hin). simpl.
    apply dict_set_elem in Hin; [|done].
    destruct Hin as [[-> ->]|[Hx Hin]]; [by left|].
    destruct (decide (y' = old)) as [->|Hy].
    + right. right. split; [done|]. by exists x.
    + right. left. split; [done|]. apply list_elem_of_fmap. by exists (x, y').
  - intros [->|[[Hy Hin]|[-> (x & Hx & Hin)]]].
    + exists (k, v). split; [done|]. apply dict_set_elem; [done|]. by left.
    + apply list_elem_of_fmap in Hin as ([x y'] & -> & Hin). simpl in *.
      exists (x, y'). split; [done|]. apply dict_set_elem; [done|]. right.
      split; [|done]. intros ->. apply Hy.
      apply (dict_get_elem _ _ _ Hnd) in Hin, Hold. congruence.
    + exists (x, old). split; [done|]. apply dict_set_elem; [done|]. by right.
Qed.

End Dict.

Section Shortening.
Implicit Types name : str.

Lemma remove_at_length name (i : nat) :
  i < length name → length (remove_at name i) = length name - 1.
Proof.
  intros Hi. unfold remove_at.
  rewrite length_app, length_take, length_drop. lia.
Qed.

Lemma remove_at_ge name (i : nat) :
  length name ≤ i → remove_at name i = name.
Proof.
  intros Hi. unfold remove_at.
  rewrite take_ge, drop_ge, app_nil_r by lia. done.
Qed.

(** The scan over the indices never reads outside the name. *)
Lemma drop_scan_total (to_drop : list ascii) (to_remove n : nat) name (rc : nat) :
  n ≤ length name →
  ∃ r, CNM.drop_scan to_drop to_remove n name rc = Done r.
Proof.
  revert name rc. induction n as [|index IH]; intros name rc Hn; simpl.
  - by eexists.
  - unfold Py.index.
    destruct (lookup_lt_is_Some_2 name index) as [c ->]; [lia|]. simpl.
    destruct (decide (c ∈ to_drop)); [|by apply IH; lia].
    destruct (decide (S rc = to_remove)); [by eexists|].
    apply IH. rewrite remove_at_length; lia.
Qed.

Lemma drop_passes_total (groups : list (list ascii)) (to_remove : nat) name
    (rc : nat) :
  ∃ r, CNM.drop_passes groups to_remove name rc = Done r.
Proof.
  revert name rc. induction groups as [|g groups IH]; intros name rc; simpl.
  - by eexists.
  - destruct (drop_scan_total g to_remove (length name) name rc) as [[name' rc'] ->];
      [done|]. simpl.
    destruct (decide (rc' = to_remove)); [by eexists|apply IH].
Qed.

Lemma random_drop_cases (n : nat) name (tape : list nat) :
  CNM.random_drop n name tape = Diverge
  ∨ ∃ name' tape', CNM.random_drop n name tape = Done (name', tape')
                   ∧ length name' ≤ n `max` length name.
Proof.
  revert name. induction tape as [|i tape IH]; intros name; simpl.
  - destruct (decide (n < length name)); [by left|].
    right. exists name, []. split; [done|lia].
  - destruct (decide (n < length name)) as [Hlong|Hshort].
    + destruct (IH (remove_at name i)) as [->|(name' & tape' & -> & Hlen)];
        [by left|].
      right. exists name', tape'. split; [done|].
      destruct (decide (i < length name)) as [Hi|Hi].
      * rewrite remove_at_length in Hlen by done. lia.
      * rewrite remove_at_ge in Hlen by lia. done.
    + right. exists name, (i :: tape). split; [done|lia].
Qed.

(** The retry loop ends only with a name that is not yet a column name,
    and it raises nothing. *)
Lemma retry_cases (fuel : nat) (rd : gmap str str) (n : nat) (orig name : str)
    (tape : list nat) :
  CNM.retry fuel rd n orig name tape = Diverge
  ∨ ∃ name' tape', CNM.retry fuel rd n orig name tape = Done (name', tape')
                   ∧ rd !! name' = None.
Proof.
  revert name tape. induction fuel as [|fuel IH]; intros name tape; simpl.
  - destruct (decide (is_Some (rd !! name))) as [Hin|Hout]; [by left|].
    right. exists name, tape. split; [done|].
    by apply eq_None_not_Some.
  - destruct (decide (is_Some (rd !! name))) as [Hin|Hout].
    + destruct (random_drop_cases n orig tape) as [->|(name' & tape' & -> & _)];
        [by left|]. simpl. apply IH.
    + right. exists name, tape. split; [done|]. by apply eq_None_not_Some.
Qed.

End Shortening.

Section Mapping.
Implicit Types d : list (str * str).
Implicit Types rd : gmap str str.

(** What the first loop of [do_mapping] computes. *)
Lemma scan_fold (n : nat) d rd0 (pn0 : list str) :
  NoDup d.*2 →
  ∃ rd,
    fold_left
      (fun acc kv =>
         let '(reverse_dictionary, problem_names) := acc in
         let '(key, value) := kv in
         (<[value:=key]> reverse_dictionary,
          if decide (n < length value)
          then problem_names ++ [value] else problem_names))
      d (rd0, pn0)
    = (rd, pn0 ++ filter (fun v => n < length v) (d.*2))
    ∧ ∀ k v, rd !! v = Some k ↔ (k, v) ∈ d ∨ ((v ∉ d.*2) ∧ rd0 !! v = Some k).
Proof.
  revert rd0 pn0. induction d as [|[k0 v0] d IH]; intros rd0 pn0 Hnd.
  - exists rd0. simpl. rewrite app_nil_r. split; [done|].
    intros k v. split.
    + intros Hv. right. split; [apply not_elem_of_nil|done].
    + intros [Hin|[_ Hv]]; [by apply elem_of_nil in Hin|done].
  - simpl in Hnd. apply NoDup_cons in Hnd as [Hv0 Hnd]. cbn [fold_left].
    match goal with
    | |- context [fold_left _ d (?r, ?p)] =>
        destruct (IH r p Hnd) as (rd & Hrun & Hrd)
    end.
    exists rd. split.
    + etransitivity; [exact Hrun|].
      f_equal. cbn [fmap list_fmap snd]. rewrite filter_cons. simpl.
      destruct (decide (n < length v0)); [by rewrite <- app_assoc|done].
    + intros k v. rewrite Hrd, elem_of_cons. cbn [fmap list_fmap snd].
      rewrite not_elem_of_cons.
      destruct (decide (v = v0)) as [->|Hne].
      * rewrite lookup_insert_eq. split.
        -- intros [Hin|[_ [= ->]]]; [|by left; left].
           exfalso. apply Hv0. apply list_elem_of_fmap. by exists (k, v0).
        -- intros [[[= -> ]|Hin]|[[Hne _] _]]; [by right|by left|done].
      * rewrite lookup_insert_ne by done. split.
        -- intros [Hin|[Hnin Hv]]; [by left; right|by right].
        -- intros [[[= -> ->]|Hin]|[[_ Hnin] Hv]]; [done|by left|by right].
Qed.

Lemma scan_spec (n : nat) d :
  NoDup d.*2 →
  ∃ rd, CNM.scan n d = (rd, filter (fun v => n < length v) (d.*2))
        ∧ ∀ k v, rd !! v = Some k ↔ (k, v) ∈ d.
Proof.
  intros Hnd. destruct (scan_fold n d ∅ [] Hnd) as (rd & Hrun & Hrd).
  exists rd. split; [exact Hrun|].
  intros k v. rewrite Hrd. split; [|by left].
  intros [Hin|[_ Hv]]; [done|]. by rewrite lookup_empty in Hv.
Qed.

(** One problem name: the loop body either runs out of draws or replaces
    the column name of one long name by a new one, which no other name
    has. *)
Lemma map_name_cases (fuel n : nat) rd d (tape : list nat) (name : str) :
  linked n rd d → name ∈ d.*2 → n < length name →
  CNM.map_name fuel n (rd, d, tape) name = Diverge
  ∨ ∃ rd' d' tape',
      CNM.map_name fuel n (rd, d, tape) name = Done (rd', d', tape')
      ∧ linked n rd' d'
      ∧ d'.*1 = d.*1
      ∧ ∀ y, y ∈ d.*2 → y ≠ name → y ∈ d'.*2.
Proof.
  intros (Hk & Hv & Hrd & Hshort) Hname Hlong.
  apply list_elem_of_fmap in Hname as ([key name0] & Heq & Hin).
  simpl in Heq. subst name0.
  assert (rd !! name = Some key) as Hlook by by apply Hrd.
  unfold CNM.map_name, Py.getitem. rewrite Hlook, bind_Done_l.
  destruct (drop_passes_total CNM.drop_groups (length name - n) name 0)
    as [[short rc] ->]. rewrite bind_Done_l.
  destruct (retry_cases fuel rd n name short tape)
    as [->|(name' & tape' & -> & Hfree)]; [by left|].
  right. rewrite bind_Done_l. unfold Py.pop. rewrite Hlook, bind_Done_l.
  do 3 eexists. split; [done|].
  assert (key ∈ d.*1) as Hkey.
  { apply list_elem_of_fmap. by exists (key, name). }
  assert (name' ∉ d.*2) as Hnew.
  { intros ([k' v'] & -> & Hin')%list_elem_of_fmap. simpl in Hfree.
    apply Hrd in Hin'. congruence. }
  assert (∀ y, y ∈ (CNM.dict_set key name' d).*2 ↔
               y = name' ∨ (y ≠ name ∧ y ∈ d.*2)) as Hvals.
  { intros y. rewrite (dict_set_values key name' d name) by done.
    split; [|tauto]. intros [?|[?|[-> (x & Hx & Hin')]]]; [tauto..|].
    exfalso. apply Hx. apply Hrd in Hin'. congruence. }
  split; [|split].
  - split; [by rewrite dict_set_keys_present|]. split; [|split].
    + (* the new values are distinct *)
      clear Hvals Hlook Hrd Hshort Hkey.
      induction d as [|[k0 v0] d IH]; [by apply elem_of_nil in Hin|].
      simpl in *. apply NoDup_cons in Hk as [Hk0 Hk].
      apply NoDup_cons in Hv as [Hv0 Hv].
      apply not_elem_of_cons in Hnew as [Hne Hnew].
      destruct (decide (key = k0)) as [->|Hkey].
      * simpl. apply NoDup_cons. split; [done|done].
      * simpl. apply elem_of_cons in Hin as [[= ? ?]|Hin]; [done|].
        apply NoDup_cons. split; [|by apply IH].
        intros ([k' v'] & -> & Hin')%list_elem_of_fmap. simpl in *.
        apply dict_set_elem in Hin'; [|done].
        destruct Hin' as [[-> ->]|[_ Hin']]; [done|].
        apply Hv0. apply list_elem_of_fmap. by exists (k', v').
    + intros k v. rewrite dict_set_elem by done.
      destruct (decide (v = name')) as [->|Hne'].
      * rewrite lookup_insert_eq. split.
        -- intros [= ->]. by left.
        -- intros [[-> _]|[_ Hin']]; [done|].
           exfalso. apply Hnew. apply list_elem_of_fmap. by exists (k, name').
      * rewrite lookup_insert_ne by done.
        destruct (decide (v = name)) as [->|Hne].
        -- rewrite lookup_delete_eq. split; [done|].
           intros [[_ ->]|[Hk' Hin']]; [done|].
           exfalso. apply Hk'. apply Hrd in Hin'. congruence.
        -- rewrite lookup_delete_ne by done. rewrite Hrd. split.
           ++ intros Hin'. right. split; [|done]. intros ->.
              apply Hne. apply (dict_get_elem _ _ _ Hk) in Hin, Hin'. congruence.
           ++ intros [[_ ->]|[_ Hin']]; done.
    + intros k v Hin' Hlen. apply dict_set_elem in Hin'; [|done].
      destruct Hin' as [[-> ->]|[_ Hin']]; [|by apply Hshort].
      exfalso. specialize (Hshort key name Hin Hlen). subst. lia.
  - by apply dict_set_keys_present.
  - intros y Hy Hne. apply Hvals. by right.
Qed.

Lemma map_names_cases (fuel n : nat) (names : list str) rd d (tape : list nat) :
  linked n rd d → NoDup names →
  (∀ x, x ∈ names → x ∈ d.*2 ∧ n < length x) →
  for_each (CNM.map_name fuel n) names (rd, d, tape) = Diverge
  ∨ ∃ rd' d' tape',
      for_each (CNM.map_name fuel n) names (rd, d, tape) = Done (rd', d', tape')
      ∧ linked n rd' d' ∧ d'.*1 = d.*1.
Proof.
  revert rd d tape. induction names as [|name names IH];
    intros rd d tape Hlinked Hnd Hnames.
  - right. by exists rd, d, tape.
  - apply NoDup_cons in Hnd as [Hname Hnd]. cbn [for_each].
    destruct (Hnames name (list_elem_of_here _ _)) as [Hin Hlong].
    destruct (map_name_cases fuel n rd d tape name Hlinked Hin Hlong)
      as [->|(rd1 & d1 & tape1 & -> & Hlinked1 & Hkeys1 & Hvals1)]; [by left|].
    rewrite bind_Done_l.
    destruct (IH rd1 d1 tape1 Hlinked1 Hnd)
      as [->|(rd2 & d2 & tape2 & -> & Hlinked2 & Hkeys2)]; [|by left|].
    + intros x Hx.
      destruct (Hnames x (list_elem_of_further _ _ _ Hx)) as [Hxin Hxlong].
      split; [|done]. apply Hvals1; [done|]. by intros ->.
    + right. exists rd2, d2, tape2. split; [done|]. split; [done|congruence].
Qed.

(** [do_mapping] on a coherent mapping: it raises nothing, and when it
    returns the mapping is coherent again, with the same names. *)
Lemma do_mapping_cases (fuel : nat) (tape : list nat) (m : CNM.t) :
  coherent m →
  CNM.do_mapping fuel tape m = Diverge
  ∨ ∃ m' tape',
      CNM.do_mapping fuel tape m = Done (m', tape')
      ∧ coherent m' ∧ CNM.keys m' = CNM.keys m
      ∧ CNM.max_len m' = CNM.max_len m ∧ CNM.mapped m' = CNM.mapped m.
Proof.
  intros (Hk & Hv & Hshort). unfold CNM.do_mapping.
  destruct (scan_spec (CNM.max_len m) (CNM.dictionary m) Hv) as (rd & -> & Hrd).
  destruct (map_names_cases fuel (CNM.max_len m)
              (filter (fun v => CNM.max_len m < length v) (CNM.dictionary m).*2)
              rd (CNM.dictionary m) tape)
    as [->|(rd' & d' & tape' & -> & (Hk' & Hv' & _ & Hshort') & Hkeys)].
  - split; [done|]. split; [done|]. split; [done|].
    intros k v Hin. rewrite Forall_forall in Hshort. apply (Hshort (k, v) Hin).
  - by apply NoDup_filter.
  - intros x Hx. by apply list_elem_of_filter in Hx as [? ?].
  - by left.
  - right. rewrite bind_Done_l. do 2 eexists. split; [done|].
    unfold coherent, CNM.keys. simpl. split; [|done].
    split; [done|]. split; [done|]. apply Forall_forall.
    intros [k v] Hin. by apply Hshort'.
Qed.

Lemma fresh_coherent (m : CNM.t) : fresh m → coherent m.
Proof.
  intros [Hk Hid]. unfold CNM.keys in Hk. rewrite Forall_forall in Hid.
  split; [done|]. split.
  - replace ((CNM.dictionary m).*2) with ((CNM.dictionary m).*1); [done|].
    apply list_fmap_ext. intros _ [k v] Hin%list_elem_of_lookup_2. simpl.
    symmetry. by apply (Hid (k, v)).
  - apply Forall_forall. intros kv Hin _. by apply Hid.
Qed.

Lemma fresh_init (n : nat) : fresh (CNM.init n).
Proof. split; [apply NoDup_nil_2|apply Forall_nil_2]. Qed.

Lemma fresh_add (name : str) (m : CNM.t) : fresh m → fresh (CNM.add name m).
Proof.
  intros [Hk Hid]. rewrite Forall_forall in Hid. split.
  - by apply dict_set_keys_NoDup.
  - apply Forall_forall. intros [k v] Hin. apply dict_set_elem in Hin; [|done].
    destruct Hin as [[-> ->]|[_ Hin]]; [done|by apply (Hid (k, v))].
Qed.

(** Resolving a registered name of a coherent mapping. *)
Lemma getitem_cases (fuel : nat) (tape : list nat) (m : CNM.t) (name : str) :
  coherent m → name ∈ CNM.keys m →
  CNM.getitem fuel tape m name = Diverge
  ∨ ∃ v m' tape',
      CNM.getitem fuel tape m name = Done (v, m', tape')
      ∧ coherent m' ∧ CNM.keys m' = CNM.keys m
      ∧ CNM.max_len m' = CNM.max_len m
      ∧ (name, v) ∈ CNM.dictionary m'.
Proof.
  intros Hm Hname. unfold CNM.getitem.
  assert (∀ m', coherent m' → CNM.keys m' = CNM.keys m →
            ∃ v, CNM.dict_get name (CNM.dictionary m') = Done v
                 ∧ (name, v) ∈ CNM.dictionary m') as Hget.
  { intros m' Hm' Hkeys.
    destruct (dict_get_present name (CNM.dictionary m')) as [v Hv].
    { unfold CNM.keys in Hkeys. by rewrite Hkeys. }
    exists v. split; [done|]. apply dict_get_elem; [apply Hm'|done]. }
  destruct (CNM.mapped m).
  - right. destruct (Hget m Hm eq_refl) as (v & Hrun & Hin).
    exists v, m, tape. rewrite bind_Done_l, Hrun. done.
  - destruct (do_mapping_cases fuel tape m Hm)
      as [->|(m' & tape' & -> & Hm' & Hkeys & Hmax & _)]; [by left|].
    right. destruct (Hget m' Hm' Hkeys) as (v & Hrun & Hin).
    exists v, m', tape'. rewrite bind_Done_l, Hrun. done.
Qed.

End Mapping.

Lemma Forall_sublist {A : Type} (P : A → Prop) (l1 l2 : list A) :
  l1 `sublist_of` l2 → Forall P l2 → Forall P l1.
Proof.
  induction 1 as [|x l1 l2 _ IH|x l1 l2 _ IH]; intros HP; [done|..].
  - apply Forall_cons in HP as [Hx HP]. constructor; [done|by apply IH].
  - apply Forall_cons in HP as [_ HP]. by apply IH.
Qed.

Section Bound.
Implicit Types name : str.

(** One pass over the first [n] characters: what is left of them is a
    subsequence without the characters of the group, unless the pass
    stopped on reaching [to_remove]; the characters after them stay. *)
Lemma drop_scan_spec (g : list ascii) (to_remove n : nat) name (rc : nat) :
  n ≤ length name →
  ∃ kept rc',
    CNM.drop_scan g to_remove n name rc = Done (kept ++ drop n name, rc')
    ∧ kept `sublist_of` take n name
    ∧ length kept + rc' = n + rc
    ∧ (rc' ≠ to_remove → Forall (fun c => c ∉ g) kept).
Proof.
  revert name rc. induction n as [|index IH]; intros name rc Hn.
  - exists [], rc. simpl. rewrite drop_0. by repeat split.
  - destruct (lookup_lt_is_Some_2 name index) as [c Hc]; [lia|].
    cbn [CNM.drop_scan]. unfold Py.index. rewrite Hc, bind_Done_l.
    rewrite (take_S_r _ _ _ Hc).
    destruct (decide (c ∈ g)) as [Hin|Hout].
    + assert (drop index (remove_at name index) = drop (S index) name) as Hdrop.
      { unfold remove_at. rewrite drop_app_length'; [done|].
        rewrite length_take. lia. }
      assert (take index (remove_at name index) = take index name) as Htake.
      { unfold remove_at. rewrite take_app_length'; [done|].
        rewrite length_take. lia. }
      destruct (decide (S rc = to_remove)) as [Hstop|Hgo].
      * exists (take index name), (S rc). unfold remove_at.
        split; [done|]. split; [by apply sublist_inserts_r|].
        split; [rewrite length_take; lia|done].
      * destruct (IH (remove_at name index) (S rc))
          as (kept & rc' & -> & Hsub & Hlen & Hfree).
        { rewrite remove_at_length; lia. }
        exists kept, rc'. rewrite Hdrop. split; [done|].
        rewrite Htake in Hsub. split; [by apply sublist_inserts_r|].
        split; [lia|done].
    + destruct (IH name rc) as (kept & rc' & -> & Hsub & Hlen & Hfree); [lia|].
      exists (kept ++ [c]), rc'. rewrite (drop_S _ _ _ Hc).
      split; [by rewrite <- app_assoc|].
      split; [by apply sublist_app|].
      split; [rewrite length_app; simpl; lia|].
      intros Hne. apply Forall_app. split; [by apply Hfree|].
      by apply Forall_singleton.
Qed.

(** The three passes: the result is a subsequence of the name; either
    exactly [to_remove] characters are gone, or none of the letters of the
    groups is left. *)
Lemma drop_passes_spec (groups : list (list ascii)) (to_remove : nat) name
    (rc : nat) :
  ∃ name' rc',
    CNM.drop_passes groups to_remove name rc = Done (name', rc')
    ∧ name' `sublist_of` name
    ∧ length name' + rc' = length name + rc
    ∧ (rc' ≠ to_remove →
       Forall (fun g : list ascii => Forall (fun c => c ∉ g) name') groups).
Proof.
  revert name rc. induction groups as [|g groups IH]; intros name rc.
  - exists name, rc. simpl. split; [done|]. split; [done|]. split; [done|].
    intros _. constructor.
  - cbn [CNM.drop_passes].
    destruct (drop_scan_spec g to_remove (length name) name rc)
      as (kept & rc1 & -> & Hsub & Hlen & Hfree); [done|].
    rewrite drop_all, app_nil_r, bind_Done_l. rewrite firstn_all in Hsub.
    destruct (decide (rc1 = to_remove)) as [Hstop|Hgo].
    + exists kept, rc1. split; [done|]. split; [done|]. split; [lia|done].
    + destruct (IH kept rc1) as (name' & rc' & -> & Hsub' & Hlen' & Hfree').
      exists name', rc'. split; [done|].
      split; [by etransitivity|]. split; [lia|].
      intros Hne. constructor; [|by apply Hfree'].
      eapply Forall_sublist; [exact Hsub'|]. by apply Hfree.
Qed.

Lemma random_drop_bound (n : nat) name (tape : list nat) name' (tape' : list nat) :
  CNM.random_drop n name tape = Done (name', tape') → length name' ≤ n.
Proof.
  revert name. induction tape as [|i tape IH]; intros name; simpl.
  - destruct (decide (n < length name)); [done|]. intros [= <- _]. lia.
  - destruct (decide (n < length name)); [apply IH|]. intros [= <- _]. lia.
Qed.

Lemma retry_result (fuel : nat) (rd : gmap str str) (n : nat) (orig name : str)
    (tape : list nat) name' (tape' : list nat) :
  CNM.retry fuel rd n orig name tape = Done (name', tape') →
  name' = name ∨ length name' ≤ n.
Proof.
  revert name tape. induction fuel as [|fuel IH]; intros name tape; simpl.
  - destruct (decide (is_Some (rd !! name))); [done|]. intros [= <- _]. by left.
  - destruct (decide (is_Some (rd !! name))); [|intros [= <- _]; by left].
    intros ([name1 tape1] & Hdrop & Hretry)%bind_Done. right.
    apply random_drop_bound in Hdrop.
    apply IH in Hretry as [->|Hlen]; done.
Qed.

(** The column name a long name gets from the loop body is within the
    bound or has no letter left; the other column names stay. *)
Lemma map_name_value (fuel n : nat) (rd : gmap str str) (d : list (str * str))
    (tape : list nat) (name : str) rd' d' tape' :
  linked n rd d → n < length name →
  CNM.map_name fuel n (rd, d, tape) name = Done (rd', d', tape') →
  ∀ y, y ∈ d'.*2 → (y ∈ d.*2 ∧ y ≠ name) ∨ bounded_or_letterless n y.
Proof.
  intros (Hk & Hv & Hrd & _) Hlong Hrun y Hy. unfold CNM.map_name in Hrun.
  apply bind_Done in Hrun as (key & Hkey%getitem_Done & Hrun).
  destruct (drop_passes_spec CNM.drop_groups (length name - n) name 0)
    as (short & rc & Hshort & _ & Hlen & Hfree).
  rewrite Hshort, bind_Done_l in Hrun.
  apply bind_Done in Hrun as ([name' tape1] & Hretry & Hrun).
  apply bind_Done in Hrun as (rd1 & _ & [= _ <- _]).
  apply Hrd in Hkey.
  apply (dict_set_values key name' d name Hk Hkey) in Hy
    as [->|[[Hne Hin]|[-> (x & Hx & Hin)]]].
  - right. apply retry_result in Hretry as [->|Hbound]; [|by left].
    destruct (decide (rc = length name - n)) as [->|Hrc].
    + left. lia.
    + right. by apply Hfree.
  - by left.
  - exfalso. apply Hx. apply Hrd in Hin, Hkey. congruence.
Qed.

Lemma map_names_values (fuel n : nat) (names : list str) (rd : gmap str str)
    (d : list (str * str)) (tape : list nat) rd' d' tape' :
  linked n rd d → NoDup names →
  (∀ x, x ∈ names → x ∈ d.*2 ∧ n < length x) →
  for_each (CNM.map_name fuel n) names (rd, d, tape) = Done (rd', d', tape') →
  ∀ y, y ∈ d'.*2 → (y ∈ d.*2 ∧ y ∉ names) ∨ bounded_or_letterless n y.
Proof.
  revert rd d tape. induction names as [|name names IH];
    intros rd d tape Hlinked Hnd Hnames Hrun y Hy.
  - injection Hrun as <- <- <-. left. split; [done|apply not_elem_of_nil].
  - apply NoDup_cons in Hnd as [Hname Hnd]. cbn [for_each] in Hrun.
    apply bind_Done in Hrun as ([[rd1 d1] tape1] & Hstep & Hrun).
    destruct (Hnames name (list_elem_of_here _ _)) as [Hin Hlong].
    destruct (map_name_cases fuel n rd d tape name Hlinked Hin Hlong)
      as [Hdiv|(rd2 & d2 & tape2 & Hdone & Hlinked1 & _ & Hvals1)];
      [congruence|].
    rewrite Hstep in Hdone. injection Hdone as <- <- <-.
    destruct (IH rd1 d1 tape1 Hlinked1 Hnd) with (y := y) as [[Hy1 Hout]|HQ];
      [|exact Hrun|exact Hy| |by right].
    + intros x Hx.
      destruct (Hnames x (list_elem_of_further _ _ _ Hx)) as [Hxin Hxlong].
      split; [|done]. apply Hvals1; [done|]. by intros ->.
    + destruct (map_name_value fuel n rd d tape name rd1 d1 tape1 Hlinked Hlong
                  Hstep y Hy1) as [[Hyd Hne]|HQ]; [|by right].
      left. split; [done|]. by apply not_elem_of_cons.
Qed.

(** After [do_mapping] every column name is within the bound, unless it
    has no letter left to drop. *)
Lemma column_names_bounded_or_letterless (fuel : nat) (tape : list nat)
    (m m' : CNM.t) (tape' : list nat) :
  coherent m → CNM.do_mapping fuel tape m = Done (m', tape') →
  Forall (bounded_or_letterless (CNM.max_len m)) (CNM.dictionary m').*2.
Proof.
  intros (Hk & Hv & Hshort) Hrun. unfold CNM.do_mapping in Hrun.
  destruct (scan_spec (CNM.max_len m) (CNM.dictionary m) Hv) as (rd & Hscan & Hrd).
  rewrite Hscan in Hrun.
  apply bind_Done in Hrun as ([[rd' d'] tape1] & Hloop & [= <- _]). simpl.
  apply Forall_forall. intros y Hy.
  assert (linked (CNM.max_len m) rd (CNM.dictionary m)) as Hlinked.
  { split; [done|]. split; [done|]. split; [done|].
    intros k v Hkv. rewrite Forall_forall in Hshort. apply (Hshort (k, v) Hkv). }
  eapply map_names_values in Hloop as [[Hin Hout]|HQ];
    [|exact HQ|exact Hlinked|by apply NoDup_filter| |exact Hy].
  - left. destruct (decide (CNM.max_len m < length y)) as [Hlong|?]; [|lia].
    exfalso. apply Hout. by apply list_elem_of_filter.
  - intros x Hx. by apply list_elem_of_filter in Hx as [? ?].
Qed.

End Bound.

(** Distinct registered names resolve to distinct column names, on every
    mapping that is coherent, such as one that has only seen [add]. *)
Lemma column_names_distinct (m : CNM.t) (k1 k2 v1 v2 : str) :
  coherent m → k1 ≠ k2 →
  CNM.dict_get k1 (CNM.dictionary m) = Done v1 →
  CNM.dict_get k2 (CNM.dictionary m) = Done v2 →
  v1 ≠ v2.
Proof.
  intros (Hk & Hv & _) Hne H1 H2 <-.
  apply (dict_get_elem _ _ _ Hk) in H1, H2.
  apply list_elem_of_lookup in H1 as [i1 H1], H2 as [i2 H2].
  assert (i1 = i2) as <-.
  { eapply NoDup_lookup; [exact Hv|..]; rewrite list_lookup_fmap.
    - by rewrite H1.
    - by rewrite H2. }
  congruence.
Qed.

Lemma filter_none {A : Type} (P : A → Prop) `{!∀ x, Decision (P x)} (l : list A) :
  Forall (fun x => ¬ P x) l → filter P l = [].
Proof.
  induction 1 as [|x l Hx _ IH]; [done|].
  by rewrite filter_cons, decide_False, IH.
Qed.

(** C1: a registered name that is too long and has fewer letters than the
    excess keeps more than [max_len] characters: with the default bound of
    64, the 76-character name [Image_] followed by seventy [0] resolves,
    whatever the random draws, to the 71-character column name [_] followed
    by seventy [0]. *)
Theorem few_letters_stay_too_long (fuel : nat) (tape : list nat) :
  let name := s "Image_" ++ replicate 70 "0"%char in
  let m := CNM.add name (CNM.init CNM.default_max_len) in
  ∃ m', CNM.getitem fuel tape m name
        = Done (s "_" ++ replicate 70 "0"%char, m', tape)
        ∧ CNM.max_len m' = 64
        ∧ length (s "_" ++ replicate 70 "0"%char) = 71.
Proof.
  intros name m. eexists. split; [|split; [|reflexivity]].
  - destruct fuel; vm_compute; reflexivity.
  - reflexivity.
Qed.

Section Retry.

Lemma random_drop_short (n : nat) (name : str) (tape : list nat) :
  length name ≤ n → CNM.random_drop n name tape = Done (name, tape).
Proof. intros Hlen. destruct tape; simpl; rewrite decide_False; done || lia. Qed.

Lemma random_drop_step (n : nat) (name : str) (i : nat) (tape : list nat) :
  n < length name →
  CNM.random_drop n name (i :: tape) = CNM.random_drop n (remove_at name i) tape.
Proof. intros Hlen. simpl. by rewrite decide_True. Qed.

Lemma retry_free (fuel : nat) (rd : gmap str str) (n : nat) (orig name : str)
    (tape : list nat) :
  rd !! name = None → CNM.retry fuel rd n orig name tape = Done (name, tape).
Proof.
  intros Hfree. destruct fuel; simpl; rewrite decide_False; try done;
    rewrite Hfree; by intros [? ?].
Qed.

Lemma retry_taken (fuel : nat) (rd : gmap str str) (n : nat) (orig name : str)
    (tape : list nat) :
  is_Some (rd !! name) →
  CNM.retry (S fuel) rd n orig name tape
  = CNM.random_drop n orig tape
      ≫= (fun '(name, tape) => CNM.retry fuel rd n orig name tape).
Proof. intros Htaken. simpl. by rewrite decide_True. Qed.

Lemma retry_out_of_fuel (rd : gmap str str) (n : nat) (orig name : str)
    (tape : list nat) :
  is_Some (rd !! name) → CNM.retry 0 rd n orig name tape = Diverge.
Proof. intros Htaken. simpl. by rewrite decide_True. Qed.

Lemma remove_at_replicate (c : ascii) (n i : nat) :
  i ≤ n → remove_at (replicate (S n) c) i = replicate n c.
Proof.
  intros Hi. unfold remove_at. rewrite take_replicate, drop_replicate.
  rewrite <- replicate_add. f_equal. lia.
Qed.

(** A mapping with a single name over the bound. *)
Lemma do_mapping_single (fuel : nat) (tape : list nat) (m : CNM.t)
    (rd : gmap str str) (name key short : str) (rc : nat) :
  CNM.scan (CNM.max_len m) (CNM.dictionary m) = (rd, [name]) →
  rd !! name = Some key →
  CNM.drop_passes CNM.drop_groups (length name - CNM.max_len m) name 0
  = Done (short, rc) →
  CNM.do_mapping fuel tape m
  = CNM.retry fuel rd (CNM.max_len m) name short tape
      ≫= (fun '(name', tape') =>
            Done ({| CNM.dictionary := CNM.dict_set key name' (CNM.dictionary m);
                     CNM.mapped := CNM.mapped m;
                     CNM.max_len := CNM.max_len m |}, tape')).
Proof.
  intros Hscan Hkey Hshort. unfold CNM.do_mapping. rewrite Hscan.
  cbn [for_each]. unfold CNM.map_name, Py.getitem, Py.pop.
  rewrite Hkey, bind_Done_l, Hshort, bind_Done_l.
  by destruct (CNM.retry fuel rd (CNM.max_len m) name short tape) as [[? ?]| |].
Qed.

(** Every attempt on 65 times [a] ends with 64 times [a]. *)
Lemma random_drop_stuck (tape : list nat) :
  CNM.random_drop 64 (a_run 65) tape = Diverge
  ∨ ∃ tape', CNM.random_drop 64 (a_run 65) tape = Done (a_run 64, tape').
Proof.
  induction tape as [|i tape IH]; [by left|].
  rewrite random_drop_step by (vm_compute; lia).
  destruct (decide (i ≤ 64)) as [Hi|Hi].
  - right. exists tape. unfold a_run. rewrite remove_at_replicate by done.
    apply random_drop_short. rewrite length_replicate. lia.
  - rewrite remove_at_ge; [done|]. unfold a_run. rewrite length_replicate. lia.
Qed.

Lemma retry_stuck (fuel : nat) (rd : gmap str str) (tape : list nat) :
  is_Some (rd !! a_run 64) →
  CNM.retry fuel rd 64 (a_run 65) (a_run 64) tape = Diverge.
Proof.
  intros Htaken. revert tape. induction fuel as [|fuel IH]; intros tape.
  - by apply retry_out_of_fuel.
  - rewrite retry_taken by done.
    destruct (random_drop_stuck tape) as [->|[tape' ->]]; [done|].
    rewrite bind_Done_l. apply IH.
Qed.

Lemma do_mapping_stuck (fuel : nat) (tape : list nat) :
  CNM.do_mapping fuel tape stuck_mapping = Diverge.
Proof.
  rewrite (do_mapping_single fuel tape stuck_mapping
             (<[a_run 64 := a_run 64]> (<[a_run 65 := a_run 65]> ∅))
             (a_run 65) (a_run 65) (a_run 64) 1);
    [|vm_compute; reflexivity..].
  change (CNM.max_len stuck_mapping) with 64.
  rewrite retry_stuck; [done|]. rewrite lookup_insert_eq. by eexists.
Qed.

(** On [slow_mapping], deleting an [a] gives the taken name and deleting
    the [b] gives a free one. *)
Lemma retry_slow (k fuel : nat) (rd : gmap str str) :
  is_Some (rd !! ("b"%char :: a_run 63)) → rd !! a_run 64 = None →
  CNM.retry fuel rd 64 ("b"%char :: a_run 64) ("b"%char :: a_run 63) (slow_tape k)
  = if decide (k < fuel) then Done (a_run 64, []) else Diverge.
Proof.
  intros Htaken Hfree. revert fuel. induction k as [|k IH]; intros [|fuel].
  - by apply retry_out_of_fuel.
  - rewrite retry_taken by done. rewrite decide_True by lia.
    change (CNM.random_drop 64 ("b"%char :: a_run 64) (slow_tape 0))
      with (Done (a_run 64, @nil nat)).
    rewrite bind_Done_l. by apply retry_free.
  - by apply retry_out_of_fuel.
  - rewrite retry_taken by done.
    change (slow_tape (S k)) with (1 :: slow_tape k).
    rewrite random_drop_step by (vm_compute; lia).
    change (remove_at ("b"%char :: a_run 64) 1) with ("b"%char :: a_run 63).
    rewrite random_drop_short by (vm_compute; lia).
    rewrite bind_Done_l, IH.
    destruct (decide (k < fuel)), (decide (S k < S fuel)); done || lia.
Qed.

Lemma do_mapping_slow (k fuel : nat) :
  CNM.do_mapping fuel (slow_tape k) slow_mapping
  = if decide (k < fuel)
    then Done ({| CNM.dictionary := [("b"%char :: a_run 64, a_run 64);
                                     ("b"%char :: a_run 63, "b"%char :: a_run 63)];
                  CNM.mapped := false;
                  CNM.max_len := 64 |}, [])
    else Diverge.
Proof.
  rewrite (do_mapping_single fuel (slow_tape k) slow_mapping
             (<["b"%char :: a_run 63 := "b"%char :: a_run 63]>
                (<["b"%char :: a_run 64 := "b"%char :: a_run 64]> ∅))
             ("b"%char :: a_run 64) ("b"%char :: a_run 64)
             ("b"%char :: a_run 63) 1);
    [|vm_compute; reflexivity..].
  change (CNM.max_len slow_mapping) with 64.
  rewrite retry_slow.
  - destruct (decide (k < fuel)); [|done]. rewrite bind_Done_l.
    vm_compute. reflexivity.
  - rewrite lookup_insert_eq. by eexists.
  - vm_compute. reflexivity.
Qed.

End Retry.

(** C7 as stated fails: with 65 and 64 times [a] registered under the
    default bound, no number of attempts and no sequence of random draws
    lets [do_mapping] return or raise. *)
Lemma retry_never_ends :
  ¬ ∃ fuel tape, CNM.do_mapping fuel tape stuck_mapping ≠ Diverge.
Proof. intros (fuel & tape & Hrun). apply Hrun, do_mapping_stuck. Qed.

(** A name without letters goes through the letter passes unchanged. *)
Lemma drop_scan_letterless (g : list ascii) (to_remove n : nat) (name : str)
    (rc : nat) :
  n ≤ length name → Forall (fun c => c ∉ g) name →
  CNM.drop_scan g to_remove n name rc = Done (name, rc).
Proof.
  intros Hn Hfree. induction n as [|n IH]; [done|].
  cbn [CNM.drop_scan].
  destruct (lookup_lt_is_Some_2 name n ltac:(lia)) as [c Hc].
  unfold index at 1. rewrite Hc, bind_Done_l.
  rewrite decide_False.
  - apply IH. lia.
  - rewrite Forall_forall in Hfree. apply Hfree. by eapply list_elem_of_lookup_2.
Qed.

Lemma drop_passes_letterless (groups : list (list ascii)) (to_remove : nat)
    (name : str) :
  0 < to_remove →
  Forall (fun g : list ascii => Forall (fun c => c ∉ g) name) groups →
  CNM.drop_passes groups to_remove name 0 = Done (name, 0).
Proof.
  intros Hpos. induction 1 as [|g groups Hg _ IH]; [done|].
  cbn [CNM.drop_passes]. rewrite drop_scan_letterless by done.
  rewrite bind_Done_l. cbv beta iota. rewrite decide_False by lia. done.
Qed.

Section NoFreeShortening.
Implicit Types name : str.
Implicit Types rd : gmap str str.
Implicit Types d : list (str * str).

Lemma remove_at_sublist name (i : nat) : remove_at name i `sublist_of` name.
Proof.
  unfold remove_at. rewrite <- (take_drop i name) at 3.
  apply sublist_app; [done|].
  replace (S i) with (i + 1) by lia. rewrite <- drop_drop. apply sublist_drop.
Qed.

(** An attempt that ends has deleted characters of the name down to the
    bound, no further. *)
Lemma random_drop_shortening (n : nat) name (tape : list nat) name'
    (tape' : list nat) :
  n < length name → CNM.random_drop n name tape = Done (name', tape') →
  name' `sublist_of` name ∧ length name' = n.
Proof.
  revert name. induction tape as [|i tape IH]; intros name Hlong.
  - simpl. by rewrite decide_True.
  - rewrite random_drop_step by done. intros Hrun.
    destruct (decide (i < length name)) as [Hi|Hi].
    + pose proof (remove_at_length name i Hi) as Hlen.
      destruct (decide (n < length (remove_at name i))) as [Hstill|Hdone].
      * apply IH in Hrun as [Hsub Hn]; [|done]. split; [|done].
        etransitivity; [exact Hsub|apply remove_at_sublist].
      * rewrite random_drop_short in Hrun by lia. injection Hrun as <- <-.
        split; [apply remove_at_sublist|lia].
    + rewrite remove_at_ge in Hrun by lia. by apply IH.
Qed.

(** With every shortening taken, an attempt is followed by another. *)
Lemma retry_no_free_shortening (fuel : nat) rd (n : nat) (orig name : str)
    (tape : list nat) :
  n < length orig → is_Some (rd !! name) →
  (∀ x, x `sublist_of` orig → length x = n → is_Some (rd !! x)) →
  CNM.retry fuel rd n orig name tape = Diverge.
Proof.
  intros Hlong Htaken Hall. revert name tape Htaken.
  induction fuel as [|fuel IH]; intros name tape Htaken.
  - by apply retry_out_of_fuel.
  - rewrite retry_taken by done.
    destruct (random_drop_cases n orig tape) as [->|(name' & tape' & Hdrop & _)];
      [done|].
    rewrite Hdrop, bind_Done_l. apply IH.
    apply random_drop_shortening in Hdrop as [Hsub Hlen]; [|done]. by apply Hall.
Qed.

(** The letter passes never drop more than they are asked to. *)
Lemma drop_scan_count (g : list ascii) (to_remove n : nat) name (rc : nat) name'
    (rc' : nat) :
  rc < to_remove → CNM.drop_scan g to_remove n name rc = Done (name', rc') →
  rc' ≤ to_remove.
Proof.
  revert name rc. induction n as [|index IH]; intros name rc Hrc; simpl.
  - intros [= _ <-]. lia.
  - intros (c & _ & Hrun)%bind_Done.
    destruct (decide (c ∈ g)); [|by eapply IH].
    destruct (decide (S rc = to_remove)); [injection Hrun as _ <-; lia|].
    eapply IH; [|exact Hrun]. lia.
Qed.

Lemma drop_passes_count (groups : list (list ascii)) (to_remove : nat) name
    (rc : nat) name' (rc' : nat) :
  rc < to_remove → CNM.drop_passes groups to_remove name rc = Done (name', rc') →
  rc' ≤ to_remove.
Proof.
  revert name rc. induction groups as [|g groups IH]; intros name rc Hrc; simpl.
  - intros [= _ <-]. lia.
  - intros ([name1 rc1] & Hscan & Hrun)%bind_Done.
    apply drop_scan_count in Hscan; [|done].
    destruct (decide (rc1 = to_remove)); [injection Hrun as _ <-; lia|].
    eapply IH; [|exact Hrun]. lia.
Qed.

Lemma letterless_letters (x : str) : letterless x → letters x = [].
Proof.
  intros Hx. unfold letters. apply filter_none. apply Forall_forall.
  intros c Hc (g & Hg & Hcg)%Exists_exists.
  unfold letterless in Hx. rewrite Forall_forall in Hx.
  specialize (Hx g Hg). rewrite Forall_forall in Hx. by apply (Hx c).
Qed.

Lemma sublist_letters_length (x name : str) :
  x `sublist_of` name → letters x = [] →
  length x + length (letters name) ≤ length name.
Proof.
  induction 1 as [|c x name _ IH|c x name _ IH]; intros Hx.
  - done.
  - unfold letters in *. rewrite filter_cons in Hx. rewrite filter_cons.
    destruct (decide (Exists _ CNM.drop_groups)); [done|].
    simpl. specialize (IH Hx). lia.
  - unfold letters in *. rewrite filter_cons. specialize (IH Hx).
    destruct (decide (Exists _ CNM.drop_groups)); simpl; lia.
Qed.

(** A name with as many letters as it has characters over the bound leaves
    the letter passes with exactly [n] characters. *)
Lemma drop_passes_enough_letters (n : nat) name :
  n < length name → length name - n ≤ length (letters name) →
  ∃ short,
    CNM.drop_passes CNM.drop_groups (length name - n) name 0
    = Done (short, length name - n)
    ∧ short `sublist_of` name ∧ length short = n.
Proof.
  intros Hlong Hletters.
  destruct (drop_passes_spec CNM.drop_groups (length name - n) name 0)
    as (short & rc & Hrun & Hsub & Hlen & Hfree).
  assert (0 < length name - n) as Hpos by lia.
  pose proof (drop_passes_count _ _ _ _ _ _ Hpos Hrun) as Hrc.
  destruct (decide (rc = length name - n)) as [->|Hne].
  - exists short. split; [done|]. split; [done|lia].
  - exfalso. specialize (Hfree Hne).
    pose proof (sublist_letters_length short name Hsub
                  (letterless_letters short Hfree)). lia.
Qed.

Lemma map_name_no_free_shortening (fuel n : nat) rd d (tape : list nat) name :
  linked n rd d → name ∈ d.*2 → n < length name →
  length name - n ≤ length (letters name) ∨ letterless name →
  (∀ x, x `sublist_of` name → length x = n → x ∈ d.*2) →
  CNM.map_name fuel n (rd, d, tape) name = Diverge.
Proof.
  intros (_ & _ & Hrd & _) Hname Hlong Hletters Hall.
  assert (∀ x, x ∈ d.*2 → is_Some (rd !! x)) as Htaken.
  { intros x ([k v] & -> & Hin)%list_elem_of_fmap. exists k. by apply Hrd. }
  destruct (Htaken name Hname) as [key Hkey].
  assert (∃ short rc,
            CNM.drop_passes CNM.drop_groups (length name - n) name 0
            = Done (short, rc) ∧ is_Some (rd !! short))
    as (short & rc & Hshort & Hcollide).
  { destruct Hletters as [Hletters|Hnone].
    - destruct (drop_passes_enough_letters n name Hlong Hletters)
        as (short & Hshort & Hsub & Hlen).
      exists short, (length name - n). split; [done|]. by apply Htaken, Hall.
    - exists name, 0. split; [|by apply Htaken].
      apply drop_passes_letterless; [lia|done]. }
  unfold CNM.map_name, Py.getitem. rewrite Hkey, bind_Done_l, Hshort, bind_Done_l.
  rewrite retry_no_free_shortening; [done|done|done|].
  intros x Hx Hxn. by apply Htaken, Hall.
Qed.

Lemma map_names_no_free_shortening (fuel n : nat) (names : list str) rd d
    (tape : list nat) name :
  linked n rd d → NoDup names →
  (∀ x, x ∈ names → x ∈ d.*2 ∧ n < length x) →
  name ∈ names → length name - n ≤ length (letters name) ∨ letterless name →
  (∀ x, x `sublist_of` name → length x = n → x ∈ d.*2) →
  for_each (CNM.map_name fuel n) names (rd, d, tape) = Diverge.
Proof.
  revert rd d tape. induction names as [|name0 names IH];
    intros rd d tape Hlinked Hnd Hnames Hname Hletters Hall.
  - by apply elem_of_nil in Hname.
  - apply NoDup_cons in Hnd as [Hname0 Hnd]. cbn [for_each].
    destruct (Hnames name0 (list_elem_of_here _ _)) as [Hin0 Hlong0].
    apply elem_of_cons in Hname as [->|Hname].
    + by rewrite map_name_no_free_shortening.
    + destruct (map_name_cases fuel n rd d tape name0 Hlinked Hin0 Hlong0)
        as [->|(rd1 & d1 & tape1 & -> & Hlinked1 & _ & Hvals1)]; [done|].
      rewrite bind_Done_l. apply IH; try done.
      * intros x Hx.
        destruct (Hnames x (list_elem_of_further _ _ _ Hx)) as [Hxin Hxlong].
        split; [|done]. apply Hvals1; [done|]. by intros ->.
      * intros x Hx Hxn. apply Hvals1; [by apply Hall|]. intros ->. lia.
Qed.

(** Name mapping on a mapping in which some column name is over the bound,
    meets a column name after the letter passes (it has letters enough to
    be brought within the bound, or none at all) and finds every name it
    can be shortened to taken. *)
Lemma do_mapping_no_free_shortening (fuel : nat) (tape : list nat) (m : CNM.t)
    name :
  coherent m → name ∈ (CNM.dictionary m).*2 → CNM.max_len m < length name →
  length name - CNM.max_len m ≤ length (letters name) ∨ letterless name →
  (∀ x, x `sublist_of` name → length x = CNM.max_len m →
        x ∈ (CNM.dictionary m).*2) →
  CNM.do_mapping fuel tape m = Diverge.
Proof.
  intros (Hk & Hv & Hshort) Hname Hlong Hletters Hall. unfold CNM.do_mapping.
  destruct (scan_spec (CNM.max_len m) (CNM.dictionary m) Hv) as (rd & -> & Hrd).
  rewrite (map_names_no_free_shortening fuel (CNM.max_len m) _ rd
             (CNM.dictionary m) tape name); try done.
  - split; [done|]. split; [done|]. split; [done|].
    intros k v Hin. rewrite Forall_forall in Hshort. apply (Hshort (k, v) Hin).
  - by apply NoDup_filter.
  - intros x Hx. by apply list_elem_of_filter in Hx as [? ?].
  - by apply list_elem_of_filter.
Qed.

Lemma sublist_replicate (c : ascii) (n : nat) (x : str) :
  x `sublist_of` replicate n c → x = replicate (length x) c.
Proof.
  intros Hsub. symmetry. apply replicate_as_Forall. split; [done|].
  eapply Forall_sublist; [exact Hsub|]. by apply Forall_replicate.
Qed.

End NoFreeShortening.

(** C7, amended: the randomized fallback has no bound on its attempts and
    no failure of its own.  It raises nothing and ends only when an attempt
    gives a name that is not yet a column name; an attempt that ends has
    deleted characters of the original name down to [max_len], no further;
    for every [k] there are random draws, all within the name, on which the
    mapping of [slow_mapping] is not finished after [k] attempts and
    completes with the next one, the long name getting a column name of 64
    characters; and once the fallback is entered for a name of which every
    shortening to [max_len] characters is a column name already, it never
    ends, whatever the draws.  So name mapping does not return on a mapping
    that holds such a name, when the letter passes bring the name within
    the bound or leave it as it is: when it has at least as many letters as
    characters over the bound, or no letter at all. *)
Theorem retry_unbounded :
  (∀ fuel rd n orig name tape,
     CNM.retry fuel rd n orig name tape = Diverge
     ∨ ∃ name' tape', CNM.retry fuel rd n orig name tape = Done (name', tape')
                      ∧ rd !! name' = None)
  ∧ (∀ n orig tape name' tape',
       n < length orig → CNM.random_drop n orig tape = Done (name', tape') →
       name' `sublist_of` orig ∧ length name' = n)
  ∧ (∀ k,
       Forall (fun i => i < 65) (slow_tape k)
       ∧ CNM.do_mapping k (slow_tape k) slow_mapping = Diverge
       ∧ ∃ m', CNM.do_mapping (S k) (slow_tape k) slow_mapping = Done (m', [])
               ∧ CNM.dict_get ("b"%char :: a_run 64) (CNM.dictionary m')
                 = Done (a_run 64)
               ∧ length (a_run 64) = CNM.max_len m')
  ∧ (∀ fuel (rd : gmap str str) n orig name tape,
       n < length orig → is_Some (rd !! name) →
       (∀ x, x `sublist_of` orig → length x = n → is_Some (rd !! x)) →
       CNM.retry fuel rd n orig name tape = Diverge)
  ∧ (∀ fuel tape m name,
       coherent m → name ∈ (CNM.dictionary m).*2 → CNM.max_len m < length name →
       length name - CNM.max_len m ≤ length (letters name) ∨ letterless name →
       (∀ x, x `sublist_of` name → length x = CNM.max_len m →
             x ∈ (CNM.dictionary m).*2) →
       CNM.do_mapping fuel tape m = Diverge).
Proof.
  split; [apply retry_cases|].
  split; [intros n orig tape name' tape'; apply random_drop_shortening|].
  split; [|split; [apply retry_no_free_shortening
                  |apply do_mapping_no_free_shortening]].
  intros k. split; [|split].
  - apply Forall_app. split; [|by repeat constructor].
    apply Forall_replicate. lia.
  - rewrite do_mapping_slow. by rewrite decide_False by lia.
  - eexists. rewrite do_mapping_slow, decide_True by lia.
    split; [done|]. split; vm_compute; reflexivity.
Qed.

Lemma retry_unbounded_witness :
  coherent stuck_mapping
  ∧ a_run 65 ∈ (CNM.dictionary stuck_mapping).*2
  ∧ CNM.max_len stuck_mapping < length (a_run 65)
  ∧ (length (a_run 65) - CNM.max_len stuck_mapping ≤ length (letters (a_run 65))
     ∨ letterless (a_run 65))
  ∧ CNM.do_mapping 3 [64; 0; 7] stuck_mapping = Diverge.
Proof.
  assert (coherent stuck_mapping) as Hm by by_eval.
  assert (a_run 65 ∈ (CNM.dictionary stuck_mapping).*2) as Hin by by_eval.
  assert (CNM.max_len stuck_mapping < length (a_run 65)) as Hlong
    by (vm_compute; lia).
  assert (length (a_run 65) - CNM.max_len stuck_mapping
          ≤ length (letters (a_run 65)) ∨ letterless (a_run 65)) as Hletters
    by (left; vm_compute; lia).
  split; [exact Hm|]. split; [exact Hin|]. split; [exact Hlong|].
  split; [exact Hletters|].
  apply (proj2 (proj2 (proj2 (proj2 retry_unbounded))) 3 [64; 0; 7] stuck_mapping
           (a_run 65) Hm Hin Hlong Hletters).
  intros x Hx Hlen. apply sublist_replicate in Hx. rewrite Hlen in Hx.
  rewrite Hx. by_eval.
Defined.

(** ** Names within the bound, in every state *)

Lemma scan_problem_names (n : nat) (d : list (str * str)) (rd0 : gmap str str) (pn0 : list str) :
  (fold_left
     (fun acc kv =>
        let '(reverse_dictionary, problem_names) := acc in
        let '(key, value) := kv in
        (<[value:=key]> reverse_dictionary,
         if decide (n < length value)
         then problem_names ++ [value] else problem_names))
     d (rd0, pn0)).2
  = pn0 ++ filter (fun v => n < length v) (d.*2).
Proof.
  revert rd0 pn0. induction d as [|[k v] d IH]; intros rd0 pn0.
  - simpl. by rewrite app_nil_r.
  - cbn [fold_left]. rewrite IH. rewrite fmap_cons, filter_cons. simpl.
    destruct (decide (n < length v)); [by rewrite <- app_assoc|done].
Qed.

Lemma scan_snd (n : nat) (d : list (str * str)) :
  (CNM.scan n d).2 = filter (fun v => n < length v) (d.*2).
Proof. unfold CNM.scan. by rewrite scan_problem_names. Qed.

Lemma do_mapping_within_bound (fuel : nat) (tape : list nat) (m : CNM.t) :
  Forall (fun v => length v ≤ CNM.max_len m) (CNM.dictionary m).*2 →
  CNM.do_mapping fuel tape m = Done (m, tape).
Proof.
  intros Hall. unfold CNM.do_mapping.
  pose proof (scan_snd (CNM.max_len m) (CNM.dictionary m)) as Hpn.
  destruct (CNM.scan (CNM.max_len m) (CNM.dictionary m)) as [rd pn].
  simpl in Hpn. subst pn.
  rewrite (filter_none (fun v : str => CNM.max_len m < length v)).
  - cbn [for_each]. rewrite !bind_Done_l. by destruct m.
  - eapply Forall_impl; [exact Hall|]. intros v Hv. simpl in *. lia.
Qed.

Section EveryState.
Implicit Types d : list (str * str).
Implicit Types rd : gmap str str.

(** The first loop of [do_mapping], on any dictionary: every entry of the
    reverse dictionary is an item of the dictionary, turned round. *)
Lemma scan_fold_items (n : nat) d rd0 (pn0 : list str) (v k : str) :
  (fold_left
     (fun acc kv =>
        let '(reverse_dictionary, problem_names) := acc in
        let '(key, value) := kv in
        (<[value:=key]> reverse_dictionary,
         if decide (n < length value)
         then problem_names ++ [value] else problem_names))
     d (rd0, pn0)).1 !! v = Some k →
  (k, v) ∈ d ∨ rd0 !! v = Some k.
Proof.
  revert rd0 pn0. induction d as [|[k0 v0] d IH]; intros rd0 pn0; cbn [fold_left].
  - by right.
  - intros [Hin|Hrd]%IH; [left; by right|].
    destruct (decide (v = v0)) as [->|Hne].
    + rewrite lookup_insert_eq in Hrd. injection Hrd as ->. left. by left.
    + rewrite lookup_insert_ne in Hrd by done. by right.
Qed.

Lemma scan_items (n : nat) d :
  (∀ v k, (CNM.scan n d).1 !! v = Some k → (k, v) ∈ d)
  ∧ Forall (fun v => n < length v) (CNM.scan n d).2.
Proof.
  split.
  - intros v k Hv. unfold CNM.scan in Hv.
    apply scan_fold_items in Hv as [?|Hv]; [done|]. by rewrite lookup_empty in Hv.
  - rewrite scan_snd. apply Forall_forall. by intros v [? _]%list_elem_of_filter.
Qed.

(** One problem name, in any state of the loop: the names stay, only a
    name over the bound gets another column name, and a name within the
    bound stays its own column name. *)
Lemma map_name_own (fuel n : nat) rd d (tape : list nat) (name : str) rd' d'
    (tape' : list nat) :
  NoDup d.*1 →
  (∀ k v, (k, v) ∈ d → length k ≤ n → v = k) →
  (∀ v k, rd !! v = Some k → (k, v) ∈ d) →
  n < length name →
  CNM.map_name fuel n (rd, d, tape) name = Done (rd', d', tape') →
  d'.*1 = d.*1
  ∧ (∀ k v, (k, v) ∈ d' → length k ≤ n → v = k)
  ∧ (∀ v k, rd' !! v = Some k → (k, v) ∈ d')
  ∧ (∀ k v, (k, v) ∈ d' → (k, v) ∈ d ∨ n < length k).
Proof.
  intros Hk Hown Hrd Hlong Hrun. unfold CNM.map_name in Hrun.
  apply bind_Done in Hrun as (key & Hkey%getitem_Done & Hrun).
  apply bind_Done in Hrun as ([short rc] & _ & Hrun).
  apply bind_Done in Hrun as ([name' tape1] & _ & Hrun).
  apply bind_Done in Hrun as (rd1 & Hpop & [= <- <- <-]).
  unfold Py.pop in Hpop. rewrite Hkey in Hpop. injection Hpop as <-.
  pose proof (Hrd _ _ Hkey) as Hin.
  assert (key ∈ d.*1) as Hkeyin.
  { apply list_elem_of_fmap. by exists (key, name). }
  assert (n < length key) as Hkeylong.
  { destruct (decide (length key ≤ n)) as [Hle|]; [|lia].
    pose proof (Hown _ _ Hin Hle). subst. lia. }
  split; [by apply dict_set_keys_present|]. split; [|split].
  - intros k v Hin' Hlen. apply dict_set_elem in Hin'; [|done].
    destruct Hin' as [[-> ->]|[_ Hin']]; [lia|by apply Hown].
  - intros v k. destruct (decide (v = name')) as [->|Hne].
    + rewrite lookup_insert_eq. intros [= <-]. apply dict_set_elem; [done|]. by left.
    + rewrite lookup_insert_ne by done.
      destruct (decide (v = name)) as [->|Hne2]; [by rewrite lookup_delete_eq|].
      rewrite lookup_delete_ne by done. intros Hv%Hrd.
      apply dict_set_elem; [done|]. right. split; [|done]. intros ->.
      apply Hne2. apply (dict_get_elem _ _ _ Hk) in Hin, Hv. congruence.
  - intros k v Hin'. apply dict_set_elem in Hin'; [|done].
    destruct Hin' as [[-> ->]|[_ Hin']]; [by right|by left].
Qed.

(** The loop over names that are over the bound, from any state in which
    the names are unique and those within the bound are their own column
    names. *)
Lemma map_names_own (fuel n : nat) (names : list str) rd d (tape : list nat)
    (st : gmap str str * list (str * str) * list nat) :
  NoDup d.*1 →
  (∀ k v, (k, v) ∈ d → length k ≤ n → v = k) →
  (∀ v k, rd !! v = Some k → (k, v) ∈ d) →
  Forall (fun v => n < length v) names →
  for_each (CNM.map_name fuel n) names (rd, d, tape) = Done st →
  st.1.2.*1 = d.*1
  ∧ (∀ k v, (k, v) ∈ st.1.2 → length k ≤ n → v = k)
  ∧ (∀ k v, (k, v) ∈ st.1.2 → (k, v) ∈ d ∨ n < length k).
Proof.
  intros Hk Hown Hrd Hnames Hloop.
  set (P := fun st : gmap str str * list (str * str) * list nat =>
              st.1.2.*1 = d.*1
              ∧ (∀ k v, (k, v) ∈ st.1.2 → length k ≤ n → v = k)
              ∧ (∀ v k, st.1.1 !! v = Some k → (k, v) ∈ st.1.2)
              ∧ (∀ k v, (k, v) ∈ st.1.2 → (k, v) ∈ d ∨ n < length k)).
  assert (P st) as (Hkeys & Hown' & _ & Hchanged); [|done].
  revert Hloop. apply (for_each_invariant P).
  - intros [[rd0 d0] tape0] name [[rd1 d1] tape1] Hname (Hk0 & Hown0 & Hrd0 & Hch0)
      Hstep.
    simpl in Hk0, Hown0, Hrd0, Hch0. rewrite Forall_forall in Hnames.
    destruct (map_name_own fuel n rd0 d0 tape0 name rd1 d1 tape1)
      as (Hk1 & Hown1 & Hrd1 & Hch1); try done.
    { by rewrite Hk0. }
    { by apply Hnames. }
    split; [simpl; congruence|]. split; [done|]. split; [done|].
    simpl. intros k v [Hin|Hlen]%Hch1; [by apply Hch0|by right].
  - split; [done|]. split; [done|]. split; [done|]. simpl. by left.
Qed.

(** Name mapping that returns, from such a state. *)
Lemma do_mapping_own (fuel : nat) (tape : list nat) (m m' : CNM.t)
    (tape' : list nat) :
  NoDup (CNM.keys m) →
  (∀ k v, (k, v) ∈ CNM.dictionary m → length k ≤ CNM.max_len m → v = k) →
  CNM.do_mapping fuel tape m = Done (m', tape') →
  CNM.keys m' = CNM.keys m ∧ CNM.max_len m' = CNM.max_len m
  ∧ CNM.mapped m' = CNM.mapped m
  ∧ (∀ k v, (k, v) ∈ CNM.dictionary m' → length k ≤ CNM.max_len m → v = k)
  ∧ (∀ k v, (k, v) ∈ CNM.dictionary m' →
            (k, v) ∈ CNM.dictionary m ∨ CNM.max_len m < length k).
Proof.
  intros Hk Hown Hrun. unfold CNM.do_mapping in Hrun.
  destruct (scan_items (CNM.max_len m) (CNM.dictionary m)) as [Hrd Hpn].
  destruct (CNM.scan (CNM.max_len m) (CNM.dictionary m)) as [rd pn].
  simpl in Hrd, Hpn.
  apply bind_Done in Hrun as ([[rd' d'] tape1] & Hloop & [= <- <-]).
  apply map_names_own in Hloop as (Hkeys & Hown' & Hchanged); try done.
Qed.

(** A name mapping that returns has left the state of its last name. *)
Lemma reachable_do_mapping (fuel : nat) (tape : list nat) (m m' : CNM.t)
    (tape' : list nat) :
  reachable m → CNM.do_mapping fuel tape m = Done (m', tape') → reachable m'.
Proof.
  intros Hm Hrun. unfold CNM.do_mapping in Hrun.
  destruct (CNM.scan (CNM.max_len m) (CNM.dictionary m)) as [rd pn] eqn:Hscan.
  apply bind_Done in Hrun as ([[rd' d'] tape1] & Hloop & [= <- <-]).
  apply (reachable_map_names fuel tape m pn (rd', d', tape1) Hm);
    rewrite Hscan; done.
Qed.

(** What holds in every state a mapping goes through. *)
Lemma reachable_own (m : CNM.t) :
  reachable m →
  CNM.mapped m = false ∧ NoDup (CNM.keys m)
  ∧ ∀ k v, (k, v) ∈ CNM.dictionary m → length k ≤ CNM.max_len m → v = k.
Proof.
  induction 1 as [n|name m _ (Hmapped & Hk & Hown)
                  |fuel tape m names st _ (Hmapped & Hk & Hown) Hnames Hloop].
  - split; [done|]. split; [apply NoDup_nil_2|].
    intros k v Hin. by apply elem_of_nil in Hin.
  - split; [done|]. split; [by apply dict_set_keys_NoDup|].
    intros k v Hin Hlen. apply dict_set_elem in Hin; [|done].
    destruct Hin as [[-> ->]|[_ Hin]]; [done|by apply Hown].
  - destruct (scan_items (CNM.max_len m) (CNM.dictionary m)) as [Hrd Hpn].
    destruct Hnames as [rest Hrest]. rewrite Hrest in Hpn.
    apply Forall_app in Hpn as [Hpn _].
    apply map_names_own in Hloop as (Hkeys & Hown' & _); try done.
    split; [done|]. unfold CNM.keys in *. simpl. split; [by rewrite Hkeys|done].
Qed.

(** Resolving a registered name within the bound is name mapping followed
    by the return of the name. *)
Lemma getitem_within_bound (fuel : nat) (tape : list nat) (m : CNM.t) (name : str) :
  reachable m → name ∈ CNM.keys m → length name ≤ CNM.max_len m →
  CNM.getitem fuel tape m name
  = ('(m', tape') ← CNM.do_mapping fuel tape m; Done (name, m', tape')).
Proof.
  intros (Hmapped & Hk & Hown)%reachable_own Hname Hlen.
  unfold CNM.getitem. rewrite Hmapped.
  destruct (CNM.do_mapping fuel tape m) as [[m' tape']| |] eqn:Hrun; [|done..].
  rewrite !bind_Done_l.
  destruct (do_mapping_own fuel tape m m' tape' Hk Hown Hrun)
    as (Hkeys & Hmax & _ & Hown' & _).
  assert (CNM.dict_get name (CNM.dictionary m') = Done name) as ->; [|done].
  unfold CNM.keys in *.
  destruct (dict_get_present name (CNM.dictionary m')) as [v Hv];
    [by rewrite Hkeys|].
  rewrite Hv. f_equal. apply Hown'; [|done].
  apply dict_get_elem; [by rewrite Hkeys|done].
Qed.

End EveryState.

(** C9 as stated fails: with 65 and 64 times [a] registered under the
    default bound, the second name is registered and within the bound, and
    no number of attempts and no sequence of random draws lets its
    resolution return. *)
Lemma within_bound_name_not_returned :
  reachable stuck_mapping
  ∧ a_run 64 ∈ CNM.keys stuck_mapping
  ∧ length (a_run 64) ≤ CNM.max_len stuck_mapping
  ∧ ¬ ∃ fuel tape r, CNM.getitem fuel tape stuck_mapping (a_run 64) = Done r.
Proof.
  split; [repeat constructor|]. split; [by_eval|]. split; [vm_compute; lia|].
  intros (fuel & tape & r & Hrun). unfold CNM.getitem in Hrun.
  change (CNM.mapped stuck_mapping) with false in Hrun.
  by rewrite do_mapping_stuck in Hrun.
Qed.

(** C9, amended: in every state a mapping goes through, whatever the order
    of [add] and of resolutions, resolving a registered name no longer than
    [max_len] is name mapping followed by the return of the name itself:
    whenever name mapping returns, so does the resolution, with the name
    unchanged.  Name mapping that returns keeps the registered names and
    changes the column name of no name within the bound, so the same holds
    for every later resolution; and when no registered name exceeds the
    bound it returns at once and changes nothing. *)
Theorem within_bound_name_unchanged (m : CNM.t) (name : str) :
  reachable m → name ∈ CNM.keys m → length name ≤ CNM.max_len m →
  (∀ fuel tape,
     CNM.getitem fuel tape m name
     = ('(m', tape') ← CNM.do_mapping fuel tape m; Done (name, m', tape')))
  ∧ (∀ fuel tape m' tape',
       CNM.do_mapping fuel tape m = Done (m', tape') →
       CNM.getitem fuel tape m name = Done (name, m', tape')
       ∧ reachable m' ∧ CNM.keys m' = CNM.keys m
       ∧ CNM.max_len m' = CNM.max_len m
       ∧ ∀ k v, (k, v) ∈ CNM.dictionary m' →
           (k, v) ∈ CNM.dictionary m ∨ CNM.max_len m < length k)
  ∧ (Forall (fun k => length k ≤ CNM.max_len m) (CNM.keys m) →
     ∀ fuel tape, CNM.getitem fuel tape m name = Done (name, m, tape)).
Proof.
  intros Hm Hname Hlen.
  pose proof (reachable_own m Hm) as (Hmapped & Hk & Hown).
  split; [intros fuel tape; by apply getitem_within_bound|]. split.
  - intros fuel tape m' tape' Hrun.
    split; [by rewrite getitem_within_bound, Hrun|].
    split; [by apply (reachable_do_mapping fuel tape m m' tape')|].
    destruct (do_mapping_own fuel tape m m' tape' Hk Hown Hrun)
      as (Hkeys & Hmax & _ & _ & Hchanged). done.
  - intros Hall fuel tape. rewrite getitem_within_bound by done.
    rewrite do_mapping_within_bound; [done|].
    apply Forall_forall. intros v ([k v'] & -> & Hin)%list_elem_of_fmap. simpl.
    rewrite Forall_forall in Hall.
    assert (length k ≤ CNM.max_len m) as Hklen.
    { apply Hall. apply list_elem_of_fmap. by exists (k, v'). }
    by rewrite (Hown k v' Hin Hklen).
Qed.

Lemma within_bound_name_unchanged_witness :
  let K := s "Nuclei_AreaShape_" ++ replicate 60 "x"%char in
  ∃ S m1 m2,
    CNM.do_mapping 0 [] (CNM.add K (CNM.init 64)) = Done (m1, [])
    ∧ CNM.dict_get K (CNM.dictionary m1) = Done S
    ∧ m2 = CNM.add (s "Image_Count_Nuclei") (CNM.add S m1)
    ∧ ¬ coherent m2
    ∧ reachable m2 ∧ S ∈ CNM.keys m2 ∧ length S ≤ CNM.max_len m2
    ∧ ∃ m3 tape3,
        CNM.do_mapping 0 [] m2 = Done (m3, tape3)
        ∧ CNM.getitem 0 [] m2 S = Done (S, m3, tape3)
        ∧ reachable m3.
Proof.
  intros K.
  eexists _, _, _. split; [vm_compute; reflexivity|].
  split; [vm_compute; reflexivity|]. split; [reflexivity|].
  match goal with |- ¬ coherent ?m ∧ _ => set (m2 := m) end.
  match goal with |- _ ∧ _ ∧ ?S ∈ _ ∧ _ => set (name := S) end.
  assert (reachable m2) as Hm2.
  { apply reachable_add, reachable_add.
    apply (reachable_do_mapping 0 [] (CNM.add K (CNM.init 64)) _ []);
      [apply reachable_add, reachable_init|vm_compute; reflexivity]. }
  assert (name ∈ CNM.keys m2) as Hin by by_eval.
  assert (length name ≤ CNM.max_len m2) as Hlen by (vm_compute; lia).
  split; [by_eval|]. split; [exact Hm2|]. split; [exact Hin|].
  split; [exact Hlen|].
  destruct (CNM.do_mapping 0 [] m2) as [[m3 tape3]| |] eqn:Hrun2;
    [|by vm_compute in Hrun2..].
  exists m3, tape3. split; [done|].
  destruct (proj1 (proj2 (within_bound_name_unchanged m2 name Hm2 Hin Hlen))
              0 [] m3 tape3 Hrun2) as (Hget & Hm3 & _).
  done.
Defined.

(** ** The registry built for a run *)

Section Registry.
Implicit Types mappings : CNM.t.

Lemma keys_add (x name : str) mappings :
  x ∈ CNM.keys (CNM.add name mappings) ↔ x = name ∨ x ∈ CNM.keys mappings.
Proof. apply dict_set_keys_elem. Qed.

Lemma keys_add_aggs (x object_name feature_name : str) (aggs : list str) mappings :
  x ∈ CNM.keys
        (fold_left
           (fun mappings agg_name =>
              CNM.add (fmt3 agg_name object_name feature_name) mappings)
           aggs mappings)
  ↔ (∃ a, a ∈ aggs ∧ x = fmt3 a object_name feature_name) ∨ x ∈ CNM.keys mappings.
Proof.
  revert mappings. induction aggs as [|a aggs IH]; intros mappings; simpl.
  - split; [by right|]. intros [(a & Ha & _)|Hx]; [|done].
    by apply elem_of_nil in Ha.
  - rewrite IH, keys_add. split.
    + intros [(b & Hb & ->)|[->|Hx]].
      * left. exists b. split; [by apply list_elem_of_further|done].
      * left. exists a. split; [apply list_elem_of_here|done].
      * by right.
    + intros [(b & Hb & ->)|Hx]; [|by right; right].
      apply elem_of_cons in Hb as [->|Hb]; [by right; left|].
      left. by exists b.
Qed.

Lemma fresh_add_aggs (object_name feature_name : str) (aggs : list str) mappings :
  fresh mappings →
  fresh (fold_left
           (fun mappings agg_name =>
              CNM.add (fmt3 agg_name object_name feature_name) mappings)
           aggs mappings).
Proof.
  revert mappings. induction aggs as [|a aggs IH]; intros mappings Hm; simpl;
    [done|]. by apply IH, fresh_add.
Qed.

Lemma register_feature_keeps (object_name feature_name x : str) mappings :
  x ∈ CNM.keys mappings → x ∈ CNM.keys (E2D.register_feature object_name mappings feature_name).
Proof.
  intros Hx. unfold E2D.register_feature.
  destruct (E2D.ignore_feature object_name feature_name); [done|].
  destruct (decide (object_name ≠ s "Image")).
  - apply keys_add_aggs. right. apply keys_add. by right.
  - apply keys_add. by right.
Qed.

Lemma register_feature_fresh (object_name feature_name : str) mappings :
  fresh mappings → fresh (E2D.register_feature object_name mappings feature_name).
Proof.
  intros Hm. unfold E2D.register_feature.
  destruct (E2D.ignore_feature object_name feature_name); [done|].
  destruct (decide (object_name ≠ s "Image")).
  - by apply fresh_add_aggs, fresh_add.
  - by apply fresh_add.
Qed.

Lemma features_keep (object_name x : str) (features : list str) mappings :
  x ∈ CNM.keys mappings →
  x ∈ CNM.keys (fold_left (E2D.register_feature object_name) features mappings).
Proof.
  revert mappings. induction features as [|f features IH]; intros mappings Hx;
    simpl; [done|]. by apply IH, register_feature_keeps.
Qed.

Lemma features_fresh (object_name : str) (features : list str) mappings :
  fresh mappings → fresh (fold_left (E2D.register_feature object_name) features mappings).
Proof.
  revert mappings. induction features as [|f features IH]; intros mappings Hm;
    simpl; [done|]. by apply IH, register_feature_fresh.
Qed.

Lemma features_register (object_name feature agg : str) (features : list str)
    mappings :
  feature ∈ features → E2D.ignore_feature object_name feature = false →
  object_name ≠ s "Image" → agg ∈ cpmeas.AGG_NAMES →
  fmt3 agg object_name feature
  ∈ CNM.keys (fold_left (E2D.register_feature object_name) features mappings).
Proof.
  revert mappings. induction features as [|f features IH];
    intros mappings Hf Hkeep Hob Hagg; [by apply elem_of_nil in Hf|].
  simpl. apply elem_of_cons in Hf as [<-|Hf]; [|by apply IH].
  apply features_keep. unfold E2D.register_feature.
  rewrite Hkeep, decide_True by done.
  apply keys_add_aggs. left. by exists agg.
Qed.

Lemma objects_keep (m : measurements) (x : str) (objects : list str) mappings :
  x ∈ CNM.keys mappings →
  x ∈ CNM.keys
        (fold_left
           (fun mappings object_name =>
              fold_left (E2D.register_feature object_name)
                (get_feature_names m object_name) mappings)
           objects mappings).
Proof.
  revert mappings. induction objects as [|o objects IH]; intros mappings Hx;
    simpl; [done|]. by apply IH, features_keep.
Qed.

Lemma objects_fresh (m : measurements) (objects : list str) mappings :
  fresh mappings →
  fresh (fold_left
           (fun mappings object_name =>
              fold_left (E2D.register_feature object_name)
                (get_feature_names m object_name) mappings)
           objects mappings).
Proof.
  revert mappings. induction objects as [|o objects IH]; intros mappings Hm;
    simpl; [done|]. by apply IH, features_fresh.
Qed.

Lemma get_column_name_mappings_fresh (self : E2D.t) (m : measurements) :
  fresh (E2D.get_column_name_mappings self m).
Proof. apply (objects_fresh m), fresh_init. Qed.

End Registry.

(** C10: whatever the settings of the aggregate kinds, the registry of a run
    holds the [Mean_], [Median_] and [StdDev_] variant of every retained
    feature of every object other than [Image]; the registry does not
    depend on the settings at all; and each of these names is a key of the
    reverse dictionary against which [do_mapping] tests shortened names. *)
Theorem aggregates_always_registered (self : E2D.t) (m : measurements)
    (object_name feature agg : str) :
  object_name ∈ get_object_names m →
  feature ∈ get_feature_names m object_name →
  E2D.ignore_feature object_name feature = false →
  object_name ≠ s "Image" →
  agg ∈ [s "Mean"; s "Median"; s "StdDev"] →
  let mappings := E2D.get_column_name_mappings self m in
  fmt3 agg object_name feature ∈ CNM.keys mappings
  ∧ (∀ self', E2D.get_column_name_mappings self' m = mappings)
  ∧ is_Some ((CNM.scan (CNM.max_len mappings) (CNM.dictionary mappings)).1
               !! fmt3 agg object_name feature).
Proof.
  intros Hob Hf Hkeep Hne Hagg mappings.
  assert (agg ∈ cpmeas.AGG_NAMES) as Hagg'.
  { unfold cpmeas.AGG_NAMES.
    repeat (apply elem_of_cons in Hagg as [->|Hagg]);
      [repeat constructor..|by apply elem_of_nil in Hagg]. }
  assert (fmt3 agg object_name feature ∈ CNM.keys mappings) as Hin.
  { unfold mappings, E2D.get_column_name_mappings.
    generalize (CNM.init CNM.default_max_len).
    induction (get_object_names m) as [|o objects IH]; intros acc;
      [by apply elem_of_nil in Hob|].
    simpl. apply elem_of_cons in Hob as [<-|Hob]; [|by apply IH].
    apply (objects_keep m). by apply features_register. }
  split; [done|]. split; [done|].
  pose proof (get_column_name_mappings_fresh self m) as Hfresh.
  fold mappings in Hfresh.
  destruct (scan_spec (CNM.max_len mappings) (CNM.dictionary mappings))
    as (rd & -> & Hrd); [apply fresh_coherent, Hfresh|].
  simpl. exists (fmt3 agg object_name feature). apply Hrd.
  apply list_elem_of_fmap in Hin as ([k v] & -> & Hin). simpl.
  destruct Hfresh as [_ Hid]. rewrite Forall_forall in Hid.
  by rewrite <- (Hid (k, v) Hin) at 2.
Qed.

(** ** Row assembly *)

Section Rows.
Context {A : Type}.
Implicit Types row : list A.
Implicit Types rows : list (list A).

Lemma setitem2_Done rows (i j : nat) (x : A) rows' :
  setitem2 rows i j x = Done rows' ↔
  ∃ row, rows !! i = Some row ∧ j < length row ∧ rows' = <[i := <[j:=x]> row]> rows.
Proof.
  unfold setitem2. rewrite bind_Done. split.
  - intros (row & Hrow%index_Done & Hset).
    apply bind_Done in Hset as (row' & [Hj ->]%setitem_Done & [_ ->]%setitem_Done).
    by exists row.
  - intros (row & Hrow & Hj & ->). exists row. split; [by apply index_Done|].
    apply bind_Done. exists (<[j:=x]> row). split; apply setitem_Done.
    + done.
    + split; [|done]. by apply lookup_lt_Some in Hrow.
Qed.

(** A step of a loop establishes a property of the state that the other
    steps keep. *)
Lemma for_each_establish {B S : Type} (P : S → Prop) (body : S → B → outcome S)
    (l : list B) (x : B) (acc acc' : S) :
  x ∈ l →
  (∀ st st', body st x = Done st' → P st') →
  (∀ st y st', y ∈ l → P st → body st y = Done st' → P st') →
  for_each body l acc = Done acc' → P acc'.
Proof.
  revert acc. induction l as [|y l IH]; intros acc Hx Hset Hkeep Hrun.
  - by apply elem_of_nil in Hx.
  - simpl in Hrun. apply bind_Done in Hrun as (st & Hst & Hrun).
    apply elem_of_cons in Hx as [<-|Hx].
    + eapply (for_each_invariant P); [|by eapply Hset|exact Hrun].
      intros st0 y st1 Hy. apply Hkeep. by apply list_elem_of_further.
    + eapply IH; [done|done| |exact Hrun].
      intros st0 z st1 Hz. apply Hkeep. by apply list_elem_of_further.
Qed.

(** Scattering values into column [c] of the first [k] rows. *)
Lemma scatter_column {B : Type} (f : B → A) (c k : nat) (values : list B) rows :
  k ≤ length rows → k ≤ length values → Forall (fun row => c < length row) rows →
  ∃ rows',
    for_each (fun rows i => v ← index values i; setitem2 rows i c (f v))
      (seq 0 k) rows = Done rows'
    ∧ length rows' = length rows
    ∧ ∀ i row, rows !! i = Some row →
        (i < k → ∃ v, values !! i = Some v ∧ rows' !! i = Some (<[c := f v]> row))
        ∧ (k ≤ i → rows' !! i = Some row).
Proof.
  intros Hrows Hvalues Hshape. induction k as [|k IH].
  - exists rows. split; [done|]. split; [done|]. intros i row Hi. split; [lia|done].
  - destruct IH as (rows1 & Hrun & Hlen & Hcells); [lia..|].
    destruct (lookup_lt_is_Some_2 rows k) as [row Hrow]; [lia|].
    destruct (lookup_lt_is_Some_2 values k) as [v Hv]; [lia|].
    exists (<[k := <[c := f v]> row]> rows1).
    rewrite seq_S, for_each_app, Hrun, bind_Done_l. simpl.
    split; [|split].
    + apply index_Done in Hv. rewrite Hv, bind_Done_l.
      apply bind_Done. exists (<[k := <[c := f v]> row]> rows1). split; [|done].
      apply setitem2_Done. exists row. split; [|split; [|done]].
      * by apply (Hcells k row Hrow).
      * rewrite Forall_forall in Hshape. apply Hshape.
        by eapply list_elem_of_lookup_2.
    + by rewrite length_insert.
    + intros i row' Hi. destruct (decide (i = k)) as [->|Hne].
      * split; [|lia]. intros _. exists v. split; [done|].
        rewrite list_lookup_insert_eq by lia. congruence.
      * rewrite list_lookup_insert_ne by done.
        destruct (Hcells i row' Hi) as [Hlt Hge]. split.
        -- intros Hik. apply Hlt. lia.
        -- intros Hik. apply Hge. lia.
Qed.

End Rows.

Lemma for_each_ext {A S : Type} (body1 body2 : S → A → outcome S) (l : list A)
    (acc : S) :
  (∀ st x, body1 st x = body2 st x) →
  for_each body1 l acc = for_each body2 l acc.
Proof.
  intros Hext. revert acc. induction l as [|x l IH]; intros acc; simpl; [done|].
  rewrite Hext. destruct (body2 acc x); simpl; [apply IH|done|done].
Qed.

Section Reconcile.
Implicit Types values : list spec_float.

Lemma zero_nonfinite_length values : length (zero_nonfinite values) = length values.
Proof. unfold zero_nonfinite. by rewrite length_fmap. Qed.

Lemma reconciled_length (max_count : nat) values :
  length (reconciled max_count values) = max_count.
Proof.
  unfold reconciled.
  rewrite length_take, length_app, length_replicate, zero_nonfinite_length. lia.
Qed.

Lemma reconciled_short (max_count : nat) values :
  length values < max_count →
  reconciled max_count values
  = zero_nonfinite values ++ replicate (max_count - length values) fzero.
Proof.
  intros Hn. unfold reconciled. apply take_ge.
  rewrite length_app, length_replicate, zero_nonfinite_length. lia.
Qed.

Lemma reconciled_long (max_count : nat) values :
  max_count ≤ length values →
  reconciled max_count values = take max_count (zero_nonfinite values).
Proof.
  intros Hn. unfold reconciled.
  replace (max_count - length values) with 0 by lia. simpl.
  by rewrite app_nil_r.
Qed.

(** The values and diagnostics after the comparison with [max_count] in
    [write_data_to_db]. *)
Lemma db_reconcile (max_count : nat) values (feature_name : str)
    (image_number : Z) (warnings : list E2D.warning) :
  let zeroed := zero_nonfinite values in
  let nvalues := length zeroed in
  (if decide (nvalues < max_count) then
     (zeroed ++ drop nvalues (replicate max_count fzero),
      warnings ++ [E2D.Warning E2D.TooFew feature_name image_number nvalues max_count])
   else if decide (max_count < nvalues) then
     (take max_count zeroed,
      warnings ++ [E2D.Warning E2D.TooMany feature_name image_number nvalues max_count])
   else (zeroed, warnings))
  = (reconciled max_count values,
     warnings ++ (if decide (length values = max_count) then []
                  else [mismatch feature_name image_number (length values) max_count])).
Proof.
  intros zeroed nvalues. unfold nvalues, zeroed, mismatch.
  rewrite zero_nonfinite_length.
  destruct (decide (length values < max_count)) as [Hlt|Hge].
  - rewrite decide_False by lia. rewrite reconciled_short by done.
    by rewrite drop_replicate.
  - destruct (decide (max_count < length values)) as [Hgt|Hle].
    + rewrite decide_False by lia. by rewrite reconciled_long by lia.
    + rewrite decide_True by lia. rewrite reconciled_long by lia.
      rewrite take_ge, app_nil_r; [done|]. rewrite zero_nonfinite_length. lia.
Qed.

Lemma column_lookup {A : Type} (c i : nat) (rows : list (list A)) :
  column c rows !! i = (fun row => row !! c) <$> rows !! i.
Proof. unfold column. apply list_lookup_fmap. Qed.

Lemma db_object_feature_spec (self : E2D.t) (m : measurements) (index : nat)
    (image_number : Z) (max_count width c : nat) (obname : str)
    (col : E2D.column_def) values (object_rows : list (list E2D.object_cell))
    (warnings : list E2D.warning) :
  get_measurement m obname col.1.2 index = Array values →
  E2D.object_col_order self !! fmt2 obname col.1.2 = Some c →
  c < width →
  length object_rows = max_count →
  Forall (fun row => length row = width) object_rows →
  ∃ object_rows',
    E2D.db_object_feature self m index image_number max_count obname
      (object_rows, warnings) col
    = Done (object_rows',
            warnings ++ (if decide (length values = max_count) then []
                         else [mismatch (fmt2 obname col.1.2) image_number
                                 (length values) max_count]))
    ∧ length object_rows' = max_count
    ∧ column c object_rows'
      = (fun v => Some (E2D.Cell (VFloat v) cpmeas.COLTYPE_FLOAT))
          <$> reconciled max_count values.
Proof.
  intros Hmeas Hc Hcw Hlen Hshape. unfold E2D.db_object_feature.
  rewrite Hmeas. cbn [E2D.as_array]. rewrite bind_Done_l, db_reconcile.
  destruct (scatter_column
              (fun v => E2D.Cell (VFloat v) cpmeas.COLTYPE_FLOAT) c max_count
              (reconciled max_count values) object_rows)
    as (rows' & Hrun & Hlen' & Hcells).
  { lia. }
  { by rewrite reconciled_length. }
  { eapply Forall_impl; [exact Hshape|]. simpl. intros row ->. done. }
  exists rows'. split; [|split].
  - erewrite for_each_ext; [rewrite Hrun; by rewrite bind_Done_l|].
    intros st i. unfold Py.getitem. by rewrite Hc, bind_Done_l.
  - lia.
  - apply list_eq. intros i. rewrite column_lookup, list_lookup_fmap.
    destruct (object_rows !! i) as [row|] eqn:Hrow.
    + pose proof (lookup_lt_Some _ _ _ Hrow) as Hi.
      destruct (Hcells i row Hrow) as [Hset _].
      destruct Hset as (v & Hv & ->); [lia|]. rewrite Hv. simpl.
      rewrite list_lookup_insert_eq; [done|].
      rewrite Forall_forall in Hshape.
      rewrite (Hshape row) by (by eapply list_elem_of_lookup_2). done.
    + apply lookup_ge_None in Hrow.
      rewrite (lookup_ge_None_2 rows') by lia.
      rewrite (lookup_ge_None_2 (reconciled max_count values));
        [done|rewrite reconciled_length; lia].
Qed.

(** The values and diagnostics after the comparison with [max_count] in
    [write_data]: nothing is appended. *)
Lemma csv_reconcile (max_count : nat) values (feature_name : str)
    (image_number : Z) (warnings : list E2D.warning) :
  let zeroed := zero_nonfinite values in
  let nvalues := length zeroed in
  (if decide (nvalues < max_count) then
     (zeroed,
      warnings ++ [E2D.Warning E2D.TooFew feature_name image_number nvalues max_count])
   else if decide (max_count < nvalues) then
     (take max_count zeroed,
      warnings ++ [E2D.Warning E2D.TooMany feature_name image_number nvalues max_count])
   else (zeroed, warnings))
  = (take max_count zeroed,
     warnings ++ (if decide (length values = max_count) then []
                  else [mismatch feature_name image_number (length values) max_count])).
Proof.
  intros zeroed nvalues. unfold nvalues, zeroed, mismatch.
  rewrite zero_nonfinite_length.
  destruct (decide (length values < max_count)) as [Hlt|Hge].
  - rewrite decide_False by lia.
    rewrite take_ge; [done|]. rewrite zero_nonfinite_length. lia.
  - destruct (decide (max_count < length values)) as [Hgt|Hle].
    + by rewrite decide_False by lia.
    + rewrite decide_True by lia. rewrite app_nil_r.
      rewrite take_ge; [done|]. rewrite zero_nonfinite_length. lia.
Qed.

Lemma csv_object_feature_spec (m : measurements) (per_object : gmap str nat)
    (i : nat) (image_number : Z) (max_count width c : nat)
    (object_name feature : str) values (object_rows : list (list spec_float))
    (warnings : list E2D.warning) :
  E2D.ignore_feature object_name feature = false →
  get_measurement m object_name feature i = Array values →
  per_object !! fmt2 object_name feature = Some c →
  c < width →
  length object_rows = max_count →
  Forall (fun row => length row = width) object_rows →
  column c object_rows = replicate max_count (Some fzero) →
  ∃ object_rows',
    E2D.csv_object_feature m per_object width i image_number max_count object_name
      (object_rows, warnings) feature
    = Done (object_rows',
            warnings ++ (if decide (length values = max_count) then []
                         else [mismatch (fmt2 object_name feature) image_number
                                 (length values) max_count]))
    ∧ length object_rows' = max_count
    ∧ column c object_rows' = Some <$> reconciled max_count values.
Proof.
  intros Hkeep Hmeas Hc Hcw Hlen Hshape Hzero. unfold E2D.csv_object_feature.
  rewrite Hkeep, Hmeas. cbn [E2D.as_array]. rewrite bind_Done_l, csv_reconcile.
  unfold Py.getitem. rewrite Hc, bind_Done_l. unfold setcolumn.
  rewrite zero_nonfinite_length, Hlen.
  set (k := length values `min` max_count).
  assert (length (take max_count (zero_nonfinite values)) = k) as Hk.
  { rewrite length_take, zero_nonfinite_length. unfold k. lia. }
  rewrite (decide_True (P := c < width)) by done.
  rewrite (decide_True (P := _ = k)) by done.
  destruct (scatter_column (fun v : spec_float => v) c k
              (take max_count (zero_nonfinite values)) object_rows)
    as (rows' & Hrun & Hlen' & Hcells).
  { unfold k. lia. }
  { lia. }
  { eapply Forall_impl; [exact Hshape|]. simpl. intros row ->. done. }
  exists rows'. rewrite Hrun, bind_Done_l. split; [done|]. split; [lia|].
  apply list_eq. intros j. rewrite column_lookup, list_lookup_fmap.
  destruct (object_rows !! j) as [row|] eqn:Hrow.
  - pose proof (lookup_lt_Some _ _ _ Hrow) as Hj.
    destruct (Hcells j row Hrow) as [Hset Hrest].
    destruct (decide (j < k)) as [Hjk|Hjk].
    + destruct Hset as (v & Hv & ->); [done|]. simpl.
      rewrite list_lookup_insert_eq.
      2:{ rewrite Forall_forall in Hshape.
          rewrite (Hshape row) by (by eapply list_elem_of_lookup_2). done. }
      unfold reconciled. rewrite lookup_take_lt by (unfold k in Hjk; lia).
      rewrite lookup_app_l by (rewrite zero_nonfinite_length; unfold k in Hjk; lia).
      rewrite lookup_take_lt in Hv by (unfold k in Hjk; lia). by rewrite Hv.
    + rewrite Hrest by lia. simpl.
      assert (column c object_rows !! j = Some (Some fzero)) as Hcol.
      { rewrite Hzero. apply lookup_replicate_2. lia. }
      rewrite column_lookup, Hrow in Hcol. simpl in Hcol. injection Hcol as ->.
      unfold reconciled. rewrite lookup_take_lt by lia.
      rewrite lookup_app_r by (rewrite zero_nonfinite_length; unfold k in Hjk; lia).
      rewrite zero_nonfinite_length.
      rewrite lookup_replicate_2 by (unfold k in Hjk; lia). done.
  - apply lookup_ge_None in Hrow.
    rewrite (lookup_ge_None_2 rows') by lia.
    rewrite (lookup_ge_None_2 (reconciled max_count values));
      [done|rewrite reconciled_length; lia].
Qed.

End Reconcile.

Section ZeroObjects.

(** Assignments to a row keep what an earlier assignment of a value with
    property [Q] has put in cell [c]. *)
Lemma setitem_keeps {A : Type} (Q : A → Prop) (c c' : nat) (x : A)
    (row row' : list A) :
  Q x → setitem row c' x = Done row' →
  (∃ y, row !! c = Some y ∧ Q y) → ∃ y, row' !! c = Some y ∧ Q y.
Proof.
  intros Hx [Hc' ->]%setitem_Done (y & Hy & HQ).
  destruct (decide (c' = c)) as [->|Hne].
  - exists x. by rewrite list_lookup_insert_eq.
  - exists y. by rewrite list_lookup_insert_ne.
Qed.

Lemma setitem_sets {A : Type} (c : nat) (x : A) (row row' : list A) :
  setitem row c x = Done row' → row' !! c = Some x.
Proof. intros [Hc ->]%setitem_Done. by rewrite list_lookup_insert_eq. Qed.

Lemma db_zero_aggregates_cell (self : E2D.t) (row row' : list E2D.image_cell)
    (obname : str) (cols : list E2D.column_def) (col : E2D.column_def)
    (agg : str) (c : nat) :
  E2D.db_zero_aggregates self row = Done row' →
  E2D.col_dict self !! obname = Some cols → obname ≠ cpmeas.IMAGE →
  col ∈ cols → agg ∈ E2D.agg_names self →
  E2D.image_col_order self !! fmt3 agg obname col.1.2 = Some c →
  ∃ cell, row' !! c = Some cell ∧ db_zero cell.
Proof.
  intros Hrun Hcols Hob Hcol Hagg Hc. unfold E2D.db_zero_aggregates in Hrun.
  set (P := fun r : list E2D.image_cell => ∃ cell, r !! c = Some cell ∧ db_zero cell).
  assert (∀ ob co (a : str) (st st' : list E2D.image_cell),
            P st →
            match E2D.image_col_order self !! fmt3 a ob co with
            | Some c' => setitem st c' (Some (VInt 0, cpmeas.COLTYPE_FLOAT, fmt3 a ob co))
            | None => Done st
            end = Done st' → P st') as Hkeep.
  { intros ob co a st st' HP Hstep.
    destruct (E2D.image_col_order self !! fmt3 a ob co) as [c'|].
    - eapply (setitem_keeps db_zero); [by eexists|exact Hstep|exact HP].
    - by injection Hstep as <-. }
  eapply (for_each_establish P _ _ (obname, cols)); [|..|exact Hrun].
  - by apply elem_of_map_to_list.
  - intros st st'. cbv beta iota. rewrite decide_False by done.
    apply (for_each_establish P _ _ col); [done|..].
    + intros st1 st1'. cbv beta iota.
      apply (for_each_establish P _ _ agg); [done|..].
      * intros st2 st2'. cbv beta iota. rewrite Hc. intros Hset%setitem_sets.
        eexists. split; [done|]. by eexists.
      * intros st2 a st2' _. apply Hkeep.
    + intros st1 co st1' _ HP.
      apply (for_each_invariant P); [|done].
      intros st2 a st2' _. apply Hkeep.
  - intros st [ob cs] st' _ HP. cbv beta iota.
    destruct (decide (ob = cpmeas.IMAGE)); [by intros [= <-]|].
    apply (for_each_invariant P); [|done].
    intros st1 co st1' _ HP1.
    apply (for_each_invariant P); [|done].
    intros st2 a st2' _. apply Hkeep.
Qed.

Lemma csv_zero_aggregates_cell (self : E2D.t) (m : measurements)
    (per_image : gmap str nat) (row row' : list scalar)
    (object_name feature agg : str) :
  E2D.csv_zero_aggregates self m per_image row = Done row' →
  object_name ∈ get_object_names m → object_name ≠ s "Image" →
  feature ∈ get_feature_names m object_name →
  E2D.ignore_feature object_name feature = false →
  agg ∈ E2D.agg_names self →
  ∃ c, per_image !! fmt3 agg object_name feature = Some c
       ∧ row' !! c = Some (VInt 0).
Proof.
  intros Hrun Hob Hne Hf Hkeep Hagg. unfold E2D.csv_zero_aggregates in Hrun.
  set (P := fun r : list scalar =>
              ∃ c, per_image !! fmt3 agg object_name feature = Some c
                   ∧ r !! c = Some (VInt 0)).
  assert (∀ name (st st' : list scalar),
            P st →
            (c ← Py.getitem per_image name; setitem st c (VInt 0)) = Done st' →
            P st') as Hstay.
  { intros name st st' (c & Hc & Hcell) Hstep.
    apply bind_Done in Hstep as (c' & _ & Hset).
    exists c. split; [done|].
    destruct (setitem_keeps (fun v => v = VInt 0) c c' (VInt 0) st st')
      as (y & Hy & ->); [done|done|by eexists|done]. }
  eapply (for_each_establish P _ _ object_name); [done|..|exact Hrun].
  - intros st st'. cbv beta iota. rewrite decide_False by done.
    apply (for_each_establish P _ _ feature); [done|..].
    + intros st1 st1'. cbv beta iota. rewrite Hkeep.
      apply (for_each_establish P _ _ agg); [done|..].
      * intros st2 st2' Hstep. apply bind_Done in Hstep as (c & Hc%getitem_Done & Hset).
        exists c. split; [done|]. by eapply setitem_sets.
      * intros st2 a st2' _. apply Hstay.
    + intros st1 f st1' _ HP. cbv beta iota.
      destruct (E2D.ignore_feature object_name f); [by intros [= <-]|].
      apply (for_each_invariant P); [|done].
      intros st2 a st2' _. apply Hstay.
  - intros st ob st' _ HP. cbv beta iota.
    destruct (decide (ob = s "Image")); [by intros [= <-]|].
    apply (for_each_invariant P); [|done].
    intros st1 f st1' _ HP1. cbv beta iota.
    destruct (E2D.ignore_feature ob f); [by intros [= <-]|].
    apply (for_each_invariant P); [|done].
    intros st2 a st2' _. apply Hstay.
Qed.

End ZeroObjects.

(** C2: when [max_count] is 0, each path on its own produces no object row
    and leaves 0 in every aggregate column of the image row.  A call of
    [write_data_to_db] that returns with a count of 0 has no object row and
    hands nothing to [executemany]; the cell of every selected aggregate of
    every column of [col_dict] outside [Image] that has a place in
    [image_col_order] is the tuple of the value 0 and the float type, which
    covers every aggregate column that [create_database_tables] has put
    into the image table.  An image set of [write_data] that is written
    with a count of 0 has no object row, and the cell of every selected
    aggregate of every retained feature of every object other than [Image]
    is 0. *)
Theorem no_objects_zero_aggregates (escape_string : str → str)
    (float_str : spec_float → str) (self : E2D.t) (m : measurements) :
  (∀ rdb,
     E2D.write_data_to_db escape_string float_str self m = Done rdb →
     E2D.db_max_count rdb = 0%Z →
     E2D.db_object_rows rdb = [] ∧ E2D.db_executemany rdb = []
     ∧ (∀ obname cols col agg c,
          E2D.col_dict self !! obname = Some cols → obname ≠ cpmeas.IMAGE →
          col ∈ cols → agg ∈ E2D.agg_names self →
          E2D.image_col_order self !! fmt3 agg obname col.1.2 = Some c →
          ∃ name, E2D.db_image_row rdb !! c
                  = Some (Some (VInt 0, cpmeas.COLTYPE_FLOAT, name)))
     ∧ (∀ settings column_defs cd agg,
          self = E2D.self_after (E2D.create_database_tables settings column_defs) →
          cd ∈ retained_object_pairs column_defs → agg ∈ E2D.agg_names settings →
          ∃ c name,
            E2D.image_col_order self !! fmt3 agg cd.1.1 cd.1.2 = Some c
            ∧ E2D.db_image_row rdb !! c
              = Some (Some (VInt 0, cpmeas.COLTYPE_FLOAT, name))))
  ∧ (∀ per_image per_object per_image_cols per_object_cols i rcsv,
       E2D.csv_image_set escape_string self m per_image per_object per_image_cols
         per_object_cols i = Done rcsv →
       E2D.csv_max_count rcsv = 0%Z →
       E2D.csv_object_rows rcsv = []
       ∧ ∀ object_name feature agg,
           object_name ∈ get_object_names m → object_name ≠ s "Image" →
           feature ∈ get_feature_names m object_name →
           E2D.ignore_feature object_name feature = false →
           agg ∈ E2D.agg_names self →
           ∃ c, per_image !! fmt3 agg object_name feature = Some c
                ∧ E2D.csv_image_row rcsv !! c = Some (VInt 0)).
Proof.
  split.
  - intros rdb Hdb Hdb0.
    assert (E2D.db_object_rows rdb = [] ∧ E2D.db_executemany rdb = []
            ∧ ∀ obname cols col agg c,
                E2D.col_dict self !! obname = Some cols → obname ≠ cpmeas.IMAGE →
                col ∈ cols → agg ∈ E2D.agg_names self →
                E2D.image_col_order self !! fmt3 agg obname col.1.2 = Some c →
                ∃ name, E2D.db_image_row rdb !! c
                        = Some (Some (VInt 0, cpmeas.COLTYPE_FLOAT, name)))
      as (Hrows & Hexec & Hcells).
    { unfold E2D.write_data_to_db in Hdb.
      apply bind_Done in Hdb as (row0 & _ & Hdb).
      apply bind_Done in Hdb as ([row1 max_count] & _ & Hdb).
      apply bind_Done in Hdb as (object_cols & _ & Hdb).
      apply bind_Done in Hdb as ([[row2 object_rows] warnings] & Hrows & Hdb).
      apply bind_Done in Hdb as (cells & _ & Hdb).
      apply bind_Done in Hdb as (names & _ & Hdb).
      apply bind_Done in Hdb as (executemany & Hexec & Hdb).
      injection Hdb as <-. simpl in Hdb0. subst max_count.
      unfold E2D.db_rows in Hrows. rewrite decide_True in Hrows by done.
      apply bind_Done in Hrows as (row3 & Hzero & [= <- <- <-]).
      simpl. split; [done|]. split; [by injection Hexec as <-|].
      intros obname cols col agg c Hcols Hob Hcol Hagg Hc.
      destruct (db_zero_aggregates_cell self row1 row3 obname cols col agg c)
        as (cell & Hcell & name & ->); [done..|].
      by exists name. }
    split; [done|]. split; [done|]. split; [done|].
    intros settings column_defs cd agg Hself Hcd Hagg.
    destruct (schema_aggregate_columns settings column_defs cd agg Hcd Hagg)
      as (Haggs & (cols & Hcols & Hin) & [c Hc]).
    rewrite <- Hself in Haggs, Hcols, Hc.
    destruct (Hcells cd.1.1 cols cd agg c) as [name Hcell]; try done.
    + by apply list_elem_of_filter in Hcd as [[? _] _].
    + by rewrite Haggs.
    + by exists c, name.
  - intros per_image per_object per_image_cols per_object_cols i rcsv Hcsv Hcsv0.
    unfold E2D.csv_image_set in Hcsv.
    apply bind_Done in Hcsv as (c0 & _ & Hcsv).
    apply bind_Done in Hcsv as (row0 & _ & Hcsv).
    apply bind_Done in Hcsv as ([row1 max_count] & _ & Hcsv).
    destruct (decide (max_count = 0%Z)) as [->|Hne].
    + apply bind_Done in Hcsv as (row2 & Hzero & [= <-]).
      simpl. split; [done|].
      intros object_name feature agg Hob Hne Hf Hkeep Hagg.
      by eapply csv_zero_aggregates_cell.
    + exfalso.
      apply bind_Done in Hcsv as (row2 & _ & Hcsv).
      apply bind_Done in Hcsv as (c1 & _ & Hcsv).
      apply bind_Done in Hcsv as (rows1 & _ & Hcsv).
      apply bind_Done in Hcsv as (c2 & _ & Hcsv).
      apply bind_Done in Hcsv as (rows2 & _ & Hcsv).
      apply bind_Done in Hcsv as ([rows3 warnings] & _ & [= <-]).
      done.
Qed.

Lemma no_objects_zero_aggregates_witness :
  let m := sample_source (VInt 0) (VFloat (float_of_Z 3)) [] in
  let unknown := sample_source (VFloat S754_nan) (VFloat (float_of_Z 3)) [] in
  (∃ rdb,
     E2D.write_data_to_db sample_escape_string sample_float_str sample_self m
     = Done rdb
     ∧ E2D.db_max_count rdb = 0%Z
     ∧ E2D.db_object_rows rdb = [] ∧ E2D.db_executemany rdb = []
     ∧ ∃ c name,
         E2D.image_col_order sample_self !! s "Mean_Nuclei_AreaShape_Area" = Some c
         ∧ E2D.db_image_row rdb !! c
           = Some (Some (VInt 0, cpmeas.COLTYPE_FLOAT, name)))
  ∧ (∃ rdb,
       E2D.write_data_to_db sample_escape_string sample_float_str sample_self
         unknown = Done rdb
       ∧ E2D.db_max_count rdb = 0%Z
       ∧ E2D.db_object_rows rdb = [] ∧ E2D.db_executemany rdb = [])
  ∧ (∃ rcsv,
       E2D.csv_image_set sample_escape_string sample_self m sample_per_image
         sample_per_object 4 3 0 = Done rcsv
       ∧ E2D.csv_max_count rcsv = 0%Z
       ∧ E2D.csv_object_rows rcsv = []
       ∧ ∃ c, sample_per_image !! s "Mean_Nuclei_AreaShape_Area" = Some c
              ∧ E2D.csv_image_row rcsv !! c = Some (VInt 0)).
Proof.
  intros m unknown. split; [|split].
  - destruct (E2D.write_data_to_db sample_escape_string sample_float_str
                sample_self m) as [rdb| |] eqn:Hdb; [|by vm_compute in Hdb..].
    assert (E2D.db_max_count rdb = 0%Z) as Hdb0.
    { vm_compute in Hdb. by injection Hdb as <-. }
    destruct (proj1 (no_objects_zero_aggregates sample_escape_string
                       sample_float_str sample_self m) rdb Hdb Hdb0)
      as (Hrows & Hexec & _ & Hschema).
    exists rdb. split; [reflexivity|]. split; [exact Hdb0|].
    split; [exact Hrows|]. split; [exact Hexec|].
    apply (Hschema sample_settings sample_catalog
             (s "Nuclei", s "AreaShape_Area", s "float") (s "Mean"));
      [reflexivity|by_eval|by_eval].
  - destruct (E2D.write_data_to_db sample_escape_string sample_float_str
                sample_self unknown) as [rdb| |] eqn:Hdb;
      [|by vm_compute in Hdb..].
    assert (E2D.db_max_count rdb = 0%Z) as Hdb0.
    { vm_compute in Hdb. by injection Hdb as <-. }
    destruct (proj1 (no_objects_zero_aggregates sample_escape_string
                       sample_float_str sample_self unknown) rdb Hdb Hdb0)
      as (Hrows & Hexec & _).
    exists rdb. split; [reflexivity|]. split; [exact Hdb0|].
    split; [exact Hrows|exact Hexec].
  - destruct (E2D.csv_image_set sample_escape_string sample_self m
                sample_per_image sample_per_object 4 3 0) as [rcsv| |] eqn:Hcsv;
      [|by vm_compute in Hcsv..].
    assert (E2D.csv_max_count rcsv = 0%Z) as Hcsv0.
    { vm_compute in Hcsv. by injection Hcsv as <-. }
    destruct (proj2 (no_objects_zero_aggregates sample_escape_string
                       sample_float_str sample_self m) sample_per_image
                sample_per_object 4 3 0 rcsv Hcsv Hcsv0) as (Hcrows & Hccells).
    exists rcsv. split; [reflexivity|]. split; [exact Hcsv0|].
    split; [exact Hcrows|].
    apply (Hccells (s "Nuclei") (s "AreaShape_Area") (s "Mean"));
      [by_eval|by_eval|by_eval|reflexivity|by_eval].
Defined.

Section NonFinite.
Variable escape_string : str → str.

(** [write_data_to_db] stores 0 for a non-finite Image value. *)
Lemma db_image_feature_coerces (self : E2D.t) (m : measurements) (index : nat)
    (row : list E2D.image_cell) (max_count : Z) (m_col : E2D.column_def)
    (f : spec_float) (c : nat) :
  E2D.first_value (get_measurement m cpmeas.IMAGE m_col.1.2 index)
  = Done (VFloat f) →
  isfinite f = false →
  E2D.image_col_order self !! fmt2 cpmeas.IMAGE m_col.1.2 = Some c →
  c < length row →
  ∃ max_count',
    E2D.db_image_feature self m index (row, max_count) m_col
    = Done (<[c := Some (VInt 0, m_col.2, fmt2 cpmeas.IMAGE m_col.1.2)]> row,
            max_count').
Proof.
  intros Hvalue Hf Hc Hlen. unfold E2D.db_image_feature.
  rewrite Hvalue, bind_Done_l, Hf, Hc.
  unfold setitem. rewrite decide_True by done. rewrite bind_Done_l.
  destruct (contains _ _); by eexists.
Qed.

(** [write_data] stores a non-finite Image value as it is. *)
Lemma csv_image_feature_keeps (m : measurements) (per_image : gmap str nat)
    (i : nat) (row : list scalar) (max_count : Z) (feature : str)
    (f : spec_float) (c : nat) :
  E2D.ignore_feature (s "Image") feature = false →
  E2D.first_value (get_measurement m (s "Image") feature i) = Done (VFloat f) →
  per_image !! fmt2 (s "Image") feature = Some c →
  c < length row →
  contains (fmt2 (s "Image") feature) (s "Count") = false →
  E2D.csv_image_feature escape_string m per_image i (row, max_count) feature
  = Done (<[c := VFloat f]> row, max_count).
Proof.
  intros Hkeep Hvalue Hc Hlen Hcount. unfold E2D.csv_image_feature.
  rewrite Hkeep, Hvalue, bind_Done_l. unfold Py.getitem. rewrite Hc, bind_Done_l.
  unfold setitem. rewrite decide_True by done. by rewrite bind_Done_l, Hcount.
Qed.

End NonFinite.

(** C6: for the Image feature [Intensity_Mean] with the value NaN, the
    relational path stores 0 in the image row, and the file path stores the
    NaN itself; neither emits a diagnostic. *)
Theorem nonfinite_image_value_kept_in_file (escape_string : str → str)
    (float_str : spec_float → str) :
  let m := sample_source (VInt 0) (VFloat S754_nan) [] in
  (∃ rdb,
     E2D.write_data_to_db escape_string float_str sample_self m = Done rdb
     ∧ E2D.db_image_row rdb !! 2
       = Some (Some (VInt 0, s "float", s "Image_Intensity_Mean"))
     ∧ E2D.db_warnings rdb = [])
  ∧ (∃ rcsv,
       E2D.csv_image_set escape_string sample_self m sample_per_image
         sample_per_object 4 3 0 = Done rcsv
       ∧ sample_per_image !! s "Image_Intensity_Mean" = Some 2
       ∧ E2D.csv_image_row rcsv !! 2 = Some (VFloat S754_nan)
       ∧ E2D.csv_warnings rcsv = []).
Proof.
  intros m. split.
  - eexists. split; [vm_compute; reflexivity|]. split; reflexivity.
  - eexists. split; [vm_compute; reflexivity|]. split; [|split]; reflexivity.
Qed.

(** ** The delimited files *)

Section Quoting.
Variable escape_string : str → str.
Variable float_str : spec_float → str.

Lemma plain_unquoted (x : str) (quote_empty : bool) :
  plain x →
  existsb (fun c => bool_decide (c ∈ E2D.csv_special)) x
  || (quote_empty && bool_decide (x = [])) = false.
Proof.
  intros [Hne Hplain]. rewrite (bool_decide_eq_false_2 (x = [])) by done.
  rewrite andb_false_r, orb_false_r.
  induction Hplain as [|c x Hc _ IH]; [done|]. simpl.
  rewrite bool_decide_eq_false_2 by done. simpl.
  destruct x; [done|]. by apply IH.
Qed.

Lemma not_special (c : ascii) :
  bool_decide (c ∈ E2D.csv_special) = false → c ∉ E2D.csv_special.
Proof. apply bool_decide_eq_false_1. Qed.

Lemma plain_digits (d : Decimal.uint) :
  Forall (fun c => c ∉ E2D.csv_special)
    (list_ascii_of_string (NilEmpty.string_of_uint d)).
Proof.
  induction d; simpl; constructor; try done; by apply not_special.
Qed.

Lemma plain_str_of_Z (z : Z) : plain (str_of_Z z).
Proof.
  unfold str_of_Z, NilZero.string_of_int, NilZero.string_of_uint.
  assert (plain (s "0")) as Hzero.
  { split; [done|]. constructor; [by apply not_special|constructor]. }
  destruct (Z.to_int z) as [d|d].
  - destruct d; try exact Hzero; (split; [done|apply plain_digits]).
  - split; [done|]. simpl. constructor; [by apply not_special|].
    destruct d; try apply Hzero; apply plain_digits.
Qed.

(** What [QUOTE_NONNUMERIC] does to a field. *)
Lemma nonnumeric_quoted (quote_empty : bool) (v : scalar) :
  (∀ f, plain (float_str f)) →
  E2D.cf_quoted (E2D.writefield float_str E2D.QUOTE_NONNUMERIC quote_empty v)
  = negb (E2D.is_number v).
Proof.
  intros Hfloat. unfold E2D.writefield. destruct v as [|z|f|x]; simpl; try done.
  - by apply plain_unquoted, plain_str_of_Z.
  - by apply plain_unquoted, Hfloat.
Qed.

(** What the default quoting does to a double. *)
Lemma minimal_float_unquoted (quote_empty : bool) (f : spec_float) :
  (∀ f, plain (float_str f)) →
  E2D.cf_quoted (E2D.writefield float_str E2D.QUOTE_MINIMAL quote_empty (VFloat f))
  = false.
Proof. intros Hfloat. simpl. by apply plain_unquoted, Hfloat. Qed.

(** The lines of the two files come from the two writers. *)
Lemma write_data_lines (self : E2D.t) (m : measurements)
    (per_image per_object : gmap str nat) (files : E2D.csv_files) :
  E2D.write_data escape_string float_str self m per_image per_object = Done files →
  Forall (fun line => ∃ row, line = E2D.writerow float_str E2D.QUOTE_NONNUMERIC row)
    (E2D.per_image_file files)
  ∧ Forall (fun line => ∃ row : list spec_float,
              line = E2D.writerow float_str E2D.QUOTE_MINIMAL (VFloat <$> row))
      (E2D.per_object_file files).
Proof.
  unfold E2D.write_data. intros Hrun.
  apply bind_Done in Hrun as (ic & _ & Hrun).
  apply bind_Done in Hrun as (oc & _ & Hrun).
  set (P := fun files : E2D.csv_files =>
              Forall (fun line => ∃ row,
                        line = E2D.writerow float_str E2D.QUOTE_NONNUMERIC row)
                (E2D.per_image_file files)
              ∧ Forall (fun line => ∃ row : list spec_float,
                          line = E2D.writerow float_str E2D.QUOTE_MINIMAL
                                   (VFloat <$> row))
                  (E2D.per_object_file files)).
  change (P files). eapply (for_each_invariant P); [| |exact Hrun].
  - intros st i st' _ [Himage Hobject] Hstep.
    apply bind_Done in Hstep as (r & _ & [= <-]). simpl. split.
    + apply Forall_app. split; [done|]. apply Forall_singleton. by eexists.
    + apply Forall_app. split; [done|]. apply Forall_fmap, Forall_true.
      intros row. simpl. by eexists.
  - by split.
Qed.

End Quoting.

(** C8 as stated fails: in the image file of the sample run the image
    number, a numeric field, is written without quotes. *)
Lemma image_number_not_quoted :
  ∃ files,
    E2D.write_data sample_escape_string sample_float_str sample_self
      (sample_source (VInt 0) (VStr (s "dim")) []) sample_per_image
      sample_per_object = Done files
    ∧ E2D.per_image_file files
      = [[E2D.CsvField (s "1") false; E2D.CsvField (s "0") false;
          E2D.CsvField (s "dim") true; E2D.CsvField (s "0") false]].
Proof. eexists. split; [vm_compute; reflexivity|reflexivity]. Qed.

(** C8, amended: when the text of a double is not empty and holds no
    delimiter, quote or line-end character, every line of the image file is written with
    [QUOTE_NONNUMERIC], under which a field is quoted exactly when it is
    not a number (text and [None] are quoted, integers and doubles are
    not), and every line of the object file is a row of doubles written
    with the default quoting, under which none of its fields is quoted. *)
Theorem file_quoting_policies (escape_string : str → str)
    (float_str : spec_float → str) (self : E2D.t) (m : measurements)
    (per_image per_object : gmap str nat) (files : E2D.csv_files) :
  (∀ f, plain (float_str f)) →
  E2D.write_data escape_string float_str self m per_image per_object = Done files →
  (∀ line, line ∈ E2D.per_image_file files →
     ∃ row, line = E2D.writerow float_str E2D.QUOTE_NONNUMERIC row
            ∧ E2D.cf_quoted <$> line = (fun v => negb (E2D.is_number v)) <$> row)
  ∧ (∀ line, line ∈ E2D.per_object_file files →
       (∃ row : list spec_float,
          line = E2D.writerow float_str E2D.QUOTE_MINIMAL (VFloat <$> row))
       ∧ Forall (fun field => E2D.cf_quoted field = false) line).
Proof.
  intros Hfloat Hrun.
  destruct (write_data_lines escape_string float_str self m per_image per_object
              files Hrun) as [Himage Hobject].
  rewrite Forall_forall in Himage. rewrite Forall_forall in Hobject. split.
  - intros line [row ->]%Himage. exists row. split; [done|].
    unfold E2D.writerow. rewrite <- list_fmap_compose.
    apply list_fmap_ext. intros _ v _. simpl. by apply nonnumeric_quoted.
  - intros line [row ->]%Hobject. split; [by exists row|].
    unfold E2D.writerow. apply Forall_fmap, Forall_fmap, Forall_true.
    intros f. by apply minimal_float_unquoted.
Qed.

Lemma plain_sample_float_str (f : spec_float) : plain (sample_float_str f).
Proof.
  assert (∀ x y : str, plain x → Forall (fun c => c ∉ E2D.csv_special) y →
            plain (x ++ y)) as Happ.
  { intros x y [Hne Hx] Hy. split; [by destruct x|]. by apply Forall_app. }
  assert (∀ x y : str, Forall (fun c => c ∉ E2D.csv_special) x → plain y →
            plain (x ++ y)) as Hpre.
  { intros x y Hx [Hne Hy]. split; [by destruct x, y|]. by apply Forall_app. }
  assert (∀ x : str, bool_decide (Forall (fun c => c ∉ E2D.csv_special) x) = true →
            Forall (fun c => c ∉ E2D.csv_special) x) as Hev.
  { intros x. apply bool_decide_eq_true_1. }
  destruct f as [sg|sg| |sg mant e]; simpl.
  - apply Hpre; [by destruct sg; apply Hev|]. split; [done|by apply Hev].
  - apply Hpre; [by destruct sg; apply Hev|]. split; [done|by apply Hev].
  - split; [done|by apply Hev].
  - apply Hpre; [by destruct sg; apply Hev|].
    apply Happ; [apply plain_str_of_Z|].
    constructor; [by apply not_special|exact (proj2 (plain_str_of_Z e))].
Qed.

Lemma file_quoting_policies_witness :
  ∃ files,
    E2D.write_data sample_escape_string sample_float_str sample_self
      (sample_source (VInt 2) (VStr (s "dim")) [float_of_Z 1; float_of_Z 3])
      sample_per_image sample_per_object = Done files
    ∧ (∀ line, line ∈ E2D.per_image_file files →
         ∃ row, line = E2D.writerow sample_float_str E2D.QUOTE_NONNUMERIC row
                ∧ E2D.cf_quoted <$> line
                  = (fun v => negb (E2D.is_number v)) <$> row)
    ∧ (∀ line, line ∈ E2D.per_object_file files →
         (∃ row : list spec_float,
            line = E2D.writerow sample_float_str E2D.QUOTE_MINIMAL (VFloat <$> row))
         ∧ Forall (fun field => E2D.cf_quoted field = false) line).
Proof.
  eexists. split; [vm_compute; reflexivity|].
  apply (file_quoting_policies sample_escape_string sample_float_str sample_self
           (sample_source (VInt 2) (VStr (s "dim")) [float_of_Z 1; float_of_Z 3])
           sample_per_image sample_per_object).
  - exact plain_sample_float_str.
  - vm_compute. reflexivity.
Defined.

(** C3: a vector that is too short beside a feature the filter leaves
    out.  The annotated catalog holds the exported feature
    [Nuclei_AreaShape_Area] and the text feature [Nuclei_Description_Stain],
    which the filter leaves out of the tables; the image set counts 3
    objects and the vector of the exported feature has 2 values.
    [write_data_to_db] raises [KeyError]: its loop over the object columns
    takes the text feature from [col_dict] and looks for its place in
    [object_col_order].  On the same image set [write_data], which applies
    the filter in that loop, returns: the column of the exported feature
    holds the 2 values followed by 0 and one diagnostic reports 2 values
    where 3 are expected; and so does [write_data_to_db] itself once the
    text feature is out of the catalog. *)
Theorem mismatch_beside_filtered_feature :
  let areas := [float_of_Z 5; float_of_Z 7] in
  let m := annotated_source (VInt 3) areas in
  let w := mismatch (s "Nuclei_AreaShape_Area") 1 2 3 in
  (s "Nuclei", s "AreaShape_Area", s "float") ∈ retained_object_pairs annotated_catalog
  ∧ E2D.ignore_feature (s "Nuclei") (s "Description_Stain") = true
  ∧ get_measurement m (s "Nuclei") (s "AreaShape_Area") (image_set_index m)
    = Array areas
  ∧ E2D.write_data_to_db sample_escape_string sample_float_str annotated_self m
    = Raise KeyError
  ∧ (∃ r,
       E2D.csv_image_set sample_escape_string annotated_self m sample_per_image
         sample_per_object 4 3 0 = Done r
       ∧ E2D.csv_max_count r = 3%Z
       ∧ column 2 (E2D.csv_object_rows r)
         = Some <$> [float_of_Z 5; float_of_Z 7; fzero]
       ∧ E2D.csv_warnings r = [w])
  ∧ (∃ files,
       E2D.write_data sample_escape_string sample_float_str annotated_self m
         sample_per_image sample_per_object = Done files
       ∧ length (E2D.per_object_file files) = 3
       ∧ E2D.file_warnings files = [w])
  ∧ (∃ r,
       E2D.write_data_to_db sample_escape_string sample_float_str sample_self m
       = Done r
       ∧ E2D.db_max_count r = 3%Z
       ∧ column 2 (E2D.db_object_rows r)
         = (fun v => Some (E2D.Cell (VFloat v) cpmeas.COLTYPE_FLOAT))
             <$> [float_of_Z 5; float_of_Z 7; fzero]
       ∧ E2D.db_warnings r = [w]).
Proof.
  intros areas m w.
  split; [by_eval|]. split; [reflexivity|]. split; [reflexivity|].
  split; [vm_compute; reflexivity|].
  split; [|split].
  - eexists. split; [vm_compute; reflexivity|].
    split; [reflexivity|]. split; vm_compute; reflexivity.
  - eexists. split; [vm_compute; reflexivity|].
    split; vm_compute; reflexivity.
  - eexists. split; [vm_compute; reflexivity|].
    split; [reflexivity|]. split; vm_compute; reflexivity.
Qed.

Lemma aggregates_always_registered_witness :
  let m := sample_source (VInt 5) (VInt 0) [] in
  let mappings := E2D.get_column_name_mappings no_aggregates m in
  E2D.agg_names no_aggregates = []
  ∧ s "Median_Nuclei_AreaShape_Area" ∈ CNM.keys mappings
  ∧ (∀ self', E2D.get_column_name_mappings self' m = mappings)
  ∧ is_Some ((CNM.scan (CNM.max_len mappings) (CNM.dictionary mappings)).1
               !! s "Median_Nuclei_AreaShape_Area").
Proof.
  intros m mappings. split; [reflexivity|].
  apply (aggregates_always_registered no_aggregates m (s "Nuclei")
           (s "AreaShape_Area") (s "Median")).
  - by_eval.
  - by_eval.
  - reflexivity.
  - by_eval.
  - by_eval.
Defined.

(** * Further properties *)

(** ** Further properties of [ColumnNameMapping] *)

Lemma dict_get_absent k d : k ∉ d.*1 → CNM.dict_get k d = Raise KeyError.
Proof.
  induction d as [|[k' v'] d IH]; [done|]. intros Hk. simpl.
  apply not_elem_of_cons in Hk as [Hne Hk]. simpl in Hne.
  rewrite decide_False by done. by apply IH.
Qed.

Lemma dict_get_keys k v d : CNM.dict_get k d = Done v → k ∈ d.*1.
Proof.
  intros Hget. destruct (decide (k ∈ d.*1)) as [|Hout]; [done|].
  by rewrite (dict_get_absent _ _ Hout) in Hget.
Qed.

(** What a resolution that returns leaves behind. *)
Lemma getitem_Done_inv (fuel : nat) (tape : list nat) (m : CNM.t) (name v : str)
    (m' : CNM.t) (tape' : list nat) :
  coherent m → CNM.getitem fuel tape m name = Done (v, m', tape') →
  coherent m' ∧ CNM.keys m' = CNM.keys m ∧ CNM.max_len m' = CNM.max_len m
  ∧ CNM.dict_get name (CNM.dictionary m') = Done v
  ∧ (if CNM.mapped m then m' = m ∧ tape' = tape
     else CNM.do_mapping fuel tape m = Done (m', tape')).
Proof.
  intros Hm Hrun. unfold CNM.getitem in Hrun.
  apply bind_Done in Hrun as ([m1 tape1] & Hmap & Hrun).
  apply bind_Done in Hrun as (v1 & Hget & [= <- <- <-]).
  destruct (CNM.mapped m) eqn:Hmapped.
  - injection Hmap as <- <-. done.
  - destruct (do_mapping_cases fuel tape m Hm) as [Hdiv|(m2 & tape2 & Hdone & ? & ? & ? & ?)];
      [congruence|].
    rewrite Hdone in Hmap. injection Hmap as <- <-. done.
Qed.

(** X1: on a mapping whose names and column names are in one-to-one
    correspondence (as after any number of [add]), a resolution that
    returns leaves the registered names as they were and gives distinct
    names distinct column names; [values] returns pairwise distinct
    column names, one per registered name. *)
Theorem resolved_column_names_distinct (fuel : nat) (tape : list nat) (m : CNM.t) :
  coherent m →
  (∀ k1 k2 v1 v2 m' tape',
     CNM.getitem fuel tape m k1 = Done (v1, m', tape') →
     k1 ≠ k2 → CNM.dict_get k2 (CNM.dictionary m') = Done v2 →
     v1 ≠ v2 ∧ CNM.keys m' = CNM.keys m)
  ∧ (∀ vs m' tape',
       CNM.values fuel tape m = Done (vs, m', tape') →
       NoDup vs ∧ length vs = length (CNM.keys m)).
Proof.
  intros Hm. split.
  - intros k1 k2 v1 v2 m' tape' Hrun Hne Hget2.
    apply getitem_Done_inv in Hrun as (Hm' & Hkeys & _ & Hget1 & _); [|done].
    split; [|done]. by apply (column_names_distinct m' k1 k2).
  - intros vs m' tape' Hrun. unfold CNM.values in Hrun.
    apply bind_Done in Hrun as ([m1 tape1] & Hmap & [= <- <- <-]).
    assert (coherent m1 ∧ CNM.keys m1 = CNM.keys m) as [(_ & Hv & _) Hkeys].
    { destruct (CNM.mapped m).
      - by injection Hmap as <- <-.
      - destruct (do_mapping_cases fuel tape m Hm)
          as [Hdiv|(m2 & tape2 & Hdone & ? & ? & ? & ?)]; [congruence|].
        rewrite Hdone in Hmap. by injection Hmap as <- <-. }
    split; [done|]. rewrite <- Hkeys. unfold CNM.keys. by rewrite !length_fmap.
Qed.

Lemma resolved_column_names_distinct_witness :
  let k1 := s "Nuclei_" ++ replicate 70 "a"%char in
  let k2 := s "Nuclei_" ++ replicate 71 "a"%char in
  let m := CNM.add k2 (CNM.add k1 (CNM.init 64)) in
  coherent m
  ∧ ∃ v1 v2 m' tape',
      CNM.getitem 3 [0; 0; 0; 0; 0; 0; 0; 0; 0; 0; 0; 0; 0; 0] m k1 = Done (v1, m', tape')
      ∧ CNM.dict_get k2 (CNM.dictionary m') = Done v2
      ∧ v1 ≠ v2 ∧ CNM.keys m' = CNM.keys m.
Proof.
  intros k1 k2 m.
  assert (coherent m) as Hm by by_eval.
  split; [exact Hm|].
  destruct (CNM.getitem 3 [0; 0; 0; 0; 0; 0; 0; 0; 0; 0; 0; 0; 0; 0] m k1)
    as [[[v1 m'] tape']| |] eqn:Hrun; [|by vm_compute in Hrun..].
  destruct (CNM.dict_get k2 (CNM.dictionary m')) as [v2| |] eqn:Hget.
  - exists v1, v2, m', tape'. split; [done|]. split; [done|].
    exact (proj1 (resolved_column_names_distinct _ _ m Hm) k1 k2 v1 v2 m' tape'
             Hrun ltac:(by vm_compute) Hget).
  - exfalso. vm_compute in Hrun. injection Hrun as <- <- <-. by vm_compute in Hget.
  - exfalso. vm_compute in Hrun. injection Hrun as <- <- <-. by vm_compute in Hget.
Defined.

(** X2: on such a mapping, a resolution that runs [do_mapping] and returns
    gives a column name that is within [max_len] or has none of the letters
    [do_mapping] can drop. *)
Theorem resolved_name_bounded_or_letterless (fuel : nat) (tape : list nat)
    (m : CNM.t) (name v : str) (m' : CNM.t) (tape' : list nat) :
  coherent m → CNM.mapped m = false →
  CNM.getitem fuel tape m name = Done (v, m', tape') →
  length v ≤ CNM.max_len m ∨ letterless v.
Proof.
  intros Hm Hmapped Hrun.
  apply getitem_Done_inv in Hrun as (Hm' & _ & _ & Hget & Hmap); [|done].
  rewrite Hmapped in Hmap.
  pose proof (column_names_bounded_or_letterless fuel tape m m' tape' Hm Hmap) as Hall.
  rewrite Forall_forall in Hall. apply Hall.
  apply (dict_get_elem _ _ _ (proj1 Hm')) in Hget.
  apply list_elem_of_fmap. by exists (name, v).
Qed.

Lemma resolved_name_bounded_or_letterless_witness :
  let name := s "Nuclei_AreaShape_" ++ replicate 60 "x"%char in
  let m := CNM.add name (CNM.init 64) in
  coherent m ∧ CNM.mapped m = false
  ∧ ∃ v m' tape', CNM.getitem 0 [] m name = Done (v, m', tape')
                  ∧ (length v ≤ CNM.max_len m ∨ letterless v).
Proof.
  intros name m.
  assert (coherent m) as Hm by by_eval.
  split; [exact Hm|]. split; [reflexivity|].
  destruct (CNM.getitem 0 [] m name) as [[[v m'] tape']| |] eqn:Hrun;
    [|by vm_compute in Hrun..].
  exists v, m', tape'. split; [done|].
  exact (resolved_name_bounded_or_letterless 0 [] m name v m' tape' Hm eq_refl Hrun).
Defined.

(** X3: when every column name is within [max_len], [do_mapping] changes
    nothing and uses no random draw, so a resolution answers from the
    dictionary as it stands, for a registered name or with [KeyError]. *)
Theorem mapping_stable_within_bound (fuel : nat) (tape : list nat) (m : CNM.t)
    (name : str) :
  Forall (fun v => length v ≤ CNM.max_len m) (CNM.dictionary m).*2 →
  CNM.do_mapping fuel tape m = Done (m, tape)
  ∧ CNM.getitem fuel tape m name
    = (v ← CNM.dict_get name (CNM.dictionary m); Done (v, m, tape)).
Proof.
  intros Hall. pose proof (do_mapping_within_bound fuel tape m Hall) as Hmap.
  split; [exact Hmap|]. unfold CNM.getitem. rewrite Hmap.
  destruct (CNM.mapped m); by rewrite bind_Done_l.
Qed.

Lemma mapping_stable_within_bound_witness :
  let name := s "Nuclei_AreaShape_" ++ replicate 60 "x"%char in
  ∃ v m tape,
    CNM.getitem 0 [] (CNM.add name (CNM.init 64)) name = Done (v, m, tape)
    ∧ Forall (fun v => length v ≤ CNM.max_len m) (CNM.dictionary m).*2
    ∧ CNM.do_mapping 0 [] m = Done (m, [])
    ∧ CNM.getitem 0 [] m name = Done (v, m, []).
Proof.
  intros name.
  destruct (CNM.getitem 0 [] (CNM.add name (CNM.init 64)) name)
    as [[[v m] tape]| |] eqn:Hrun; [|by vm_compute in Hrun..].
  exists v, m, tape. split; [done|].
  assert (Forall (fun v => length v ≤ CNM.max_len m) (CNM.dictionary m).*2) as Hall.
  { vm_compute in Hrun. injection Hrun as <- <- <-. by_eval. }
  split; [exact Hall|].
  destruct (mapping_stable_within_bound 0 [] m name Hall) as [Hmap Hget].
  split; [exact Hmap|]. rewrite Hget.
  vm_compute in Hrun. injection Hrun as <- <- <-. vm_compute. reflexivity.
Defined.

(** X4: resolving a name that was never registered returns no column name:
    once the mapping has been computed the lookup raises [KeyError]. *)
Theorem unregistered_name_raises (fuel : nat) (tape : list nat) (m : CNM.t)
    (name : str) :
  coherent m → name ∉ CNM.keys m →
  CNM.getitem fuel tape m name = Diverge
  ∨ CNM.getitem fuel tape m name = Raise KeyError.
Proof.
  intros Hm Hout. unfold CNM.getitem. destruct (CNM.mapped m).
  - right. rewrite bind_Done_l. by rewrite dict_get_absent.
  - destruct (do_mapping_cases fuel tape m Hm)
      as [->|(m' & tape' & -> & _ & Hkeys & _)]; [by left|].
    right. rewrite bind_Done_l. rewrite dict_get_absent; [done|].
    by rewrite <- Hkeys in Hout.
Qed.

Lemma unregistered_name_raises_witness :
  let m := CNM.add (s "Image_Count_Nuclei") (CNM.init 64) in
  coherent m ∧ (s "Image_Count_Cells" ∉ CNM.keys m)
  ∧ (CNM.getitem 0 [] m (s "Image_Count_Cells") = Diverge
     ∨ CNM.getitem 0 [] m (s "Image_Count_Cells") = Raise KeyError).
Proof.
  intros m.
  assert (coherent m) as Hm by by_eval.
  assert (s "Image_Count_Cells" ∉ CNM.keys m) as Hout by by_eval.
  split; [exact Hm|]. split; [exact Hout|].
  exact (unregistered_name_raises 0 [] m (s "Image_Count_Cells") Hm Hout).
Defined.

Lemma dict_set_values_Forall (P : str → Prop) k v (d : list (str * str)) :
  P v → Forall P d.*2 → Forall P (CNM.dict_set k v d).*2.
Proof.
  intros Hv. induction d as [|[k' v'] d IH]; intros Hd.
  - simpl. by apply Forall_cons.
  - simpl in *. apply Forall_cons in Hd as [Hv' Hd].
    destruct (decide (k = k')); simpl; apply Forall_cons; auto.
Qed.

(** X5: [add] after a resolution can break the one-to-one correspondence:
    when a name [K] has been given the column name [S] and every column name
    is within [max_len], registering [S] itself leaves both [K] and [S]
    with the column name [S]. *)
Theorem add_after_resolution_collides (fuel : nat) (tape : list nat) (m : CNM.t)
    (K S : str) :
  NoDup (CNM.keys m) → (K, S) ∈ CNM.dictionary m → K ≠ S →
  Forall (fun v => length v ≤ CNM.max_len m) (CNM.dictionary m).*2 →
  let m2 := CNM.add S m in
  CNM.getitem fuel tape m2 K = Done (S, m2, tape)
  ∧ CNM.getitem fuel tape m2 S = Done (S, m2, tape).
Proof.
  intros Hk Hin Hne Hall m2.
  assert (Forall (fun v => length v ≤ CNM.max_len m2) (CNM.dictionary m2).*2) as Hall2.
  { apply dict_set_values_Forall; [|done].
    rewrite Forall_forall in Hall. apply Hall.
    apply list_elem_of_fmap. by exists (K, S). }
  assert (NoDup (CNM.dictionary m2).*1) as Hk2 by by apply dict_set_keys_NoDup.
  assert (∀ name, CNM.getitem fuel tape m2 name
                  = (v ← CNM.dict_get name (CNM.dictionary m2); Done (v, m2, tape)))
    as Hget2.
  { intros name. unfold CNM.getitem.
    rewrite (do_mapping_within_bound fuel tape m2 Hall2).
    destruct (CNM.mapped m2); by rewrite bind_Done_l. }
  split.
  - rewrite Hget2.
    assert (CNM.dict_get K (CNM.dictionary m2) = Done S) as ->; [|done].
    apply dict_get_elem; [done|]. apply dict_set_elem; [done|]. by right.
  - rewrite Hget2.
    assert (CNM.dict_get S (CNM.dictionary m2) = Done S) as ->; [|done].
    apply dict_get_elem; [done|]. apply dict_set_elem; [done|]. by left.
Qed.

Lemma add_after_resolution_collides_witness :
  let K := s "Nuclei_AreaShape_" ++ replicate 60 "x"%char in
  ∃ S m,
    CNM.getitem 0 [] (CNM.add K (CNM.init 64)) K = Done (S, m, [])
    ∧ K ≠ S
    ∧ CNM.getitem 0 [] (CNM.add S m) K = Done (S, CNM.add S m, [])
    ∧ CNM.getitem 0 [] (CNM.add S m) S = Done (S, CNM.add S m, []).
Proof.
  intros K.
  destruct (CNM.getitem 0 [] (CNM.add K (CNM.init 64)) K)
    as [[[S m] tape]| |] eqn:Hrun; [|by vm_compute in Hrun..].
  exists S, m.
  assert (tape = [] ∧ NoDup (CNM.keys m) ∧ (K, S) ∈ CNM.dictionary m ∧ K ≠ S
          ∧ Forall (fun v => length v ≤ CNM.max_len m) (CNM.dictionary m).*2)
    as (-> & Hk & Hin & Hne & Hall).
  { vm_compute in Hrun. injection Hrun as <- <- <-.
    split; [done|]. split; [by_eval|]. split; [by_eval|]. split; by_eval. }
  split; [done|]. split; [done|].
  exact (add_after_resolution_collides 0 [] m K S Hk Hin Hne Hall).
Defined.

(** *** A column name left over the bound is not kept *)

(** One problem name: the other names keep their column names, and a
    letterless name is given a column name within the bound. *)
Lemma map_name_pairs (fuel n : nat) (rd : gmap str str) (d : list (str * str))
    (tape : list nat) (name : str) rd' d' tape' :
  linked n rd d → name ∈ d.*2 → n < length name →
  CNM.map_name fuel n (rd, d, tape) name = Done (rd', d', tape') →
  (∀ k y, (k, y) ∈ d → y ≠ name → (k, y) ∈ d')
  ∧ (∀ k, (k, name) ∈ d → letterless name →
       ∃ y', (k, y') ∈ d' ∧ length y' ≤ n).
Proof.
  intros (Hk & Hv & Hrd & Hshort) Hname Hlong Hrun.
  unfold CNM.map_name in Hrun.
  apply bind_Done in Hrun as (key & Hkey & Hrun).
  apply getitem_Done in Hkey.
  apply bind_Done in Hrun as ([short rc] & Hpass & Hrun).
  apply bind_Done in Hrun as ([name' tape1] & Hretry & Hrun).
  apply bind_Done in Hrun as (rd1 & Hpop & [= <- <- <-]).
  assert ((key, name) ∈ d) as Hin by by apply Hrd.
  split.
  - intros k y Hky Hne. apply dict_set_elem; [done|]. right. split; [|done].
    intros ->. apply Hne.
    apply (dict_get_elem _ _ _ Hk) in Hin, Hky. congruence.
  - intros k Hkn Hfree. exists name'.
    assert (k = key) as ->.
    { apply Hrd in Hkn. congruence. }
    split; [apply dict_set_elem; [done|]; by left|].
    rewrite drop_passes_letterless in Hpass by (done || lia).
    injection Hpass as <- <-.
    destruct (retry_cases fuel rd n name name tape)
      as [Hdiv|(name2 & tape2 & Hdone & Hnone)]; [congruence|].
    rewrite Hdone in Hretry. injection Hretry as <- <-.
    apply retry_result in Hdone as [->|Hlen]; [congruence|done].
Qed.

Lemma map_names_pairs (fuel n : nat) (names : list str) (rd : gmap str str)
    (d : list (str * str)) (tape : list nat) rd' d' tape' :
  linked n rd d → NoDup names →
  (∀ x, x ∈ names → x ∈ d.*2 ∧ n < length x) →
  for_each (CNM.map_name fuel n) names (rd, d, tape) = Done (rd', d', tape') →
  ∀ k y, (k, y) ∈ d →
    (y ∉ names → (k, y) ∈ d')
    ∧ (y ∈ names → letterless y → ∃ y', (k, y') ∈ d' ∧ length y' ≤ n).
Proof.
  revert rd d tape. induction names as [|x names IH]; intros rd d tape Hl Hnd Hx Hrun.
  - injection Hrun as <- <- <-. intros k y Hky. split; [done|].
    by intros ?%elem_of_nil.
  - cbn [for_each] in Hrun.
    apply bind_Done in Hrun as ([[rd1 d1] tape1] & Hstep & Hrest).
    apply NoDup_cons in Hnd as [Hxout Hnd].
    destruct (Hx x ltac:(apply list_elem_of_here)) as [Hxin Hxlong].
    destruct (map_name_cases fuel n rd d tape x Hl Hxin Hxlong)
      as [Hdiv|(rd2 & d2 & tape2 & Hdone & Hl1 & Hkeys & Hvals)]; [congruence|].
    rewrite Hdone in Hstep. injection Hstep as <- <- <-.
    destruct (map_name_pairs fuel n rd d tape x rd2 d2 tape2 Hl Hxin Hxlong Hdone)
      as [Hkeep Hnew].
    assert (∀ z, z ∈ names → z ∈ d2.*2 ∧ n < length z) as Hx1.
    { intros z Hz. destruct (Hx z ltac:(by apply list_elem_of_further)) as [Hzin Hzlong].
      split; [|done]. apply Hvals; [done|]. by intros ->. }
    specialize (IH rd2 d2 tape2 Hl1 Hnd Hx1 Hrest).
    intros k y Hky. split.
    + intros Hout. apply not_elem_of_cons in Hout as [Hne Hout].
      by apply (IH k y (Hkeep k y Hky Hne)).
    + intros Hyin Hfree. apply elem_of_cons in Hyin as [->|Hyin].
      * destruct (Hnew k Hky Hfree) as (y' & Hky' & Hlen).
        exists y'. split; [|done]. apply (IH k y' Hky').
        intros Hy'. apply Hx1 in Hy' as [_ ?]. lia.
      * apply (IH k y); [|done..]. apply Hkeep; [done|]. by intros ->.
Qed.

(** X6: a column name left over the bound because it has no letter to drop
    does not survive the next resolution: [do_mapping] runs again, finds it
    taken by itself and shortens the name it stood for by random deletions,
    so the same name now gets another column name, within the bound, unless
    the draws run out. *)
Theorem overlong_column_name_replaced (fuel : nat) (tape : list nat) (m : CNM.t)
    (name v : str) :
  coherent m → CNM.mapped m = false →
  CNM.dict_get name (CNM.dictionary m) = Done v →
  CNM.max_len m < length v → letterless v →
  CNM.getitem fuel tape m name = Diverge
  ∨ ∃ v' m' tape',
      CNM.getitem fuel tape m name = Done (v', m', tape')
      ∧ length v' ≤ CNM.max_len m ∧ v' ≠ v.
Proof.
  intros Hm Hmapped Hget Hlong Hfree.
  pose proof (dict_get_keys _ _ _ Hget) as Hname.
  destruct (getitem_cases fuel tape m name Hm Hname)
    as [?|(v' & m' & tape' & Hrun & Hm' & _ & _ & Hin')]; [by left|].
  right. exists v', m', tape'. split; [done|].
  apply getitem_Done_inv in Hrun as (_ & _ & _ & _ & Hmap); [|done].
  rewrite Hmapped in Hmap.
  destruct Hm as (Hk & Hv & Hshort).
  apply (dict_get_elem _ _ _ Hk) in Hget.
  unfold CNM.do_mapping in Hmap.
  destruct (scan_spec (CNM.max_len m) (CNM.dictionary m) Hv) as (rd & Hscan & Hrd).
  rewrite Hscan in Hmap.
  apply bind_Done in Hmap as ([[rd' d'] tape1] & Hloop & [= <- <-]).
  assert (linked (CNM.max_len m) rd (CNM.dictionary m)) as Hlinked.
  { split; [done|]. split; [done|]. split; [done|].
    intros k y Hky. rewrite Forall_forall in Hshort. apply (Hshort (k, y) Hky). }
  eapply map_names_pairs in Hloop; [|exact Hlinked|by apply NoDup_filter| |exact Hget].
  - destruct Hloop as [_ Hnew].
    destruct Hnew as (y' & Hky' & Hlen); [|done|].
    + apply list_elem_of_filter. split; [done|].
      apply list_elem_of_fmap. by exists (name, v).
    + simpl in Hin'.
      assert (v' = y') as ->.
      { destruct Hm' as (Hk' & _). simpl in Hk'.
        apply (dict_get_elem _ _ _ Hk') in Hin', Hky'. congruence. }
      split; [done|]. intros ->. lia.
  - intros x Hx. by apply list_elem_of_filter in Hx as [? ?].
Qed.

Lemma overlong_column_name_replaced_witness :
  let name := s "Image_" ++ replicate 70 "0"%char in
  ∃ v m,
    CNM.getitem 0 [] (CNM.add name (CNM.init 64)) name = Done (v, m, [])
    ∧ CNM.max_len m < length v
    ∧ ∃ v' m' tape',
        CNM.getitem 1 [0; 0; 0; 0; 0; 0; 0] m name = Done (v', m', tape')
        ∧ length v' ≤ CNM.max_len m ∧ v' ≠ v.
Proof.
  intros name.
  destruct (CNM.getitem 0 [] (CNM.add name (CNM.init 64)) name)
    as [[[v m] tape]| |] eqn:Hrun; [|by vm_compute in Hrun..].
  exists v, m.
  assert (tape = [] ∧ coherent m ∧ CNM.mapped m = false
          ∧ CNM.dict_get name (CNM.dictionary m) = Done v
          ∧ CNM.max_len m < length v ∧ letterless v
          ∧ CNM.getitem 1 [0; 0; 0; 0; 0; 0; 0] m name ≠ Diverge)
    as (-> & Hm & Hmapped & Hget & Hlong & Hfree & Hret).
  { vm_compute in Hrun. injection Hrun as <- <- <-.
    split; [done|]. split; [by_eval|]. split; [done|]. split; [by vm_compute|].
    split; [by_eval|]. split; [by_eval|]. by vm_compute. }
  split; [done|]. split; [done|].
  destruct (overlong_column_name_replaced 1 [0; 0; 0; 0; 0; 0; 0] m name v
              Hm Hmapped Hget Hlong Hfree) as [Hdiv|Hdone]; [done|exact Hdone].
Defined.

(** ** Further properties of the table layout *)

Lemma fold_left_invariant {A B : Type} (P : B → Prop) (f : B → A → B)
    (l : list A) (acc : B) :
  P acc → (∀ acc x, x ∈ l → P acc → P (f acc x)) → P (fold_left f l acc).
Proof.
  revert acc. induction l as [|x l IH]; intros acc Hacc Hstep; [done|].
  simpl. apply IH.
  - apply Hstep; [apply list_elem_of_here|done].
  - intros acc' y Hy. apply Hstep. by apply list_elem_of_further.
Qed.

Lemma placed_snoc (fixed : nat) (order : gmap str nat)
    (statement : list (str * str)) (k t : str) :
  placed fixed order statement → fixed ≤ length statement →
  placed fixed (<[k := length statement]> order) (statement ++ [(k, t)]).
Proof.
  intros [Hto Hfrom] Hfixed. split.
  - intros k' i. rewrite fmap_app. destruct (decide (k' = k)) as [->|Hne].
    + rewrite lookup_insert_eq. intros [= <-]. split; [done|].
      rewrite lookup_app_r by (rewrite length_fmap; lia).
      rewrite length_fmap. by replace (_ - _) with 0 by lia.
    + rewrite lookup_insert_ne by done. intros Hk'.
      destruct (Hto k' i Hk') as [? Hi]. split; [done|].
      rewrite lookup_app_l; [done|]. by eapply lookup_lt_Some.
  - intros i k' Hi. rewrite fmap_app. intros Hk'.
    apply lookup_insert_is_Some'.
    destruct (decide (i < length statement)) as [Hlt|Hge].
    + right. rewrite lookup_app_l in Hk' by (by rewrite length_fmap).
      by eapply Hfrom.
    + left. rewrite lookup_app_r in Hk' by (rewrite length_fmap; lia).
      rewrite length_fmap in Hk'.
      destruct (i - length statement) as [|j] eqn:Hj; [|done].
      simpl in Hk'. congruence.
Qed.

Lemma placed_size (fixed : nat) (order : gmap str nat)
    (statement : list (str * str)) :
  placed fixed order statement → NoDup (drop fixed statement.*1) →
  size order = length statement - fixed.
Proof.
  intros [Hto Hfrom] Hnd.
  assert (dom order = list_to_set (drop fixed statement.*1)) as Hdom.
  { apply set_eq. intros k. rewrite elem_of_dom, elem_of_list_to_set. split.
    - intros [i Hi]. destruct (Hto k i Hi) as [Hle Hk].
      apply list_elem_of_lookup. exists (i - fixed).
      rewrite lookup_drop. by replace (fixed + (i - fixed)) with i by lia.
    - intros [j Hj]%list_elem_of_lookup. rewrite lookup_drop in Hj.
      eapply Hfrom; [|exact Hj]. lia. }
  rewrite <- size_dom, Hdom, size_list_to_set by done.
  by rewrite length_drop, length_fmap.
Qed.

Section Layout.

Variable self : E2D.t.
Variable column_defs : list E2D.column_def.

Lemma object_column_layout (ob_table : str) (st : E2D.object_loop_state)
    (cd : E2D.column_def) :
  ob_table ≠ cpmeas.IMAGE → cd ∈ column_defs →
  object_layout column_defs st → object_layout column_defs (E2D.object_column self ob_table st cd).
Proof.
  intros Hob Hcd. destruct st as [[[aggs oco] c] stmt].
  destruct cd as [[obname feature] ftype].
  intros (-> & Hc & Hplaced & Hhead & Hkeys). unfold E2D.object_column.
  destruct (decide (obname = ob_table ∧ E2D.ignore_feature obname feature = false))
    as [[-> Hkept]|?]; [|done].
  split; [by rewrite length_app; simpl; lia|]. split; [lia|].
  split; [by apply placed_snoc|]. split.
  - rewrite take_app_le by lia. done.
  - intros k [Hk|Hk]%lookup_insert_is_Some'.
    + subst k. exists (ob_table, feature, ftype). split; [|done].
      apply list_elem_of_filter. done.
    + by apply Hkeys.
Qed.

Lemma object_loop_layout : object_layout column_defs (E2D.object_loop self column_defs).
Proof.
  unfold E2D.object_loop. apply fold_left_invariant.
  - split; [done|]. split; [done|]. split; [|split; [done|]].
    + split.
      * intros k i Hk. by rewrite lookup_empty in Hk.
      * intros i k Hi Hk. simpl in Hk. do 2 (destruct i as [|i]; [lia|]). done.
    + intros k [? Hk]. by rewrite lookup_empty in Hk.
  - intros st ob_table Hob Hst. apply fold_left_invariant; [done|].
    intros st' cd Hcd. apply object_column_layout; [|done].
    apply elem_of_elements, elem_of_list_to_set, list_elem_of_filter in Hob.
    tauto.
Qed.

Lemma image_column_layout (aggs : list E2D.column_def) (st : E2D.image_loop_state)
    (cd : E2D.column_def) :
  image_layout st → image_layout (E2D.image_column aggs st cd).
Proof.
  destruct st as [[ico c] stmt]. destruct cd as [[obname feature] ftype].
  intros (-> & Hc & Hplaced & Hhead). unfold E2D.image_column.
  destruct (decide (obname = cpmeas.IMAGE ∧ E2D.ignore_feature obname feature = false))
    as [[-> Hkept]|?]; [|done].
  split; [by rewrite length_app; simpl; lia|]. split; [lia|].
  split; [by apply placed_snoc|].
  rewrite take_app_le by lia. done.
Qed.

Lemma image_loop_layout (aggs : list E2D.column_def) :
  image_layout (E2D.image_loop column_defs aggs).
Proof.
  unfold E2D.image_loop. apply fold_left_invariant.
  - split; [done|]. split; [done|]. split; [|done]. split.
    + intros k i Hk. by rewrite lookup_empty in Hk.
    + intros i k Hi Hk. simpl in Hk. destruct i as [|i]; [lia|]. done.
  - intros st cd _. apply image_column_layout.
Qed.

(** The layout that [create_database_tables] leaves behind. *)
Lemma schema_layout :
  let tb := E2D.create_database_tables self column_defs in
  let self' := E2D.self_after tb in
  (E2D.object_c tb = length (E2D.object_statement tb)
   ∧ placed 2 (E2D.object_col_order self') (E2D.object_statement tb)
   ∧ take 2 (E2D.object_statement tb)
     = [(s "ImageNumber", s "INTEGER"); (s "ObjectNumber", s "INTEGER")]
   ∧ ∀ k, is_Some (E2D.object_col_order self' !! k) →
       ∃ cd, cd ∈ retained_object_pairs column_defs ∧ k = fmt2 cd.1.1 cd.1.2)
  ∧ (E2D.image_c tb = length (E2D.image_statement tb)
     ∧ placed 1 (E2D.image_col_order self') (E2D.image_statement tb)
     ∧ take 1 (E2D.image_statement tb) = [(s "ImageNumber", s "INTEGER")]).
Proof.
  unfold E2D.create_database_tables.
  pose proof object_loop_layout as Hobj.
  destruct (E2D.object_loop self column_defs) as [[[aggs oco] oc] ostmt].
  pose proof (image_loop_layout aggs) as Himg.
  destruct (E2D.image_loop column_defs aggs) as [[ico ic] istmt].
  simpl. destruct Hobj as (? & _ & ? & ? & ?). destruct Himg as (? & _ & ? & ?).
  done.
Qed.

End Layout.

Lemma NoDup_drop {A : Type} (n : nat) (l : list A) : NoDup l → NoDup (drop n l).
Proof.
  intros Hnd. rewrite <- (take_drop n l) in Hnd. by apply NoDup_app in Hnd as (_ & _ & ?).
Qed.

(** X7: the column orders left by [create_database_tables] are positions
    in its [CREATE TABLE] statements: every name of [object_col_order]
    ([image_col_order]) has an index of at least 2 (1) below the final
    counter, at which the statement has the column of that name; every
    column after the leading [ImageNumber] (and [ObjectNumber]) has its
    name in the order; and when the column names of a statement are
    distinct the order has one entry per such column. *)
Theorem column_order_points_into_statement (self : E2D.t)
    (column_defs : list E2D.column_def) :
  let tb := E2D.create_database_tables self column_defs in
  let self' := E2D.self_after tb in
  (take 2 (E2D.object_statement tb).*1 = [s "ImageNumber"; s "ObjectNumber"]
   ∧ (∀ k i, E2D.object_col_order self' !! k = Some i →
        2 ≤ i < E2D.object_c tb ∧ (E2D.object_statement tb).*1 !! i = Some k)
   ∧ (∀ i k, 2 ≤ i → (E2D.object_statement tb).*1 !! i = Some k →
        is_Some (E2D.object_col_order self' !! k))
   ∧ (NoDup (E2D.object_statement tb).*1 →
      size (E2D.object_col_order self') + 2 = E2D.object_c tb))
  ∧ (take 1 (E2D.image_statement tb).*1 = [s "ImageNumber"]
     ∧ (∀ k i, E2D.image_col_order self' !! k = Some i →
          1 ≤ i < E2D.image_c tb ∧ (E2D.image_statement tb).*1 !! i = Some k)
     ∧ (∀ i k, 1 ≤ i → (E2D.image_statement tb).*1 !! i = Some k →
          is_Some (E2D.image_col_order self' !! k))
     ∧ (NoDup (E2D.image_statement tb).*1 →
        size (E2D.image_col_order self') + 1 = E2D.image_c tb)).
Proof.
  intros tb self'.
  destruct (schema_layout self column_defs)
    as [(Hoc & Hop & Hoh & _) (Hic & Hip & Hih)].
  fold tb in Hoc, Hop, Hoh, Hic, Hip, Hih. fold self' in Hop, Hip.
  assert (2 ≤ length (E2D.object_statement tb)) as Hol.
  { assert (length (take 2 (E2D.object_statement tb)) = 2) as Hlen by by rewrite Hoh.
    rewrite length_take in Hlen. lia. }
  assert (1 ≤ length (E2D.image_statement tb)) as Hil.
  { assert (length (take 1 (E2D.image_statement tb)) = 1) as Hlen by by rewrite Hih.
    rewrite length_take in Hlen. lia. }
  split; (split; [by rewrite <- fmap_take, ?Hoh, ?Hih|]); (split; [|split]).
  - intros k i Hk. destruct (proj1 Hop k i Hk) as [? Hi]. split; [|done].
    split; [done|]. rewrite Hoc. apply lookup_lt_Some in Hi.
    by rewrite length_fmap in Hi.
  - apply Hop.
  - intros Hnd. rewrite (placed_size 2 _ _ Hop) by by apply NoDup_drop. lia.
  - intros k i Hk. destruct (proj1 Hip k i Hk) as [? Hi]. split; [|done].
    split; [done|]. rewrite Hic. apply lookup_lt_Some in Hi.
    by rewrite length_fmap in Hi.
  - apply Hip.
  - intros Hnd. rewrite (placed_size 1 _ _ Hip) by by apply NoDup_drop. lia.
Qed.

(** ** Further properties of [write_data_to_db] *)

Lemma for_each_Done_elem {A S : Type} (body : S → A → outcome S) (l : list A)
    (acc acc' : S) (x : A) :
  for_each body l acc = Done acc' → x ∈ l → ∃ st st', body st x = Done st'.
Proof.
  revert acc. induction l as [|y l IH]; intros acc Hrun Hx.
  - by apply elem_of_nil in Hx.
  - simpl in Hrun. apply bind_Done in Hrun as (st & Hst & Hrun).
    apply elem_of_cons in Hx as [->|Hx]; [by exists acc, st|by eapply IH].
Qed.

Lemma map_each_fold {A B : Type} (f : A → outcome B) (l : list A) (acc r : list B) :
  for_each (fun acc x => y ← f x; Done (acc ++ [y])) l acc = Done r →
  ∃ ys, r = acc ++ ys ∧ Forall2 (fun x y => f x = Done y) l ys.
Proof.
  revert acc. induction l as [|x l IH]; intros acc Hrun.
  - injection Hrun as <-. exists []. by rewrite app_nil_r.
  - simpl in Hrun. apply bind_Done in Hrun as (acc1 & Hstep & Hrun).
    apply bind_Done in Hstep as (y & Hy & [= <-]).
    apply IH in Hrun as (ys & -> & Hys). exists (y :: ys).
    split; [by rewrite <- app_assoc|]. by apply Forall2_cons.
Qed.

Lemma map_each_Done {A B : Type} (f : A → outcome B) (l : list A) (ys : list B) :
  E2D.map_each f l = Done ys → Forall2 (fun x y => f x = Done y) l ys.
Proof. intros (ys' & -> & Hys)%map_each_fold. done. Qed.

Lemma build_col_dict_lookup (column_defs : list E2D.column_def)
    (acc : gmap str (list E2D.column_def)) (ob : str) :
  fold_left
    (fun col_dict (c : E2D.column_def) =>
       if decide (c.1.1 ≠ cpmeas.EXPERIMENT) then
         match col_dict !! c.1.1 with
         | Some cols => <[c.1.1 := cols ++ [c]]> col_dict
         | None => <[c.1.1 := [c]]> col_dict
         end
       else col_dict)
    column_defs acc !! ob
  = if decide (ob = cpmeas.EXPERIMENT) then acc !! ob
    else match filter (fun cd : E2D.column_def => cd.1.1 = ob) column_defs with
         | [] => acc !! ob
         | l => Some (default [] (acc !! ob) ++ l)
         end.
Proof.
  revert acc. induction column_defs as [|c l IH]; intros acc.
  - simpl. by destruct (decide _).
  - cbn [fold_left]. rewrite IH. rewrite filter_cons.
    destruct (decide (ob = cpmeas.EXPERIMENT)) as [->|Hob].
    + destruct (decide (c.1.1 ≠ cpmeas.EXPERIMENT)) as [Hc|Hc]; [|done].
      destruct (acc !! c.1.1); by rewrite lookup_insert_ne.
    + destruct (decide (c.1.1 = ob)) as [Hc|Hc].
      * rewrite decide_True by congruence. rewrite Hc.
        destruct (acc !! ob) as [cols|] eqn:Hacc; rewrite lookup_insert_eq; simpl;
          destruct (filter _ l); by rewrite <- ?app_assoc.
      * destruct (decide (c.1.1 ≠ cpmeas.EXPERIMENT)); [|done].
        destruct (acc !! c.1.1); by rewrite lookup_insert_ne.
Qed.

(** X8: [col_dict] groups the catalog by object name, in catalog order:
    under every object name other than [Experiment] it holds all the
    column definitions of that name, whether or not the feature filter
    keeps them; it has no entry for [Experiment] nor for a name without
    column definition. *)
Theorem col_dict_groups_catalog (self : E2D.t) (column_defs : list E2D.column_def)
    (ob : str) :
  E2D.col_dict (E2D.self_after (E2D.create_database_tables self column_defs)) !! ob
  = if decide (ob = cpmeas.EXPERIMENT) then None
    else match filter (fun cd : E2D.column_def => cd.1.1 = ob) column_defs with
         | [] => None
         | l => Some l
         end.
Proof.
  unfold E2D.create_database_tables.
  destruct (E2D.object_loop self column_defs) as [[[aggs oco] oc] ostmt].
  destruct (E2D.image_loop column_defs aggs) as [[ico ic] istmt].
  cbn [E2D.self_after E2D.col_dict]. unfold E2D.build_col_dict.
  rewrite build_col_dict_lookup. by rewrite lookup_empty.
Qed.

Lemma col_dict_groups_lookup (self : E2D.t) (column_defs : list E2D.column_def)
    (cd : E2D.column_def) :
  cd ∈ column_defs → cd.1.1 ≠ cpmeas.EXPERIMENT →
  ∃ cols,
    E2D.col_dict (E2D.self_after (E2D.create_database_tables self column_defs))
      !! cd.1.1 = Some cols
    ∧ cd ∈ cols.
Proof.
  intros Hcd Hexp. unfold E2D.create_database_tables.
  destruct (E2D.object_loop self column_defs) as [[[aggs oco] oc] ostmt].
  destruct (E2D.image_loop column_defs aggs) as [[ico ic] istmt].
  cbn [E2D.self_after E2D.col_dict]. unfold E2D.build_col_dict.
  rewrite build_col_dict_lookup, lookup_empty, decide_False by done.
  assert (cd ∈ filter (fun cd' : E2D.column_def => cd'.1.1 = cd.1.1) column_defs)
    as Hin by by apply list_elem_of_filter.
  destruct (filter _ column_defs) as [|c l]; [by apply elem_of_nil in Hin|].
  by eexists.
Qed.

Section Db.

Variable escape_string : str → str.
Variable float_str : spec_float → str.
Variable self : E2D.t.
Variable m : measurements.

Variable image_number : Z.

(** The steps of a call that returns. *)
Lemma write_data_to_db_inv (r : E2D.db_result) :
  E2D.write_data_to_db escape_string float_str self m = Done r →
  ∃ row0 row1 cells,
    match E2D.col_dict self !! cpmeas.IMAGE with
    | Some cols => for_each (E2D.db_image_feature self m (image_set_index m)) cols (row0, 0%Z)
    | None => Done (row0, 0%Z)
    end = Done (row1, E2D.db_max_count r)
    ∧ E2D.db_rows self m (Z.of_nat (image_set_index m) + image_set_start_number m)
        (E2D.db_max_count r) row1
      = Done (E2D.db_image_row r, E2D.db_object_rows r, E2D.db_warnings r)
    ∧ E2D.map_each (fun cell : E2D.image_cell =>
                      match cell with
                      | Some c => Done c
                      | None => Raise TypeError
                      end) (E2D.db_image_row r) = Done cells
    ∧ (E2D.db_image_insert r).1 = cells.*2
    ∧ E2D.map_each
        (E2D.map_each
           (E2D.map_each (fun c : E2D.object_cell =>
                            match c with
                            | E2D.Cell v _ => Done (E2D.py_str float_str v)
                            | E2D.Zero => Raise TypeError
                            end)))
        (E2D.batches (E2D.db_object_rows r)) = Done (E2D.db_executemany r).
Proof.
  intros Hrun. unfold E2D.write_data_to_db in Hrun.
  apply bind_Done in Hrun as (row0 & _ & Hrun).
  apply bind_Done in Hrun as ([row1 max_count] & Himage & Hrun).
  apply bind_Done in Hrun as (ocols0 & _ & Hrun).
  apply bind_Done in Hrun as ([[row2 orows] ws] & Hrows & Hrun).
  apply bind_Done in Hrun as (cells & Hcells & Hrun).
  apply bind_Done in Hrun as (ocols & _ & Hrun).
  apply bind_Done in Hrun as (ex & Hex & [= <-]).
  exists row0, row1, cells. done.
Qed.

Lemma db_image_feature_count (st st' : list E2D.image_cell * Z) (m_col : E2D.column_def) :
  E2D.db_image_feature self m (image_set_index m) st m_col = Done st' → (0 ≤ st.2)%Z → (0 ≤ st'.2)%Z.
Proof.
  destruct st as [row mc]. unfold E2D.db_image_feature. intros Hrun Hmc.
  apply bind_Done in Hrun as (v & _ & Hrun).
  destruct (E2D.image_col_order self !! _); [|by injection Hrun as <-].
  apply bind_Done in Hrun as (row' & _ & Hrun).
  destruct (contains _ _); [|by injection Hrun as <-].
  apply bind_Done in Hrun as (cnt & _ & [= <-]). simpl in *. lia.
Qed.

Lemma max_count_nonneg (r : E2D.db_result) :
  E2D.write_data_to_db escape_string float_str self m = Done r →
  (0 ≤ E2D.db_max_count r)%Z.
Proof.
  intros (row0 & row1 & cells & Himage & _)%write_data_to_db_inv.
  destruct (E2D.col_dict self !! cpmeas.IMAGE) as [cols|];
    [|by injection Himage as _ <-].
  change (0 ≤ (row1, E2D.db_max_count r).2)%Z.
  revert Himage.
  apply (for_each_invariant (fun st : list E2D.image_cell * Z => (0 ≤ st.2)%Z));
    [|simpl; lia].
  intros st x st' _ Hst Hstep. by eapply db_image_feature_count.
Qed.

(** The two branches of [db_rows]. *)
Lemma db_rows_zero (row row' : list E2D.image_cell)
    (rows : list (list E2D.object_cell)) (ws : list E2D.warning) :
  E2D.db_rows self m image_number 0 row = Done (row', rows, ws) →
  rows = [] ∧ ws = [].
Proof.
  unfold E2D.db_rows. rewrite decide_True by done.
  intros (? & _ & [= _ <- <-])%bind_Done. done.
Qed.

Lemma db_rows_nonzero (max_count : Z) (row row' : list E2D.image_cell)
    (rows : list (list E2D.object_cell)) (ws : list E2D.warning) :
  max_count ≠ 0%Z →
  E2D.db_rows self m image_number max_count row = Done (row', rows, ws) →
  let n := Z.to_nat max_count in
  ∃ rows0,
    for_each
      (fun object_rows i =>
         object_rows ← setitem2 object_rows i 0
                         (E2D.Cell (VInt image_number) cpmeas.COLTYPE_INTEGER);
         setitem2 object_rows i 1
           (E2D.Cell (VInt (Z.of_nat i + 1)) cpmeas.COLTYPE_INTEGER))
      (seq 0 n)
      (replicate n (replicate (size (E2D.object_col_order self) + 2) E2D.Zero))
    = Done rows0
    ∧ for_each
        (fun st (item : str * list E2D.column_def) =>
           let '(obname, cols) := item in
           if decide (obname = cpmeas.IMAGE ∨ obname = cpmeas.EXPERIMENT) then Done st
           else for_each
                  (E2D.db_object_feature self m (image_set_index m) image_number n obname)
                  cols st)
        (map_to_list (E2D.col_dict self)) (rows0, [])
      = Done (rows, ws).
Proof.
  intros Hmc. unfold E2D.db_rows. rewrite decide_False by done.
  intros (row1 & _ & Hrun)%bind_Done.
  apply bind_Done in Hrun as (rows0 & Hkeys & Hrun).
  apply bind_Done in Hrun as ([rows1 ws1] & Hloop & [= _ <- <-]).
  by exists rows0.
Qed.

(** One object feature, when its loop body returns. *)
Lemma db_object_feature_Done (n : nat) (obname : str)
    (rows rows' : list (list E2D.object_cell)) (ws ws' : list E2D.warning)
    (col : E2D.column_def) :
  E2D.db_object_feature self m (image_set_index m) image_number n obname (rows, ws) col
  = Done (rows', ws') →
  ∃ values,
    get_measurement m obname col.1.2 (image_set_index m) = Array values
    ∧ ws' = ws ++ (if decide (length values = n) then []
                   else [mismatch (fmt2 obname col.1.2) image_number
                           (length values) n])
    ∧ for_each
        (fun object_rows i =>
           c ← Py.getitem (E2D.object_col_order self) (fmt2 obname col.1.2);
           v ← Py.index (reconciled n values) i;
           setitem2 object_rows i c (E2D.Cell (VFloat v) cpmeas.COLTYPE_FLOAT))
        (seq 0 n) rows
      = Done rows'.
Proof.
  unfold E2D.db_object_feature.
  destruct (get_measurement m obname col.1.2 (image_set_index m)) as [v|values]; [done|].
  cbn [E2D.as_array]. rewrite bind_Done_l, db_reconcile.
  intros (rows1 & Hloop & [= <- <-])%bind_Done.
  by exists values.
Qed.

(** An invariant of the object rows and of the diagnostics is kept by the
    loop over [col_dict]. *)
Lemma object_features_invariant (P : list (list E2D.object_cell) * list E2D.warning → Prop)
    (n : nat) (st st' : list (list E2D.object_cell) * list E2D.warning) :
  (∀ obname cols col st0 st1,
     E2D.col_dict self !! obname = Some cols → col ∈ cols →
     obname ≠ cpmeas.IMAGE → obname ≠ cpmeas.EXPERIMENT →
     P st0 →
     E2D.db_object_feature self m (image_set_index m) image_number n obname st0 col = Done st1 →
     P st1) →
  P st →
  for_each
    (fun st (item : str * list E2D.column_def) =>
       let '(obname, cols) := item in
       if decide (obname = cpmeas.IMAGE ∨ obname = cpmeas.EXPERIMENT) then Done st
       else for_each (E2D.db_object_feature self m (image_set_index m) image_number n obname) cols st)
    (map_to_list (E2D.col_dict self)) st
  = Done st' →
  P st'.
Proof.
  intros Hstep Hst Hrun.
  eapply (for_each_invariant P); [|exact Hst|exact Hrun].
  intros st0 [obname cols] st1 Hitem Hst0. cbv beta iota.
  apply elem_of_map_to_list in Hitem.
  destruct (decide (obname = cpmeas.IMAGE ∨ obname = cpmeas.EXPERIMENT)) as [|Hob];
    [by intros [= <-]|].
  intros Hcols. eapply (for_each_invariant P); [|exact Hst0|exact Hcols].
  intros st2 col st3 Hcol Hst2. eapply Hstep; eauto.
Qed.

End Db.

(** *** The object rows *)

Lemma key_rows (a : E2D.object_cell) (b : nat → E2D.object_cell) (n w k : nat)
    (rows' : list (list E2D.object_cell)) :
  2 ≤ w → k ≤ n →
  for_each
    (fun object_rows i =>
       object_rows ← setitem2 object_rows i 0 a; setitem2 object_rows i 1 (b i))
    (seq 0 k) (replicate n (replicate w E2D.Zero))
  = Done rows' →
  length rows' = n
  ∧ ∀ i row, rows' !! i = Some row →
      length row = w ∧ (i < k → row !! 0 = Some a ∧ row !! 1 = Some (b i)).
Proof.
  intros Hw. revert rows'. induction k as [|k IH]; intros rows' Hk Hrun.
  - injection Hrun as <-. split; [by rewrite length_replicate|].
    intros i row [-> _]%lookup_replicate. split; [by rewrite length_replicate|lia].
  - rewrite seq_S, for_each_app in Hrun.
    apply bind_Done in Hrun as (rows1 & Hrun1 & Hstep).
    destruct (IH rows1 ltac:(lia) Hrun1) as [Hlen Hrows]. simpl in Hstep.
    apply bind_Done in Hstep as (rows2 & Hstep & [= <-]).
    apply bind_Done in Hstep as (rows3 & (row & Hrow & H0 & ->)%setitem2_Done & Hstep).
    apply setitem2_Done in Hstep as (row' & Hrow' & H1 & ->).
    rewrite list_lookup_insert_eq in Hrow' by (by eapply lookup_lt_Some).
    injection Hrow' as <-. rewrite length_insert in H1.
    split; [by rewrite !length_insert|].
    intros i row2 Hi. destruct (decide (i = k)) as [->|Hne].
    + rewrite list_lookup_insert_eq in Hi
        by (rewrite length_insert; by eapply lookup_lt_Some).
      injection Hi as <-. destruct (Hrows k row Hrow) as [Hroww _].
      split; [by rewrite !length_insert|]. intros _. split.
      * rewrite list_lookup_insert_ne by done. by rewrite list_lookup_insert_eq.
      * by rewrite list_lookup_insert_eq by (by rewrite length_insert).
    + rewrite !list_lookup_insert_ne in Hi by done.
      destruct (Hrows i row2 Hi) as [? Hkeys]. split; [done|].
      intros Hik. apply Hkeys. lia.
Qed.

Lemma scatter_keeps (P : nat → list E2D.object_cell → Prop) (n c : nat)
    (order : gmap str nat) (name : str) (values : list spec_float)
    (rows rows' : list (list E2D.object_cell)) :
  (∀ i row x, order !! name = Some c → P i row → c < length row →
     P i (<[c := x]> row)) →
  (∀ c', order !! name = Some c' → c' = c) →
  for_each
    (fun object_rows i =>
       c ← Py.getitem order name;
       v ← Py.index values i;
       setitem2 object_rows i c (E2D.Cell (VFloat v) cpmeas.COLTYPE_FLOAT))
    (seq 0 n) rows
  = Done rows' →
  (length rows = n ∧ ∀ i row, rows !! i = Some row → P i row) →
  length rows' = n ∧ ∀ i row, rows' !! i = Some row → P i row.
Proof.
  intros Hset Hc Hrun HP. revert Hrun.
  apply (for_each_invariant
           (fun rows : list (list E2D.object_cell) =>
              length rows = n ∧ ∀ i row, rows !! i = Some row → P i row));
    [|exact HP].
  intros rows0 j rows1 _ [Hlen Hrows] Hstep.
  apply bind_Done in Hstep as (c' & Hc'%getitem_Done & Hstep).
  apply bind_Done in Hstep as (v & _ & Hstep).
  apply setitem2_Done in Hstep as (row & Hrow & Hlt & ->).
  pose proof (Hc c' Hc'). subst c'.
  split; [by rewrite length_insert|].
  intros i row' Hi. destruct (decide (i = j)) as [->|Hne].
  - rewrite list_lookup_insert_eq in Hi by (by eapply lookup_lt_Some).
    injection Hi as <-. apply Hset; [done| |done]. by apply Hrows.
  - rewrite list_lookup_insert_ne in Hi by done. by apply Hrows.
Qed.

(** X9: a call of [write_data_to_db] that returns has found a count that
    is not negative and has built one object row per counted object, each
    with a cell for [ImageNumber], [ObjectNumber] and every name of
    [object_col_order]; when the order keeps clear of the first two
    columns, as the one [create_database_tables] builds does, row [i]
    starts with the image number and the object number [i+1], both typed
    as integers. *)
Theorem object_rows_keyed (escape_string : str → str)
    (float_str : spec_float → str) (self : E2D.t) (m : measurements)
    (r : E2D.db_result) :
  map_Forall (fun _ c => 2 ≤ c) (E2D.object_col_order self) →
  E2D.write_data_to_db escape_string float_str self m = Done r →
  (0 ≤ E2D.db_max_count r)%Z
  ∧ length (E2D.db_object_rows r) = Z.to_nat (E2D.db_max_count r)
  ∧ ∀ i row, E2D.db_object_rows r !! i = Some row →
      length row = size (E2D.object_col_order self) + 2
      ∧ keyed (Z.of_nat (image_set_index m) + image_set_start_number m) i row.
Proof.
  intros Horder Hrun. pose proof (max_count_nonneg _ _ _ _ _ Hrun) as Hmc.
  split; [done|].
  apply write_data_to_db_inv in Hrun as (row0 & row1 & cells & _ & Hrows & _).
  destruct (decide (E2D.db_max_count r = 0%Z)) as [Hz|Hnz].
  - rewrite Hz in Hrows. apply db_rows_zero in Hrows as [-> _].
    rewrite Hz. split; [done|]. intros i row Hi. by rewrite lookup_nil in Hi.
  - apply db_rows_nonzero in Hrows as (rows0 & Hkeys & Hloop); [|done].
    set (n := Z.to_nat (E2D.db_max_count r)) in *.
    set (image_number := (Z.of_nat (image_set_index m) + image_set_start_number m)%Z) in *.
    set (w := size (E2D.object_col_order self) + 2) in *.
    apply key_rows in Hkeys as [Hlen0 Hrows0]; [|lia|done].
    set (P := fun st : list (list E2D.object_cell) * list E2D.warning =>
                length st.1 = n
                ∧ ∀ i row, st.1 !! i = Some row →
                    length row = w ∧ keyed image_number i row).
    assert (P (E2D.db_object_rows r, E2D.db_warnings r)) as [HlenP HrowsP].
    { eapply (object_features_invariant self m image_number P); [| |exact Hloop].
      - intros obname cols col [rows1 ws1] [rows2 ws2] _ _ _ _ HP Hstep.
        apply db_object_feature_Done in Hstep as (values & _ & _ & Hscatter).
        destruct (E2D.object_col_order self !! fmt2 obname col.1.2) as [c|] eqn:Hc.
        + eapply (scatter_keeps
                    (fun i row => length row = w ∧ keyed image_number i row) n c);
            [| |exact Hscatter|exact HP].
          * intros i row x _ [Hroww [Hk0 Hk1]] Hlt.
            pose proof (Horder _ _ Hc) as Hc2. simpl in Hc2.
            split; [by rewrite length_insert|].
            split; by rewrite list_lookup_insert_ne by lia.
          * intros c' Hc'. congruence.
        + eapply (scatter_keeps
                    (fun i row => length row = w ∧ keyed image_number i row) n 0);
            [| |exact Hscatter|exact HP].
          * intros i row x Hsome. congruence.
          * intros c' Hc'. congruence.
      - split; [done|]. intros i row Hi. simpl in Hi.
        destruct (Hrows0 i row Hi) as [? Hk].
        split; [done|]. apply Hk. apply lookup_lt_Some in Hi. lia. }
    split; [done|]. exact HrowsP.
Qed.

Lemma object_rows_keyed_witness :
  let m := sample_source (VInt 2) (VFloat (float_of_Z 3))
             [float_of_Z 5; float_of_Z 7] in
  ∃ r,
    E2D.write_data_to_db sample_escape_string sample_float_str sample_self m = Done r
    ∧ (0 ≤ E2D.db_max_count r)%Z
    ∧ length (E2D.db_object_rows r) = Z.to_nat (E2D.db_max_count r)
    ∧ ∀ i row, E2D.db_object_rows r !! i = Some row →
        length row = size (E2D.object_col_order sample_self) + 2
        ∧ keyed (Z.of_nat (image_set_index m) + image_set_start_number m) i row.
Proof.
  intros m.
  destruct (E2D.write_data_to_db sample_escape_string sample_float_str sample_self m)
    as [r| |] eqn:Hrun; [|by vm_compute in Hrun..].
  exists r. split; [done|].
  apply (object_rows_keyed sample_escape_string sample_float_str sample_self m r);
    [|exact Hrun].
  by_eval.
Defined.

Lemma Forall2_concat_lists {A B : Type} (P : A → B → Prop) (ls : list (list A))
    (ks : list (list B)) :
  Forall2 (Forall2 P) ls ks → Forall2 P (concat ls) (concat ks).
Proof. induction 1; [constructor|]. simpl. by apply Forall2_app. Qed.

(** X10: the rows handed to [executemany] are the object rows, each cell
    as the text of its value, in order and in groups of at most 25: as
    many groups as 25 goes into the number of rows, rounded up. *)
Theorem executemany_sends_every_row (escape_string : str → str)
    (float_str : spec_float → str) (self : E2D.t) (m : measurements)
    (r : E2D.db_result) :
  E2D.write_data_to_db escape_string float_str self m = Done r →
  length (E2D.db_executemany r) = (length (E2D.db_object_rows r) + 24) / 25
  ∧ Forall (fun group => 0 < length group ≤ 25) (E2D.db_executemany r)
  ∧ Forall2 (Forall2 (sent float_str)) (E2D.db_object_rows r)
      (concat (E2D.db_executemany r)).
Proof.
  intros (row0 & row1 & cells & _ & _ & _ & _ & Hex)%write_data_to_db_inv.
  apply map_each_Done in Hex.
  set (rows := E2D.db_object_rows r) in *.
  assert (length rows ≤ 25 * ((length rows + 24) / 25) < length rows + 25) as Hceil.
  { pose proof (Nat.div_mod_eq (length rows + 24) 25) as Hdm.
    pose proof (Nat.mod_upper_bound (length rows + 24) 25). lia. }
  split; [|split].
  - rewrite <- (Forall2_length _ _ _ Hex).
    by rewrite batches_chunks, length_fmap, length_seq.
  - apply Forall_lookup. intros k group Hgroup.
    destruct (Forall2_lookup_r _ _ _ _ _ Hex Hgroup) as (b & Hb & Hbg).
    apply map_each_Done in Hbg. rewrite <- (Forall2_length _ _ _ Hbg).
    apply batches_lookup in Hb as [Hk ->]. rewrite length_take, length_drop. lia.
  - assert (concat (E2D.batches rows) = rows) as Hcat.
    { rewrite batches_chunks, concat_chunks. apply take_ge. lia. }
    rewrite <- Hcat at 1. apply Forall2_concat_lists.
    eapply Forall2_impl; [exact Hex|]. intros b group Hbg. simpl in Hbg.
    apply map_each_Done in Hbg.
    eapply Forall2_impl; [exact Hbg|]. intros row texts Hrow. simpl in Hrow.
    apply map_each_Done in Hrow.
    eapply Forall2_impl; [exact Hrow|]. intros cell x Hcell. simpl in Hcell.
    destruct cell as [|v t]; [done|]. injection Hcell as <-. by exists v, t.
Qed.

Lemma executemany_sends_every_row_witness :
  let m := sample_source (VInt 2) (VFloat (float_of_Z 3))
             [float_of_Z 5; float_of_Z 7] in
  ∃ r,
    E2D.write_data_to_db sample_escape_string sample_float_str sample_self m = Done r
    ∧ length (E2D.db_executemany r) = (length (E2D.db_object_rows r) + 24) / 25
    ∧ Forall (fun group => 0 < length group ≤ 25) (E2D.db_executemany r)
    ∧ Forall2 (Forall2 (sent sample_float_str)) (E2D.db_object_rows r)
        (concat (E2D.db_executemany r)).
Proof.
  intros m.
  destruct (E2D.write_data_to_db sample_escape_string sample_float_str sample_self m)
    as [r| |] eqn:Hrun; [|by vm_compute in Hrun..].
  exists r. split; [done|].
  exact (executemany_sends_every_row sample_escape_string sample_float_str
           sample_self m r Hrun).
Defined.

(** *** The diagnostics *)

(** X11: every diagnostic of a call of [write_data_to_db] that returns
    reports a real mismatch: it names a column of [col_dict] whose vector
    in this image set has a number of values other than the count, and
    gives that number, the count and the image number; with a count of
    zero there is no diagnostic. *)
Theorem diagnostics_report_real_mismatches (escape_string : str → str)
    (float_str : spec_float → str) (self : E2D.t) (m : measurements)
    (r : E2D.db_result) :
  E2D.write_data_to_db escape_string float_str self m = Done r →
  Forall
    (real_mismatch self m (Z.of_nat (image_set_index m) + image_set_start_number m)
       (Z.to_nat (E2D.db_max_count r)))
    (E2D.db_warnings r)
  ∧ (E2D.db_max_count r = 0%Z → E2D.db_warnings r = []).
Proof.
  intros (row0 & row1 & cells & _ & Hrows & _)%write_data_to_db_inv.
  destruct (decide (E2D.db_max_count r = 0%Z)) as [Hz|Hnz].
  - rewrite Hz in Hrows. apply db_rows_zero in Hrows as [_ ->]. done.
  - split; [|done].
    apply db_rows_nonzero in Hrows as (rows0 & _ & Hloop); [|done].
    set (n := Z.to_nat (E2D.db_max_count r)) in *.
    set (image_number := (Z.of_nat (image_set_index m) + image_set_start_number m)%Z) in *.
    change (Forall (real_mismatch self m image_number n)
              (E2D.db_object_rows r, E2D.db_warnings r).2).
    eapply (object_features_invariant self m image_number
              (fun st => Forall (real_mismatch self m image_number n) st.2));
      [| |exact Hloop]; [|by apply Forall_nil_2].
    intros obname cols col [rows1 ws1] [rows2 ws2] Hcols Hcol Himg Hexp Hws Hstep.
    apply db_object_feature_Done in Hstep as (values & Hvalues & -> & _).
    simpl in *. apply Forall_app. split; [done|].
    destruct (decide (length values = n)) as [|Hne]; [by apply Forall_nil_2|].
    apply Forall_singleton. by exists obname, cols, col, values.
Qed.

Lemma diagnostics_report_real_mismatches_witness :
  let m := sample_source (VInt 3) (VFloat (float_of_Z 3))
             [float_of_Z 5; float_of_Z 7] in
  ∃ r,
    E2D.write_data_to_db sample_escape_string sample_float_str sample_self m = Done r
    ∧ E2D.db_warnings r = [mismatch (s "Nuclei_AreaShape_Area") 1 2 3]
    ∧ Forall
        (real_mismatch sample_self m
           (Z.of_nat (image_set_index m) + image_set_start_number m)
           (Z.to_nat (E2D.db_max_count r)))
        (E2D.db_warnings r).
Proof.
  intros m.
  destruct (E2D.write_data_to_db sample_escape_string sample_float_str sample_self m)
    as [r| |] eqn:Hrun; [|by vm_compute in Hrun..].
  exists r. split; [done|]. split.
  - vm_compute in Hrun. injection Hrun as <-. vm_compute. reflexivity.
  - exact (proj1 (diagnostics_report_real_mismatches sample_escape_string
                    sample_float_str sample_self m r Hrun)).
Defined.

(** *** Columns of [col_dict] that have no place in the object rows *)

Lemma scatter_missing (n : nat) (order : gmap str nat) (name : str)
    (values : list spec_float) (rows rows' : list (list E2D.object_cell)) :
  0 < n → order !! name = None →
  for_each
    (fun object_rows i =>
       c ← Py.getitem order name;
       v ← Py.index values i;
       setitem2 object_rows i c (E2D.Cell (VFloat v) cpmeas.COLTYPE_FLOAT))
    (seq 0 n) rows
  ≠ Done rows'.
Proof.
  intros Hn Hname. destruct n as [|n]; [lia|].
  assert (Py.getitem order name = Raise KeyError) as Hget
    by (unfold Py.getitem; by rewrite Hname).
  cbn [seq for_each]. rewrite Hget. discriminate.
Qed.

Lemma missing_column_stops (escape_string : str → str)
    (float_str : spec_float → str) (self : E2D.t) (m : measurements)
    (r : E2D.db_result) (obname : str) (cols : list E2D.column_def)
    (col : E2D.column_def) :
  E2D.write_data_to_db escape_string float_str self m = Done r →
  E2D.col_dict self !! obname = Some cols → col ∈ cols →
  obname ≠ cpmeas.IMAGE → obname ≠ cpmeas.EXPERIMENT →
  E2D.object_col_order self !! fmt2 obname col.1.2 = None →
  E2D.db_max_count r = 0%Z.
Proof.
  intros Hrun Hcols Hcol Himg Hexp Hmissing.
  pose proof (max_count_nonneg _ _ _ _ _ Hrun) as Hmc.
  apply write_data_to_db_inv in Hrun as (row0 & row1 & cells & _ & Hrows & _).
  destruct (decide (E2D.db_max_count r = 0%Z)) as [|Hnz]; [done|]. exfalso.
  apply db_rows_nonzero in Hrows as (rows0 & _ & Hloop); [|done].
  eapply for_each_Done_elem in Hloop as (st & st' & Hitem);
    [|by apply elem_of_map_to_list].
  cbv beta iota in Hitem. rewrite decide_False in Hitem by tauto.
  eapply for_each_Done_elem in Hitem as ([rows1 ws1] & [rows2 ws2] & Hstep);
    [|exact Hcol].
  apply db_object_feature_Done in Hstep as (values & _ & _ & Hscatter).
  revert Hscatter. apply scatter_missing; [lia|done].
Qed.

(** X12: the loop over the object columns of [write_data_to_db] takes the
    columns from [col_dict], which the feature filter has not touched, and
    their places from [object_col_order], which holds the exported
    features only.  So when [col_dict] holds, outside [Image] and
    [Experiment], a column without a place, a call returns only for an
    image set whose count is zero; after [create_database_tables] that is
    the case for every catalog with a feature of an object class that the
    filter leaves out and that shares its column name with no exported
    feature. *)
Theorem filtered_object_feature_stops_export (escape_string : str → str)
    (float_str : spec_float → str) (self : E2D.t) (m : measurements)
    (r : E2D.db_result) :
  E2D.write_data_to_db escape_string float_str self m = Done r →
  (∀ obname cols col,
     E2D.col_dict self !! obname = Some cols → col ∈ cols →
     obname ≠ cpmeas.IMAGE → obname ≠ cpmeas.EXPERIMENT →
     E2D.object_col_order self !! fmt2 obname col.1.2 = None →
     E2D.db_max_count r = 0%Z)
  ∧ (∀ settings column_defs (cd : E2D.column_def),
       self = E2D.self_after (E2D.create_database_tables settings column_defs) →
       cd ∈ column_defs → cd.1.1 ≠ cpmeas.IMAGE → cd.1.1 ≠ cpmeas.EXPERIMENT →
       E2D.ignore_feature cd.1.1 cd.1.2 = true →
       Forall (fun cd' : E2D.column_def =>
                 fmt2 cd'.1.1 cd'.1.2 ≠ fmt2 cd.1.1 cd.1.2)
         (retained_object_pairs column_defs) →
       E2D.db_max_count r = 0%Z).
Proof.
  intros Hrun. split.
  - intros obname cols col. by eapply missing_column_stops.
  - intros settings column_defs cd -> Hcd Himg Hexp Hignored Hfree.
    pose proof (col_dict_groups_lookup settings column_defs cd Hcd Hexp)
      as (cols & Hcols & Hin).
    eapply missing_column_stops; [exact Hrun|exact Hcols|exact Hin|done..|].
    destruct (schema_layout settings column_defs) as [(_ & _ & _ & Hkeys) _].
    apply eq_None_not_Some. intros (cd' & Hcd' & Heq)%Hkeys.
    rewrite Forall_forall in Hfree. by apply (Hfree cd' Hcd').
Qed.

Lemma filtered_object_feature_stops_export_witness :
  let stain := (s "Nuclei", s "Description_Stain", s "varchar(20)") in
  let areas := [float_of_Z 5; float_of_Z 7] in
  (∃ r,
     E2D.write_data_to_db sample_escape_string sample_float_str annotated_self
       (sample_source (VInt 0) (VInt 0) areas) = Done r
     ∧ E2D.db_max_count r = 0%Z)
  ∧ stain ∈ annotated_catalog
  ∧ E2D.ignore_feature stain.1.1 stain.1.2 = true
  ∧ E2D.write_data_to_db sample_escape_string sample_float_str annotated_self
      (sample_source (VInt 2) (VInt 0) areas) = Raise KeyError.
Proof.
  intros stain areas. split; [|split; [by_eval|split; [reflexivity|]]].
  - destruct (E2D.write_data_to_db sample_escape_string sample_float_str
                annotated_self (sample_source (VInt 0) (VInt 0) areas))
      as [r| |] eqn:Hrun; [|by vm_compute in Hrun..].
    exists r. split; [done|].
    apply (proj2 (filtered_object_feature_stops_export sample_escape_string
                    sample_float_str annotated_self _ r Hrun)
             sample_settings annotated_catalog stain);
      [reflexivity|by_eval|by vm_compute|by vm_compute|reflexivity|by_eval].
  - vm_compute. reflexivity.
Defined.

(** *** The columns of the two [INSERT] statements *)

Lemma write_data_to_db_columns (escape_string : str → str)
    (float_str : spec_float → str) (self : E2D.t) (m : measurements)
    (r : E2D.db_result) :
  E2D.write_data_to_db escape_string float_str self m = Done r →
  ∃ row0 row1 ocols0 cells,
    setitem (replicate (size (E2D.image_col_order self) + 1) None) 0
      (Some (VInt (Z.of_nat (image_set_index m) + image_set_start_number m),
             cpmeas.COLTYPE_INTEGER, s "ImageNumber"))
    = Done row0
    ∧ match E2D.col_dict self !! cpmeas.IMAGE with
      | Some cols =>
          for_each (E2D.db_image_feature self m (image_set_index m)) cols (row0, 0%Z)
      | None => Done (row0, 0%Z)
      end = Done (row1, E2D.db_max_count r)
    ∧ for_each
        (fun object_cols (kv : str * nat) => setitem object_cols kv.2 (Some kv.1))
        (map_to_list (E2D.object_col_order self))
        ([Some (s "ImageNumber"); Some (s "ObjectNumber")]
           ++ replicate (size (E2D.object_col_order self)) None)
      = Done ocols0
    ∧ E2D.db_rows self m (Z.of_nat (image_set_index m) + image_set_start_number m)
        (E2D.db_max_count r) row1
      = Done (E2D.db_image_row r, E2D.db_object_rows r, E2D.db_warnings r)
    ∧ Forall2 (fun (cell : E2D.image_cell) c => cell = Some c)
        (E2D.db_image_row r) cells
    ∧ (E2D.db_image_insert r).1 = cells.*2
    ∧ length (E2D.db_image_insert r).2 = length cells
    ∧ Forall2 (fun (c : option str) name => c = Some name) ocols0
        (E2D.db_object_cols r).
Proof.
  intros Hrun. unfold E2D.write_data_to_db in Hrun.
  apply bind_Done in Hrun as (row0 & Hrow0 & Hrun).
  apply bind_Done in Hrun as ([row1 max_count] & Himage & Hrun).
  apply bind_Done in Hrun as (ocols0 & Hocols0 & Hrun).
  apply bind_Done in Hrun as ([[row2 orows] ws] & Hrows & Hrun).
  apply bind_Done in Hrun as (cells & Hcells & Hrun).
  apply bind_Done in Hrun as (ocols & Hocols & Hrun).
  apply bind_Done in Hrun as (ex & Hex & [= <-]).
  exists row0, row1, ocols0, cells. cbn [E2D.db_max_count E2D.db_image_row
    E2D.db_object_rows E2D.db_warnings E2D.db_image_insert E2D.db_object_cols
    fst snd].
  split; [done|]. split; [done|]. split; [done|]. split; [done|].
  split; [|split; [done|split; [by rewrite length_fmap|]]].
  - apply map_each_Done in Hcells. eapply Forall2_impl; [exact Hcells|].
    intros [c|] c' Hc; simpl in Hc; congruence.
  - apply map_each_Done in Hocols. eapply Forall2_impl; [exact Hocols|].
    intros [c|] c' Hc; simpl in Hc; congruence.
Qed.

Lemma image_cell_set (order : gmap str nat) (width c : nat)
    (row row' : list E2D.image_cell) (v : scalar) (t name : str) :
  image_cells_placed order width row →
  (c = 0 ∧ name = s "ImageNumber") ∨ order !! name = Some c →
  setitem row c (Some (v, t, name)) = Done row' →
  image_cells_placed order width row'.
Proof.
  intros [Hlen Hrow] Hc [Hlt ->]%setitem_Done. split; [by rewrite length_insert|].
  intros i v' t' name' Hi. destruct (decide (i = c)) as [->|Hne].
  - rewrite list_lookup_insert_eq in Hi by done. by injection Hi as <- <- <-.
  - rewrite list_lookup_insert_ne in Hi by done. by eapply Hrow.
Qed.

Section ImageRow.

Variable self : E2D.t.
Variable m : measurements.
Variable width : nat.

Lemma db_image_feature_placed (index : nat) (st st' : list E2D.image_cell * Z)
    (m_col : E2D.column_def) :
  image_cells_placed (E2D.image_col_order self) width st.1 →
  E2D.db_image_feature self m index st m_col = Done st' →
  image_cells_placed (E2D.image_col_order self) width st'.1.
Proof.
  destruct st as [row mc]. unfold E2D.db_image_feature. intros Hrow Hrun.
  apply bind_Done in Hrun as (v & _ & Hrun).
  destruct (E2D.image_col_order self !! _) as [c|] eqn:Hc;
    [|by injection Hrun as <-].
  apply bind_Done in Hrun as (row' & Hset & Hrun).
  eapply image_cell_set in Hset; [|exact Hrow|by right].
  destruct (contains _ _); [|by injection Hrun as <-].
  by apply bind_Done in Hrun as (cnt & _ & [= <-]).
Qed.

Lemma db_zero_aggregates_placed (row row' : list E2D.image_cell) :
  image_cells_placed (E2D.image_col_order self) width row →
  E2D.db_zero_aggregates self row = Done row' →
  image_cells_placed (E2D.image_col_order self) width row'.
Proof.
  intros Hrow. unfold E2D.db_zero_aggregates.
  apply (for_each_invariant (image_cells_placed (E2D.image_col_order self) width));
    [|done].
  intros row1 [obname cols] row2 _ Hrow1. cbv beta iota.
  destruct (decide (obname = cpmeas.IMAGE)); [by intros [= <-]|].
  apply (for_each_invariant (image_cells_placed (E2D.image_col_order self) width));
    [|done].
  intros row3 col row4 _ Hrow3.
  apply (for_each_invariant (image_cells_placed (E2D.image_col_order self) width));
    [|done].
  intros row5 agg row6 _ Hrow5. cbv beta zeta.
  destruct (E2D.image_col_order self !! _) as [c|] eqn:Hc; [|by intros [= <-]].
  intros Hset. eapply image_cell_set; [exact Hrow5| |exact Hset]. by right.
Qed.

Lemma db_aggregates_placed (agg_dict : list (str * scalar))
    (row row' : list E2D.image_cell) :
  image_cells_placed (E2D.image_col_order self) width row →
  E2D.db_aggregates self agg_dict row = Done row' →
  image_cells_placed (E2D.image_col_order self) width row'.
Proof.
  intros Hrow. unfold E2D.db_aggregates.
  apply (for_each_invariant (image_cells_placed (E2D.image_col_order self) width));
    [|done].
  intros row1 [name v] row2 _ Hrow1. cbv beta iota.
  destruct (E2D.image_col_order self !! _) as [c|] eqn:Hc; [|by intros [= <-]].
  intros Hset. eapply image_cell_set; [exact Hrow1| |exact Hset]. by right.
Qed.

Lemma db_rows_placed (image_number max_count : Z) (row row' : list E2D.image_cell)
    (rows : list (list E2D.object_cell)) (ws : list E2D.warning) :
  image_cells_placed (E2D.image_col_order self) width row →
  E2D.db_rows self m image_number max_count row = Done (row', rows, ws) →
  image_cells_placed (E2D.image_col_order self) width row'.
Proof.
  intros Hrow. unfold E2D.db_rows. destruct (decide (max_count = 0%Z)).
  - intros (row1 & Hzero & [= <- _ _])%bind_Done.
    by eapply db_zero_aggregates_placed.
  - intros (row1 & Hagg & Hrun)%bind_Done.
    apply bind_Done in Hrun as (rows0 & _ & Hrun).
    apply bind_Done in Hrun as ([rows1 ws1] & _ & [= <- _ _]).
    by eapply db_aggregates_placed.
Qed.

End ImageRow.

Lemma object_cols_loop_placed (order : gmap str nat) (ocols : list (option str)) :
  for_each
    (fun object_cols (kv : str * nat) => setitem object_cols kv.2 (Some kv.1))
    (map_to_list order)
    ([Some (s "ImageNumber"); Some (s "ObjectNumber")]
       ++ replicate (size order) None)
  = Done ocols →
  object_cols_placed order (size order + 2) ocols.
Proof.
  apply (for_each_invariant (object_cols_placed order (size order + 2))).
  - intros cols [k c] cols' Hkc%elem_of_map_to_list [Hlen Hcols]
      [Hlt ->]%setitem_Done. simpl in *.
    split; [by rewrite length_insert|]. intros i name Hi.
    destruct (decide (i = c)) as [->|Hne].
    + rewrite list_lookup_insert_eq in Hi by done. injection Hi as <-. tauto.
    + rewrite list_lookup_insert_ne in Hi by done. by apply Hcols.
  - split; [rewrite length_app, length_replicate; simpl; lia|].
    intros i name Hi. destruct i as [|[|i]]; simpl in Hi.
    + injection Hi as <-. tauto.
    + injection Hi as <-. tauto.
    + by apply lookup_replicate in Hi as [? _].
Qed.

(** The image columns and the object columns of the two [INSERT]
    statements, for any column orders. *)
Lemma insert_columns_placed (escape_string : str → str)
    (float_str : spec_float → str) (self : E2D.t) (m : measurements)
    (r : E2D.db_result) :
  E2D.write_data_to_db escape_string float_str self m = Done r →
  (length (E2D.db_image_insert r).1 = size (E2D.image_col_order self) + 1
   ∧ length (E2D.db_image_insert r).2 = size (E2D.image_col_order self) + 1
   ∧ ∀ i name, (E2D.db_image_insert r).1 !! i = Some name →
       (i = 0 ∧ name = s "ImageNumber") ∨ E2D.image_col_order self !! name = Some i)
  ∧ (length (E2D.db_object_cols r) = size (E2D.object_col_order self) + 2
     ∧ ∀ i name, E2D.db_object_cols r !! i = Some name →
         (i = 0 ∧ name = s "ImageNumber") ∨ (i = 1 ∧ name = s "ObjectNumber")
         ∨ E2D.object_col_order self !! name = Some i).
Proof.
  intros (row0 & row1 & ocols0 & cells & Hrow0 & Himage & Hocols0 & Hrows
          & Hcells & Hnames & Hvalues & Hocols)%write_data_to_db_columns.
  set (ico := E2D.image_col_order self) in *. set (w := size ico + 1) in *.
  assert (image_cells_placed ico w row0) as Hp0.
  { eapply image_cell_set; [|by left|exact Hrow0].
    split; [by rewrite length_replicate|].
    by intros i v t name [? _]%lookup_replicate. }
  assert (image_cells_placed ico w row1) as Hp1.
  { destruct (E2D.col_dict self !! cpmeas.IMAGE) as [cols|];
      [|by injection Himage as <- _].
    change (image_cells_placed ico w (row1, E2D.db_max_count r).1).
    revert Himage.
    apply (for_each_invariant
             (fun st : list E2D.image_cell * Z => image_cells_placed ico w st.1));
      [|done].
    intros st x st' _ Hst Hstep. by eapply db_image_feature_placed. }
  eapply db_rows_placed in Hrows as [Hlen Hrow]; [|exact Hp1].
  apply object_cols_loop_placed in Hocols0 as [Holen Hocol].
  split; [split; [|split]|split].
  - rewrite Hnames, length_fmap, <- (Forall2_length _ _ _ Hcells). done.
  - rewrite Hvalues, <- (Forall2_length _ _ _ Hcells). done.
  - intros i name Hi. rewrite Hnames, list_lookup_fmap in Hi.
    destruct (cells !! i) as [[[v t] name']|] eqn:Hcell; [|done].
    injection Hi as ->.
    destruct (Forall2_lookup_r _ _ _ _ _ Hcells Hcell) as (cell & Hcell' & ->).
    by eapply Hrow.
  - by rewrite <- (Forall2_length _ _ _ Hocols).
  - intros i name Hi.
    destruct (Forall2_lookup_r _ _ _ _ _ Hocols Hi) as (c & Hc & ->).
    by apply Hocol.
Qed.

Lemma prefix_by_lookup {A : Type} (l1 l2 : list A) :
  length l1 = length l2 → (∀ i x, l1 !! i = Some x → l2 !! i = Some x) → l1 = l2.
Proof.
  intros Hlen Hlook. apply list_eq. intros i.
  destruct (l1 !! i) as [x|] eqn:Hi.
  - symmetry. by apply Hlook.
  - symmetry. apply lookup_ge_None. apply lookup_ge_None in Hi. lia.
Qed.

(** X13: after [create_database_tables], the columns that a call of
    [write_data_to_db] names in its two [INSERT] statements are, position
    by position, the columns of the [CREATE TABLE] statements; the image
    [INSERT] has as many values as columns; and when the column names of a
    table are distinct the [INSERT] names all of them, in the order of the
    table. *)
Theorem insert_columns_follow_tables (escape_string : str → str)
    (float_str : spec_float → str) (settings : E2D.t)
    (column_defs : list E2D.column_def) (m : measurements) (r : E2D.db_result) :
  let tb := E2D.create_database_tables settings column_defs in
  E2D.write_data_to_db escape_string float_str (E2D.self_after tb) m = Done r →
  ((∀ i name, (E2D.db_image_insert r).1 !! i = Some name →
      (E2D.image_statement tb).*1 !! i = Some name)
   ∧ length (E2D.db_image_insert r).2 = length (E2D.db_image_insert r).1
   ∧ (NoDup (E2D.image_statement tb).*1 →
      (E2D.db_image_insert r).1 = (E2D.image_statement tb).*1))
  ∧ ((∀ i name, E2D.db_object_cols r !! i = Some name →
        (E2D.object_statement tb).*1 !! i = Some name)
     ∧ (NoDup (E2D.object_statement tb).*1 →
        E2D.db_object_cols r = (E2D.object_statement tb).*1)).
Proof.
  intros tb Hrun.
  apply insert_columns_placed in Hrun
    as [(Hilen & Hivals & Hicols) (Holen & Hocols)].
  destruct (schema_layout settings column_defs)
    as [(Hoc & Hop & Hoh & _) (Hic & Hip & Hih)].
  fold tb in Hoc, Hop, Hoh, Hic, Hip, Hih.
  assert (∀ i name, (E2D.db_image_insert r).1 !! i = Some name →
            (E2D.image_statement tb).*1 !! i = Some name) as Himage.
  { intros i name [[-> ->]|Hi]%Hicols.
    - assert (take 1 (E2D.image_statement tb).*1 !! 0 = Some (s "ImageNumber")) as H0
        by by rewrite <- fmap_take, Hih.
      by rewrite lookup_take_lt in H0 by lia.
    - by apply Hip in Hi as [_ ?]. }
  assert (∀ i name, E2D.db_object_cols r !! i = Some name →
            (E2D.object_statement tb).*1 !! i = Some name) as Hobject.
  { assert (take 2 (E2D.object_statement tb).*1
            = [s "ImageNumber"; s "ObjectNumber"]) as Hhead
      by by rewrite <- fmap_take, Hoh.
    intros i name [[-> ->]|[[-> ->]|Hi]]%Hocols.
    - apply (f_equal (fun l => l !! 0)) in Hhead.
      by rewrite lookup_take_lt in Hhead by lia.
    - apply (f_equal (fun l => l !! 1)) in Hhead.
      by rewrite lookup_take_lt in Hhead by lia.
    - by apply Hop in Hi as [_ ?]. }
  split; (split; [done|]).
  - split; [lia|]. intros Hnd. apply prefix_by_lookup; [|done].
    rewrite Hilen, length_fmap.
    rewrite (placed_size 1 _ _ Hip) by by apply NoDup_drop.
    assert (length (take 1 (E2D.image_statement tb)) = 1) as Hlen by by rewrite Hih.
    rewrite length_take in Hlen. lia.
  - intros Hnd. apply prefix_by_lookup; [|done].
    rewrite Holen, length_fmap.
    rewrite (placed_size 2 _ _ Hop) by by apply NoDup_drop.
    assert (length (take 2 (E2D.object_statement tb)) = 2) as Hlen by by rewrite Hoh.
    rewrite length_take in Hlen. lia.
Qed.

Lemma insert_columns_follow_tables_witness :
  let tb := E2D.create_database_tables sample_settings sample_catalog in
  let m := sample_source (VInt 2) (VFloat (float_of_Z 3))
             [float_of_Z 5; float_of_Z 7] in
  ∃ r,
    E2D.write_data_to_db sample_escape_string sample_float_str (E2D.self_after tb) m
    = Done r
    ∧ (E2D.db_image_insert r).1 = (E2D.image_statement tb).*1
    ∧ E2D.db_object_cols r = (E2D.object_statement tb).*1.
Proof.
  intros tb m.
  destruct (E2D.write_data_to_db sample_escape_string sample_float_str
              (E2D.self_after tb) m) as [r| |] eqn:Hrun; [|by vm_compute in Hrun..].
  exists r. split; [done|].
  destruct (insert_columns_follow_tables sample_escape_string sample_float_str
              sample_settings sample_catalog m r Hrun)
    as [(_ & _ & Himage) (_ & Hobject)].
  split; [apply Himage|apply Hobject]; by_eval.
Defined.

(** ** Further properties of [write_data] *)

Lemma for_each_count {A T : Type} (f : T → nat) (body : T → A → outcome T)
    (l : list A) (acc acc' : T) :
  (∀ st x st', body st x = Done st' → f st' = S (f st)) →
  for_each body l acc = Done acc' → f acc' = f acc + length l.
Proof.
  intros Hstep. revert acc. induction l as [|x l IH]; intros acc Hrun.
  - injection Hrun as <-. simpl. lia.
  - simpl in Hrun. apply bind_Done in Hrun as (st & Hst & Hrun).
    rewrite (IH _ Hrun), (Hstep _ _ _ Hst). simpl. lia.
Qed.

Lemma setitem_length {A : Type} (row row' : list A) (c : nat) (x : A) :
  setitem row c x = Done row' → length row' = length row.
Proof. intros [_ ->]%setitem_Done. by rewrite length_insert. Qed.

Lemma setitem2_shape {A : Type} (w : nat) (rows rows' : list (list A))
    (i j : nat) (x : A) :
  setitem2 rows i j x = Done rows' →
  length rows' = length rows
  ∧ (Forall (fun row => length row = w) rows →
     Forall (fun row => length row = w) rows').
Proof.
  intros (row & Hrow & Hj & ->)%setitem2_Done.
  split; [by rewrite length_insert|]. intros Hshape.
  apply Forall_insert; [done|]. rewrite length_insert.
  rewrite Forall_forall in Hshape. apply Hshape. by eapply list_elem_of_lookup_2.
Qed.

Lemma setcolumn_shape {A : Type} (w width : nat) (rows rows' : list (list A))
    (n j : nat) (values : list A) :
  setcolumn width rows n j values = Done rows' →
  length rows = length rows' ∧
  (Forall (fun row => length row = w) rows →
   Forall (fun row => length row = w) rows').
Proof.
  unfold setcolumn. destruct (decide (j < width)); [|done].
  set (P := fun rs : list (list A) =>
              length rows = length rs
              ∧ (Forall (fun row => length row = w) rows →
                 Forall (fun row => length row = w) rs)).
  assert (P rows) as HP by done.
  destruct (decide (length values = n `min` length rows)).
  - apply (for_each_invariant P); [|done].
    intros rs i rs' _ [Hlen Hshape] (v & _ & Hset)%bind_Done.
    apply (setitem2_shape w) in Hset as [Hlen' Hshape'].
    split; [congruence|]. auto.
  - destruct values as [|v [|? ?]]; [done| |done].
    apply (for_each_invariant P); [|done].
    intros rs i rs' _ [Hlen Hshape] Hset.
    apply (setitem2_shape w) in Hset as [Hlen' Hshape'].
    split; [congruence|]. auto.
Qed.

Section FileRows.

Variable escape_string : str → str.
Variable self : E2D.t.
Variable m : measurements.
Variables per_image per_object : gmap str nat.

Lemma csv_image_feature_length (i : nat) (st st' : list scalar * Z) (feature : str) :
  E2D.csv_image_feature escape_string m per_image i st feature = Done st' →
  length st'.1 = length st.1.
Proof.
  destruct st as [row mc]. unfold E2D.csv_image_feature.
  destruct (E2D.ignore_feature _ _); [by intros [= <-]|].
  intros (v & _ & Hrun)%bind_Done.
  apply bind_Done in Hrun as (c & _ & Hrun).
  apply bind_Done in Hrun as (row' & Hset%setitem_length & Hrun).
  destruct (contains _ _); [|by injection Hrun as <-].
  by apply bind_Done in Hrun as (cnt & _ & [= <-]).
Qed.

Lemma csv_zero_aggregates_length (row row' : list scalar) :
  E2D.csv_zero_aggregates self m per_image row = Done row' →
  length row' = length row.
Proof.
  unfold E2D.csv_zero_aggregates.
  apply (for_each_invariant (fun r : list scalar => length r = length row)); [|done].
  intros row1 object_name row2 _ Hrow1.
  destruct (decide (object_name = s "Image")); [by intros [= <-]|].
  apply (for_each_invariant (fun r : list scalar => length r = length row)); [|done].
  intros row3 feature row4 _ Hrow3.
  destruct (E2D.ignore_feature _ _); [by intros [= <-]|].
  apply (for_each_invariant (fun r : list scalar => length r = length row)); [|done].
  intros row5 agg row6 _ Hrow5 (c & _ & Hset%setitem_length)%bind_Done. congruence.
Qed.

Lemma csv_object_feature_shape (w per_object_cols i : nat) (image_number : Z)
    (max_count : nat) (object_name : str)
    (st st' : list (list spec_float) * list E2D.warning) (feature : str) :
  E2D.csv_object_feature m per_object per_object_cols i image_number max_count
    object_name st feature = Done st' →
  length st.1 = length st'.1
  ∧ (Forall (fun row => length row = w) st.1 →
     Forall (fun row => length row = w) st'.1).
Proof.
  destruct st as [rows ws]. unfold E2D.csv_object_feature.
  destruct (E2D.ignore_feature _ _); [by intros [= <-]|].
  intros (values & _ & Hrun)%bind_Done. rewrite csv_reconcile in Hrun.
  apply bind_Done in Hrun as (c & _ & Hrun).
  apply bind_Done in Hrun as (rows' & Hset & [= <-]).
  by apply (setcolumn_shape w) in Hset.
Qed.

(** One image set of the file path: the shape of its rows. *)
Lemma csv_image_set_shape (per_image_cols per_object_cols i : nat)
    (r : E2D.csv_result) :
  E2D.csv_image_set escape_string self m per_image per_object per_image_cols
    per_object_cols i = Done r →
  length (E2D.csv_image_row r) = per_image_cols
  ∧ length (E2D.csv_object_rows r) = Z.to_nat (E2D.csv_max_count r)
  ∧ Forall (fun row => length row = per_object_cols) (E2D.csv_object_rows r).
Proof.
  unfold E2D.csv_image_set.
  intros (c & _ & Hrun)%bind_Done.
  apply bind_Done in Hrun as (row0 & Hrow0%setitem_length & Hrun).
  rewrite length_replicate in Hrow0.
  apply bind_Done in Hrun as ([row1 max_count] & Himage & Hrun).
  assert (length row1 = per_image_cols) as Hrow1.
  { change (length (row1, max_count).1 = per_image_cols). revert Himage.
    apply (for_each_invariant
             (fun st : list scalar * Z => length st.1 = per_image_cols)); [|done].
    intros st x st' _ Hst Hstep%csv_image_feature_length. congruence. }
  destruct (decide (max_count = 0%Z)) as [->|Hnz].
  - apply bind_Done in Hrun as (row2 & Hzero%csv_zero_aggregates_length & [= <-]).
    simpl. split; [congruence|done].
  - apply bind_Done in Hrun as (row2 & Hagg & Hrun).
    assert (length row2 = per_image_cols) as Hrow2.
    { revert Hagg.
      apply (for_each_invariant (fun r : list scalar => length r = per_image_cols));
        [|done].
      intros r1 item r2 _ Hr1 (c' & _ & Hset%setitem_length)%bind_Done. congruence. }
    apply bind_Done in Hrun as (c1 & _ & Hrun).
    apply bind_Done in Hrun as (rows1 & Hset1 & Hrun).
    apply (setcolumn_shape per_object_cols) in Hset1 as [Hlen1 Hshape1].
    apply bind_Done in Hrun as (c2 & _ & Hrun).
    apply bind_Done in Hrun as (rows2 & Hset2 & Hrun).
    apply (setcolumn_shape per_object_cols) in Hset2 as [Hlen2 Hshape2].
    apply bind_Done in Hrun as ([rows3 ws] & Hloop & [= <-]). simpl.
    rewrite length_replicate in Hlen1.
    assert (length rows3 = Z.to_nat max_count
            ∧ Forall (fun row => length row = per_object_cols) rows3) as [? ?].
    { set (P := fun st : list (list spec_float) * list E2D.warning =>
                  length st.1 = Z.to_nat max_count
                  ∧ Forall (fun row => length row = per_object_cols) st.1).
      change (P (rows3, ws)). revert Hloop. apply (for_each_invariant P).
      - intros st object_name st' _ Hst.
        destruct (decide (object_name = s "Image")); [by intros [= <-]|].
        apply (for_each_invariant P); [|done].
        intros st1 feature st2 _ [Hlen Hshape]
          [Hlen' Hshape']%(csv_object_feature_shape per_object_cols).
        split; [congruence|auto].
      - split; simpl; [congruence|]. apply Hshape2, Hshape1.
        apply Forall_replicate. by rewrite length_replicate. }
    done.
Qed.

End FileRows.

(** The lines of the two files, for rows of given widths. *)
Lemma write_data_lines_shape (escape_string : str → str)
    (float_str : spec_float → str) (self : E2D.t) (m : measurements)
    (per_image per_object : gmap str nat) (per_image_cols per_object_cols : nat)
    (files : E2D.csv_files) :
  for_each
    (fun files i =>
       r ← E2D.csv_image_set escape_string self m per_image per_object
             per_image_cols per_object_cols i;
       Done {| E2D.per_image_file :=
                 E2D.per_image_file files
                   ++ [E2D.writerow float_str E2D.QUOTE_NONNUMERIC
                         (E2D.csv_image_row r)];
               E2D.per_object_file :=
                 E2D.per_object_file files
                   ++ ((fun row =>
                          E2D.writerow float_str E2D.QUOTE_MINIMAL (VFloat <$> row))
                         <$> E2D.csv_object_rows r);
               E2D.file_warnings := E2D.file_warnings files ++ E2D.csv_warnings r |})
    (seq 0 (image_set_index m + 1)) (E2D.CsvFiles [] [] [])
  = Done files →
  length (E2D.per_image_file files) = image_set_index m + 1
  ∧ Forall (fun line => length line = per_image_cols) (E2D.per_image_file files)
  ∧ Forall (fun line => length line = per_object_cols) (E2D.per_object_file files).
Proof.
  intros Hrun. split.
  - apply (for_each_count (fun files => length (E2D.per_image_file files))) in Hrun.
    + rewrite Hrun, length_seq. done.
    + intros st i st' (r & _ & [= <-])%bind_Done. simpl.
      rewrite length_app. simpl. lia.
  - change ((fun files =>
               Forall (fun line => length line = per_image_cols)
                 (E2D.per_image_file files)
               ∧ Forall (fun line => length line = per_object_cols)
                   (E2D.per_object_file files)) files).
    revert Hrun. apply for_each_invariant; [|by split; apply Forall_nil_2].
    intros st i st' _ [Himage Hobject] (r & Hset & [= <-])%bind_Done. simpl.
    apply csv_image_set_shape in Hset as (Hrow & _ & Hrows).
    split; apply Forall_app; (split; [done|]).
    + apply Forall_singleton. unfold E2D.writerow. by rewrite length_fmap.
    + apply Forall_fmap. eapply Forall_impl; [exact Hrows|].
      intros row Hlen. simpl. unfold E2D.writerow. by rewrite !length_fmap.
Qed.

(** X14: a call of [write_data] that returns has written one line to the
    image file for every image set up to the current one, each with one
    field for every column index up to the largest of [per_image], and
    lines to the object file that each have one field for every column
    index up to the largest of [per_object]. *)
Theorem file_lines_have_table_width (escape_string : str → str)
    (float_str : spec_float → str) (self : E2D.t) (m : measurements)
    (per_image per_object : gmap str nat) (files : E2D.csv_files) :
  E2D.write_data escape_string float_str self m per_image per_object = Done files →
  ∃ image_max object_max,
    E2D.max_value per_image = Done image_max
    ∧ E2D.max_value per_object = Done object_max
    ∧ length (E2D.per_image_file files) = image_set_index m + 1
    ∧ Forall (fun line => length line = image_max + 1) (E2D.per_image_file files)
    ∧ Forall (fun line => length line = object_max + 1) (E2D.per_object_file files).
Proof.
  unfold E2D.write_data. intros (image_max & Himax & Hrun)%bind_Done.
  apply bind_Done in Hrun as (object_max & Homax & Hrun).
  exists image_max, object_max. split; [exact Himax|]. split; [exact Homax|].
  exact (write_data_lines_shape escape_string float_str self m per_image
           per_object (image_max + 1) (object_max + 1) files Hrun).
Qed.

Lemma file_lines_have_table_width_witness :
  ∃ files,
    E2D.write_data sample_escape_string sample_float_str sample_self
      (sample_source (VInt 2) (VStr (s "dim")) [float_of_Z 1; float_of_Z 3])
      sample_per_image sample_per_object = Done files
    ∧ length (E2D.per_image_file files) = 1
    ∧ Forall (fun line => length line = 4) (E2D.per_image_file files)
    ∧ Forall (fun line => length line = 3) (E2D.per_object_file files).
Proof.
  destruct (E2D.write_data sample_escape_string sample_float_str sample_self
              (sample_source (VInt 2) (VStr (s "dim")) [float_of_Z 1; float_of_Z 3])
              sample_per_image sample_per_object) as [files| |] eqn:Hrun;
    [|by vm_compute in Hrun..].
  exists files. split; [done|].
  destruct (file_lines_have_table_width _ _ _ _ _ _ _ Hrun)
    as (image_max & object_max & Himax & Homax & Hlen & Himage & Hobject).
  assert (image_max = 3) as -> by (vm_compute in Himax; congruence).
  assert (object_max = 2) as -> by (vm_compute in Homax; congruence).
  split; [exact Hlen|]. split; [exact Himage|exact Hobject].
Defined.

(** X15: what [write_data] needs of the two column dictionaries: with an
    empty [per_image] or [per_object] the largest index does not exist and
    the call raises [ValueError]; with dictionaries that are not empty but
    without [ImageNumber] in [per_image] the first image row raises
    [KeyError]. *)
Theorem write_data_needs_columns (escape_string : str → str)
    (float_str : spec_float → str) (self : E2D.t) (m : measurements)
    (per_image per_object : gmap str nat) :
  (per_image = ∅ ∨ per_object = ∅ →
   E2D.write_data escape_string float_str self m per_image per_object
   = Raise ValueError)
  ∧ (per_image ≠ ∅ → per_object ≠ ∅ → per_image !! s "ImageNumber" = None →
     E2D.write_data escape_string float_str self m per_image per_object
     = Raise KeyError).
Proof.
  assert (∀ d : gmap str nat, d = ∅ → E2D.max_value d = Raise ValueError) as Hempty.
  { intros d ->. unfold E2D.max_value. by rewrite map_to_list_empty. }
  assert (∀ d : gmap str nat, d ≠ ∅ → ∃ c, E2D.max_value d = Done c) as Hsome.
  { intros d Hd. unfold E2D.max_value.
    destruct (map_to_list d) as [|[k c] l] eqn:Hl.
    - by apply map_to_list_empty_iff in Hl.
    - simpl. by eexists. }
  split.
  - intros [Hi|Ho]; unfold E2D.write_data.
    + by rewrite (Hempty _ Hi).
    + destruct (decide (per_image = ∅)) as [Hi|Hi]; [by rewrite (Hempty _ Hi)|].
      destruct (Hsome _ Hi) as [c ->]. by rewrite bind_Done_l, (Hempty _ Ho).
  - intros Hi Ho Hmissing. unfold E2D.write_data.
    destruct (Hsome _ Hi) as [ci ->]. destruct (Hsome _ Ho) as [co ->].
    rewrite !bind_Done_l.
    replace (image_set_index m + 1) with (S (image_set_index m)) by lia.
    cbn [seq for_each].
    assert (Py.getitem per_image (s "ImageNumber") = Raise KeyError) as Hget
      by (unfold Py.getitem; by rewrite Hmissing).
    unfold E2D.csv_image_set. by rewrite Hget.
Qed.

Lemma write_data_needs_columns_witness :
  let per_image : gmap str nat := {[ s "Image_Count_Nuclei" := 0 ]} in
  let m := sample_source (VInt 0) (VInt 0) [] in
  E2D.write_data sample_escape_string sample_float_str sample_self m ∅
    sample_per_object = Raise ValueError
  ∧ E2D.write_data sample_escape_string sample_float_str sample_self m per_image
      sample_per_object = Raise KeyError.
Proof.
  intros per_image m.
  assert (∀ (d : gmap str nat) k c, d !! k = Some c → d ≠ ∅) as Hfilled.
  { intros d k c Hk ->. by rewrite lookup_empty in Hk. }
  assert (per_image ≠ ∅) as Hi
    by (apply (Hfilled _ (s "Image_Count_Nuclei") 0); vm_compute; reflexivity).
  assert (sample_per_object ≠ ∅) as Ho
    by (apply (Hfilled _ (s "ImageNumber") 0); vm_compute; reflexivity).
  assert (per_image !! s "ImageNumber" = None) as Hmissing by by vm_compute.
  split.
  - exact (proj1 (write_data_needs_columns sample_escape_string sample_float_str
                    sample_self m ∅ sample_per_object) (or_introl eq_refl)).
  - exact (proj2 (write_data_needs_columns sample_escape_string sample_float_str
                    sample_self m per_image sample_per_object) Hi Ho Hmissing).
Defined.

(** ** Settings of an earlier revision *)

Lemma from_matlab_6_length (DO_NOT_USE YES NO : str) (setting_values : list str) :
  is_Some (E2D.from_matlab_6 DO_NOT_USE YES NO setting_values)
  ↔ 6 ≤ length setting_values.
Proof.
  destruct (decide (6 ≤ length setting_values)) as [Hlen|Hlen].
  - split; [done|]. intros _. unfold E2D.from_matlab_6.
    destruct setting_values as [|v0 [|v1 [|v2 [|v3 [|v4 [|v5 l]]]]]];
      simpl in Hlen; try lia. simpl.
    repeat (case_decide; simpl); by eexists.
  - split; [|lia]. intros [r Hr]. exfalso. unfold E2D.from_matlab_6 in Hr.
    destruct setting_values as [|v0 [|v1 [|v2 [|v3 [|v4 [|v5 l]]]]]];
      simpl in Hlen; try lia; simpl in Hr; try done;
      repeat (case_decide; simpl in Hr); done.
Qed.

(** X16: settings saved at revision 6 are never brought up to date: for
    every list of setting values, [backwards_compatibilize] raises
    [NameError], or [IndexError] when the values come from the Matlab
    version and are fewer than six. *)
Theorem revision_6_never_upgrades (DO_NOT_USE YES NO : str)
    (setting_values : list str) (module_name : str) (from_matlab : bool) :
  E2D.backwards_compatibilize DO_NOT_USE YES NO setting_values 6 module_name
    from_matlab
  = if from_matlab && bool_decide (length setting_values < 6)
    then E2D.RaisesIndexError else E2D.RaisesNameError.
Proof.
  unfold E2D.backwards_compatibilize. destruct from_matlab; simpl; [|done].
  destruct (E2D.from_matlab_6 DO_NOT_USE YES NO setting_values) as [new|] eqn:Hnew.
  - simpl. rewrite bool_decide_eq_false_2; [done|].
    assert (6 ≤ length setting_values); [|lia].
    apply (from_matlab_6_length DO_NOT_USE YES NO). by rewrite Hnew.
  - simpl. rewrite bool_decide_eq_true_2; [done|].
    destruct (decide (length setting_values < 6)); [done|].
    assert (is_Some (E2D.from_matlab_6 DO_NOT_USE YES NO setting_values)) as [? ?];
      [|congruence].
    apply from_matlab_6_length. lia.
Qed.

(** X17: at every other revision [backwards_compatibilize] returns the
    setting values and the Matlab flag as they were given; the revision
    number becomes 8 when it was 7 and the values do not come from Matlab,
    and is left alone otherwise.  In particular the three aggregate
    settings of revision 8 are not added to the values of revision 7. *)
Theorem other_revisions_keep_values (DO_NOT_USE YES NO : str)
    (setting_values : list str) (variable_revision_number : Z)
    (module_name : str) (from_matlab : bool) :
  variable_revision_number ≠ 6%Z →
  E2D.backwards_compatibilize DO_NOT_USE YES NO setting_values
    variable_revision_number module_name from_matlab
  = E2D.Returns setting_values
      (if negb from_matlab && bool_decide (variable_revision_number = 7%Z)
       then 8%Z else variable_revision_number)
      from_matlab.
Proof.
  intros Hrev. unfold E2D.backwards_compatibilize.
  rewrite (bool_decide_eq_false_2 (variable_revision_number = 6%Z)) by done.
  rewrite !andb_false_r.
  by destruct (negb from_matlab && bool_decide (variable_revision_number = 7%Z)).
Qed.

Lemma other_revisions_keep_values_witness :
  let setting_values :=
    [s "MySQL"; s "DefaultDB"; s "No"; s "Expt_"; s "SQL_"; s "Yes"; s ".";
     s "No"; s "No"; s "imgdb01"; s "cpuser"; s "cPus3r"; s "DefaultDB.db"] in
  E2D.backwards_compatibilize (s "Do not use") (s "Yes") (s "No") setting_values 7
    (s "ExportToDatabase") false
  = E2D.Returns setting_values 8 false.
Proof.
  intros setting_values.
  exact (other_revisions_keep_values (s "Do not use") (s "Yes") (s "No")
           setting_values 7 (s "ExportToDatabase") false ltac:(done)).
Defined.

(** ** The properties file *)

(** X18: the loop that [write_properties] runs to find the primary object
    passes over [Image] and the ignored objects without any effect on what
    it leaves: the primary object is the last object name of the
    measurements, whatever it is, and the count and location columns are
    named after it; without any object name nothing is bound. *)
Theorem primary_object_is_last_name (m : measurements) :
  E2D.primary_object_loop (get_object_names m) = last (get_object_names m)
  ∧ (get_object_names m = [] → E2D.properties_object_names m = None)
  ∧ ∀ names name, get_object_names m = names ++ [name] →
      E2D.properties_object_names m
      = Some {| E2D.supposed_primary_object := name;
                E2D.object_count := s "Image_Count_" ++ name;
                E2D.cell_x_loc := name ++ s "_Location_Center_X";
                E2D.cell_y_loc := name ++ s "_Location_Center_Y" |}.
Proof.
  assert (∀ names bound,
            fold_left
              (fun (bound : option str) object_name =>
                 let bound := Some object_name in
                 if decide (object_name = s "Image") then bound
                 else if E2D.ignore_object object_name then bound
                 else bound)
              names bound
            = match last names with Some name => Some name | None => bound end)
    as Hloop.
  { induction names as [|name names IH]; intros bound; [done|].
    cbn [fold_left]. rewrite IH.
    destruct names as [|name' names].
    - simpl. case_decide; [done|]. by destruct (E2D.ignore_object name).
    - change (last (name :: name' :: names)) with (last (name' :: names)).
      destruct (last (name' :: names)) as [x|] eqn:Hlast; [done|].
      by apply last_None in Hlast. }
  assert (E2D.primary_object_loop (get_object_names m) = last (get_object_names m))
    as Hlast.
  { unfold E2D.primary_object_loop. rewrite Hloop. by destruct (last _). }
  split; [done|]. unfold E2D.properties_object_names. rewrite Hlast. split.
  - by intros ->.
  - intros names name ->. by rewrite last_snoc.
Qed.

(** ** The table definitions of the file path *)

Lemma for_each_raises {A T : Type} (e : exn) (body : T → A → outcome T)
    (l : list A) (x : A) (acc : T) :
  x ∈ l → (∀ st, body st x = Raise e) →
  (∀ st y, (∃ st', body st y = Done st') ∨ body st y = Raise e) →
  for_each body l acc = Raise e.
Proof.
  intros Hx Hfail Hother. revert acc.
  induction l as [|y l IH]; intros acc; [by apply elem_of_nil in Hx|].
  simpl. apply elem_of_cons in Hx as [<-|Hx]; [by rewrite Hfail|].
  destruct (Hother acc y) as [[st' ->]| ->]; [|done].
  rewrite bind_Done_l. by apply IH.
Qed.

Lemma for_each_total {A T : Type} (P : T → Prop) (body : T → A → outcome T)
    (l : list A) (acc : T) :
  P acc →
  (∀ st x, x ∈ l → P st → ∃ st', body st x = Done st' ∧ P st') →
  ∃ acc', for_each body l acc = Done acc' ∧ P acc'.
Proof.
  revert acc. induction l as [|x l IH]; intros acc Hacc Hstep; [by exists acc|].
  destruct (Hstep acc x ltac:(apply list_elem_of_here) Hacc) as (st & Hst & HP).
  simpl. rewrite Hst, bind_Done_l. apply IH; [done|].
  intros st' y Hy. apply Hstep. by apply list_elem_of_further.
Qed.

Lemma np_max_Done (l : list nat) (c : nat) :
  E2D.np_max l = Done c → ∀ n, n ∈ l → n ≤ c.
Proof.
  destruct l as [|n0 l]; [done|]. intros [= <-] n Hn.
  by apply (max_list_elem_of_le n (n0 :: l)).
Qed.

Lemma np_max_cases (l : list nat) :
  (∃ c, E2D.np_max l = Done c) ∨ E2D.np_max l = Raise ValueError.
Proof. destruct l; [by right|left; by eexists]. Qed.

(** X19: when [get_file_path_width] returns, both widths are at least 128,
    the first is at least the length of every stored value of every
    [Image] feature whose name starts with [FileName], and the second at
    least that of every stored value of the other features whose name
    starts with [PathName]; it raises [ValueError] when such a feature has
    no stored value at all. *)
Theorem file_path_widths_cover_names (workspace : E2D.workspace) :
  let m := E2D.ws_measurements workspace in
  (∀ file_width path_width,
     E2D.get_file_path_width workspace = Done (file_width, path_width) →
     128 ≤ file_width ∧ 128 ≤ path_width
     ∧ ∀ feature name,
         feature ∈ get_feature_names m (s "Image") →
         name ∈ E2D.get_all_measurements workspace (s "Image") feature →
         (startswith feature (s "FileName") = true → length name ≤ file_width)
         ∧ (startswith feature (s "FileName") = false →
            startswith feature (s "PathName") = true →
            length name ≤ path_width))
  ∧ (∀ feature,
       feature ∈ get_feature_names m (s "Image") →
       startswith feature (s "FileName") || startswith feature (s "PathName") = true →
       E2D.get_all_measurements workspace (s "Image") feature = [] →
       E2D.get_file_path_width workspace = Raise ValueError).
Proof.
  intros m. unfold E2D.get_file_path_width. fold m.
  set (body := fun (widths : nat * nat) (feature : str) => _).
  assert (∀ st x st', body st x = Done st' → st.1 ≤ st'.1 ∧ st.2 ≤ st'.2) as Hmono.
  { intros [fw pw] x [fw' pw']. unfold body.
    destruct (startswith x (s "FileName")).
    - intros (w & _ & [= <- <-])%bind_Done. simpl. lia.
    - destruct (startswith x (s "PathName")).
      + intros (w & _ & [= <- <-])%bind_Done. simpl. lia.
      + intros [= <- <-]. done. }
  split.
  - intros fw pw Hrun. split; [|split].
    + change (128 ≤ (fw, pw).1). revert Hrun.
      apply (for_each_invariant (fun st : nat * nat => 128 ≤ st.1)); [|done].
      intros st x st' _ Hst [? ?]%Hmono. lia.
    + change (128 ≤ (fw, pw).2). revert Hrun.
      apply (for_each_invariant (fun st : nat * nat => 128 ≤ st.2)); [|done].
      intros st x st' _ Hst [? ?]%Hmono. lia.
    + intros feature name Hfeature Hname. split.
      * intros Hfile. change (length name ≤ (fw, pw).1).
        eapply (for_each_establish (fun st : nat * nat => length name ≤ st.1));
          [exact Hfeature| | |exact Hrun].
        -- intros [fw0 pw0] [fw1 pw1]. unfold body. rewrite Hfile.
           intros (w & Hw & [= <- <-])%bind_Done. simpl.
           pose proof (np_max_Done _ _ Hw (length name)) as Hle.
           assert (length name ≤ w); [|lia]. apply Hle.
           apply list_elem_of_fmap. by exists name.
        -- intros st y st' _ Hst [? ?]%Hmono. lia.
      * intros Hfile Hpath. change (length name ≤ (fw, pw).2).
        eapply (for_each_establish (fun st : nat * nat => length name ≤ st.2));
          [exact Hfeature| | |exact Hrun].
        -- intros [fw0 pw0] [fw1 pw1]. unfold body. rewrite Hfile, Hpath.
           intros (w & Hw & [= <- <-])%bind_Done. simpl.
           pose proof (np_max_Done _ _ Hw (length name)) as Hle.
           assert (length name ≤ w); [|lia]. apply Hle.
           apply list_elem_of_fmap. by exists name.
        -- intros st y st' _ Hst [? ?]%Hmono. lia.
  - intros feature Hfeature Hprefix Hnone.
    apply (for_each_raises ValueError body _ feature); [done| |].
    + intros [fw pw]. unfold body. rewrite Hnone.
      destruct (startswith feature (s "FileName")); [done|].
      change (startswith feature (s "PathName") = true) in Hprefix.
      by rewrite Hprefix.
    + intros [fw pw] y. unfold body.
      destruct (startswith y (s "FileName")).
      * destruct (np_max_cases
                    (length <$> E2D.get_all_measurements workspace (s "Image") y))
          as [[w ->]| ->]; [left; eexists; reflexivity|by right].
      * destruct (startswith y (s "PathName")); [|left; by eexists].
        destruct (np_max_cases
                    (length <$> E2D.get_all_measurements workspace (s "Image") y))
          as [[w ->]| ->]; [left; eexists; reflexivity|by right].
Qed.

Lemma underscore_fmt2 (a b : str) : "_"%char ∈ fmt2 a b.
Proof. unfold fmt2. apply elem_of_app. right. apply list_elem_of_here. Qed.

Lemma underscore_fmt3 (a b c : str) : "_"%char ∈ fmt3 a b c.
Proof. unfold fmt3. apply elem_of_app. right. apply list_elem_of_here. Qed.

Lemma for_each_rel {A T : Type} (R : T → T → Prop) (body : T → A → outcome T)
    (l : list A) (acc acc' : T) :
  (∀ st, R st st) → (∀ st1 st2 st3, R st1 st2 → R st2 st3 → R st1 st3) →
  (∀ st x st', x ∈ l → body st x = Done st' → R st st') →
  for_each body l acc = Done acc' → R acc acc'.
Proof.
  intros Hrefl Htrans. revert acc. induction l as [|x l IH]; intros acc Hstep Hrun.
  - injection Hrun as <-. apply Hrefl.
  - simpl in Hrun. apply bind_Done in Hrun as (st & Hst & Hrun).
    eapply Htrans.
    + eapply Hstep; [apply list_elem_of_here|exact Hst].
    + apply IH; [|done]. intros st0 y st1 Hy. apply Hstep.
      by apply list_elem_of_further.
Qed.

Lemma defs_extend_refl (base : nat) (st : E2D.defs_state) : defs_extend base st st.
Proof. by split; [|split]. Qed.

Lemma defs_extend_trans (base : nat) (st1 st2 st3 : E2D.defs_state) :
  defs_extend base st1 st2 → defs_extend base st2 st3 → defs_extend base st1 st3.
Proof.
  intros (Hc1 & Hf1 & Hk1) (Hc2 & Hf2 & Hk2). split; [auto|]. split.
  - intros k Hk. by rewrite Hf2, Hf1.
  - auto.
Qed.

(** One column line. *)
Lemma define_column_extend (base fuel : nat) (feature_name coltype : str)
    (st st' : E2D.defs_state) :
  "_"%char ∈ feature_name →
  E2D.define_column fuel feature_name coltype st = Done st' →
  defs_extend base st st' ∧ is_Some (defs_columns st' !! feature_name).
Proof.
  destruct st as [[[[columns idx] lines] mappings] tape]. intros Hname Hrun.
  unfold E2D.define_column in Hrun.
  apply bind_Done in Hrun as ([[colname mappings'] tape'] & _ & [= <-]).
  unfold defs_extend, defs_columns. simpl. split; [split; [|split]|].
  - intros (Hidx & Hpos & Hbelow & Hlast). split; [|split; [lia|split]].
    + rewrite length_app. simpl. lia.
    + intros k i. destruct (decide (k = feature_name)) as [->|Hne].
      * rewrite lookup_insert_eq. intros [= <-]. lia.
      * rewrite lookup_insert_ne by done. intros Hk%Hbelow. lia.
    + exists feature_name. rewrite lookup_insert_eq. f_equal. lia.
  - intros k Hk. rewrite lookup_insert_ne; [done|]. by intros <-.
  - intros k Hk. apply lookup_insert_is_Some'. by right.
  - by rewrite lookup_insert_eq.
Qed.

Section TableDefs.

Variable fuel : nat.
Variable self : E2D.t.
Variable m : measurements.

Lemma define_image_column_extend (st st' : E2D.defs_state) (col : E2D.column_def) :
  E2D.define_image_column fuel st col = Done st' →
  defs_extend 1 st st'
  ∧ (col.1.1 = cpmeas.IMAGE → E2D.ignore_feature col.1.1 col.1.2 = false →
     is_Some (defs_columns st' !! fmt2 col.1.1 col.1.2)).
Proof.
  destruct col as [[object_name feature] coltype]. unfold E2D.define_image_column.
  destruct (decide (object_name ≠ cpmeas.IMAGE)) as [Hne|Heq].
  { intros [= <-]. split; [apply defs_extend_refl|]. simpl. intros. congruence. }
  destruct (E2D.ignore_feature object_name feature) eqn:Hignore.
  { intros [= <-]. split; [apply defs_extend_refl|]. simpl. intros. congruence. }
  intros [Hext Hsome]%(define_column_extend 1); [|apply underscore_fmt2].
  done.
Qed.

Lemma define_object_columns_extend (st st' : E2D.defs_state) :
  E2D.define_object_columns fuel m st = Done st' →
  defs_extend 2 st st'
  ∧ ∀ object_name feature,
      object_name ∈ get_object_names m → object_name ≠ s "Image" →
      feature ∈ get_feature_names m object_name →
      E2D.ignore_feature object_name feature = false →
      is_Some (defs_columns st' !! fmt2 object_name feature).
Proof.
  intros Hrun. unfold E2D.define_object_columns in Hrun.
  set (inner := fun (object_name : str) (st : E2D.defs_state) (feature : str) =>
                  if E2D.ignore_feature object_name feature then Done st
                  else E2D.define_column fuel (fmt2 object_name feature)
                         (s "FLOAT NOT NULL") st).
  assert (∀ object_name st0 feature st1,
            inner object_name st0 feature = Done st1 → defs_extend 2 st0 st1)
    as Hinner.
  { intros object_name st0 feature st1. unfold inner.
    destruct (E2D.ignore_feature object_name feature);
      [intros [= <-]; apply defs_extend_refl|].
    by intros [? _]%(define_column_extend 2); [|apply underscore_fmt2]. }
  assert (∀ object_name st0 st1,
            (if decide (object_name = s "Image") then Done st0
             else for_each (inner object_name) (get_feature_names m object_name) st0)
            = Done st1 → defs_extend 2 st0 st1) as Houter.
  { intros object_name st0 st1.
    destruct (decide (object_name = s "Image"));
      [intros [= <-]; apply defs_extend_refl|].
    apply for_each_rel;
      [apply defs_extend_refl|apply defs_extend_trans|].
    intros st2 feature st3 _. apply Hinner. }
  split.
  - revert Hrun. apply for_each_rel;
      [apply defs_extend_refl|apply defs_extend_trans|].
    intros st0 object_name st1 _. apply Houter.
  - intros object_name feature Hobject Hne Hfeature Hkept.
    eapply (for_each_establish
              (fun st => is_Some (defs_columns st !! fmt2 object_name feature)));
      [exact Hobject| | |exact Hrun].
    + intros st0 st1. cbv beta. rewrite decide_False by done.
      eapply (for_each_establish
                (fun st => is_Some (defs_columns st !! fmt2 object_name feature)));
        [exact Hfeature| |].
      * intros st2 st3. cbv beta. rewrite Hkept.
        by intros [_ ?]%(define_column_extend 2); [|apply underscore_fmt2].
      * intros st2 y st3 _ Hst2 (_ & _ & Hkeep)%(Hinner object_name). auto.
    + intros st0 y st1 _ Hst0 (_ & _ & Hkeep)%Houter. auto.
Qed.

Lemma define_aggregate_columns_extend (st st' : E2D.defs_state) :
  E2D.define_aggregate_columns fuel self m st = Done st' →
  defs_extend 1 st st'
  ∧ ∀ aggname object_name feature,
      aggname ∈ E2D.agg_names self →
      object_name ∈ get_object_names m → object_name ≠ s "Image" →
      feature ∈ get_feature_names m object_name →
      E2D.ignore_feature object_name feature = false →
      is_Some (defs_columns st' !! fmt3 aggname object_name feature).
Proof.
  intros Hrun. unfold E2D.define_aggregate_columns in Hrun.
  set (inner := fun (aggname object_name : str) (st : E2D.defs_state)
                    (feature : str) =>
                  if E2D.ignore_feature object_name feature then Done st
                  else E2D.define_column fuel (fmt3 aggname object_name feature)
                         (s "FLOAT NOT NULL") st).
  set (middle := fun (aggname : str) (st : E2D.defs_state) (object_name : str) =>
                   if decide (object_name = s "Image") then Done st
                   else for_each (inner aggname object_name)
                          (get_feature_names m object_name) st).
  assert (∀ aggname object_name st0 feature st1,
            inner aggname object_name st0 feature = Done st1 →
            defs_extend 1 st0 st1) as Hinner.
  { intros aggname object_name st0 feature st1. unfold inner.
    destruct (E2D.ignore_feature object_name feature);
      [intros [= <-]; apply defs_extend_refl|].
    by intros [? _]%(define_column_extend 1); [|apply underscore_fmt3]. }
  assert (∀ aggname st0 object_name st1,
            middle aggname st0 object_name = Done st1 → defs_extend 1 st0 st1)
    as Hmiddle.
  { intros aggname st0 object_name st1. unfold middle.
    destruct (decide (object_name = s "Image"));
      [intros [= <-]; apply defs_extend_refl|].
    apply for_each_rel;
      [apply defs_extend_refl|apply defs_extend_trans|].
    intros st2 feature st3 _. apply Hinner. }
  assert (∀ aggname st0 st1,
            for_each (middle aggname) (get_object_names m) st0 = Done st1 →
            defs_extend 1 st0 st1) as Houter.
  { intros aggname st0 st1. apply for_each_rel;
      [apply defs_extend_refl|apply defs_extend_trans|].
    intros st2 object_name st3 _. apply Hmiddle. }
  split.
  - revert Hrun. apply for_each_rel;
      [apply defs_extend_refl|apply defs_extend_trans|].
    intros st0 aggname st1 _. apply Houter.
  - intros aggname object_name feature Hagg Hobject Hne Hfeature Hkept.
    set (P := fun st : E2D.defs_state =>
                is_Some (defs_columns st !! fmt3 aggname object_name feature)).
    eapply (for_each_establish P); [exact Hagg| | |exact Hrun].
    + intros st0 st1.
      eapply (for_each_establish P); [exact Hobject| |].
      * intros st2 st3. cbv beta. rewrite decide_False by done.
        eapply (for_each_establish P); [exact Hfeature| |].
        -- intros st4 st5. cbv beta. rewrite Hkept.
           by intros [_ ?]%(define_column_extend 1); [|apply underscore_fmt3].
        -- intros st4 y st5 _ Hst4 (_ & _ & Hkeep)%Hinner. by apply Hkeep.
      * intros st2 y st3 _ Hst2 (_ & _ & Hkeep)%Hmiddle. by apply Hkeep.
    + intros st0 y st1 _ Hst0 (_ & _ & Hkeep)%Houter. by apply Hkeep.
Qed.

End TableDefs.

Lemma max_value_spec (d : gmap str nat) (c : nat) :
  (∃ k, d !! k = Some c) → (∀ k i, d !! k = Some i → i ≤ c) →
  E2D.max_value d = Done c.
Proof.
  intros [k Hk] Hle. unfold E2D.max_value.
  assert (c ∈ (map_to_list d).*2) as Hc.
  { apply list_elem_of_fmap. exists (k, c). split; [done|].
    by apply elem_of_map_to_list. }
  assert ((map_to_list d).*2 ≠ []) as Hne.
  { intros Hnil. rewrite Hnil in Hc. by apply elem_of_nil in Hc. }
  assert (max_list (map_to_list d).*2 = c) as Hmax.
  { apply Nat.le_antisymm; [|by apply max_list_elem_of_le].
    pose proof (max_list_elem_of _ Hne) as Hin.
    apply list_elem_of_fmap in Hin as ([k' i] & Hi & Hin). simpl in Hi.
    rewrite Hi. apply elem_of_map_to_list in Hin. by eapply Hle. }
  destruct ((map_to_list d).*2) as [|n l]; [done|].
  change (Done (max_list (n :: l)) = Done c). by rewrite Hmax.
Qed.

(** The steps of [write_mysql_table_defs] when it returns. *)
Lemma write_mysql_table_defs_inv (fuel : nat) (tape : list nat) (self : E2D.t)
    (workspace : E2D.workspace) (mappings : CNM.t) (td : E2D.table_defs) :
  E2D.write_mysql_table_defs fuel tape self workspace mappings = Done td →
  ∃ st1 idx1 mappings1 tape1 idx2,
    for_each (E2D.define_image_column fuel)
      (E2D.get_measurement_columns workspace)
      ({[ s "ImageNumber" := 0 ]}, 1, [], mappings, tape) = Done st1
    ∧ E2D.define_aggregate_columns fuel self (E2D.ws_measurements workspace) st1
      = Done (E2D.td_per_image td, idx1, E2D.td_image_lines td, mappings1, tape1)
    ∧ E2D.define_object_columns fuel (E2D.ws_measurements workspace)
        (<[ s "ObjectNumber" := 1 ]> {[ s "ImageNumber" := 0 ]}, 2, [],
         mappings1, tape1)
      = Done (E2D.td_per_object td, idx2, E2D.td_object_lines td,
              E2D.td_mappings td, E2D.td_tape td).
Proof.
  unfold E2D.write_mysql_table_defs. intros (widths & _ & Hrun)%bind_Done.
  apply bind_Done in Hrun as (st1 & Himage & Hrun).
  apply bind_Done in Hrun as ([[[[per_image idx1] lines1] mappings1] tape1] & Hagg & Hrun).
  apply bind_Done in Hrun as ([[[[per_object idx2] lines2] mappings2] tape2] & Hobj & [= <-]).
  by exists st1, idx1, mappings1, tape1, idx2.
Qed.

(** The two dictionaries and the column lines. *)
Lemma table_defs_layout (fuel : nat) (tape : list nat) (self : E2D.t)
    (workspace : E2D.workspace) (mappings : CNM.t) (td : E2D.table_defs) :
  E2D.write_mysql_table_defs fuel tape self workspace mappings = Done td →
  E2D.td_per_image td !! s "ImageNumber" = Some 0
  ∧ E2D.td_per_object td !! s "ImageNumber" = Some 0
  ∧ E2D.td_per_object td !! s "ObjectNumber" = Some 1
  ∧ (∃ idx mappings' tape',
       defs_counted 1
         (E2D.td_per_image td, idx, E2D.td_image_lines td, mappings', tape'))
  ∧ (∃ idx mappings' tape',
       defs_counted 2
         (E2D.td_per_object td, idx, E2D.td_object_lines td, mappings', tape')).
Proof.
  intros (st1 & idx1 & mappings1 & tape1 & idx2 & Himage & Hagg & Hobj)
    %write_mysql_table_defs_inv.
  assert (defs_extend 1 ({[ s "ImageNumber" := 0 ]}, 1, [], mappings, tape) st1)
    as Hext1.
  { revert Himage. apply for_each_rel;
      [apply defs_extend_refl|apply defs_extend_trans|].
    by intros st col st' _ [? _]%define_image_column_extend. }
  apply define_aggregate_columns_extend in Hagg as [Hext2 _].
  pose proof (defs_extend_trans _ _ _ _ Hext1 Hext2) as (Hcount & Hfixed & _).
  apply define_object_columns_extend in Hobj as [(Hcounto & Hfixedo & _) _].
  unfold defs_columns in Hfixed, Hfixedo. simpl in Hfixed, Hfixedo.
  split; [|split; [|split; [|split]]].
  - rewrite Hfixed by by_eval. by rewrite lookup_singleton_eq.
  - rewrite Hfixedo by by_eval. done.
  - rewrite Hfixedo by by_eval. by rewrite lookup_insert_eq.
  - exists idx1, mappings1, tape1. apply Hcount.
    split; [done|]. split; [lia|]. split.
    + intros k i [<- <-]%lookup_singleton_Some. lia.
    + exists (s "ImageNumber"). by rewrite lookup_singleton_eq.
  - exists idx2, (E2D.td_mappings td), (E2D.td_tape td). apply Hcounto.
    split; [done|]. split; [lia|]. split.
    + intros k' i. destruct (decide (k' = s "ObjectNumber")) as [->|Hne].
      * rewrite lookup_insert_eq. intros [= <-]. lia.
      * rewrite lookup_insert_ne by done. intros [<- <-]%lookup_singleton_Some. lia.
    + exists (s "ObjectNumber"). by rewrite lookup_insert_eq.
Qed.

(** The largest index of a dictionary that counts its lines. *)
Lemma counted_max_value (base : nat) (columns : gmap str nat) (idx : nat)
    (lines : list (str * str)) (mappings : CNM.t) (tape : list nat) :
  defs_counted base (columns, idx, lines, mappings, tape) →
  E2D.max_value columns = Done (base + length lines - 1).
Proof.
  intros (Hidx & Hpos & Hbelow & [k Hlast]). apply max_value_spec.
  - exists k. rewrite Hlast. f_equal. lia.
  - intros k' i Hi%Hbelow. lia.
Qed.

(** X20: the column dictionaries that [write_mysql_table_defs] returns
    count the columns it writes: [ImageNumber] has index 0 in both and
    [ObjectNumber] index 1, and the largest index of each dictionary is
    the number of column lines written after those, so that
    [max(per_image.values())+1] and [max(per_object.values())+1], the
    widths [write_data] gives its rows, are the numbers of columns of the
    two tables. *)
Theorem table_defs_count_columns (fuel : nat) (tape : list nat) (self : E2D.t)
    (workspace : E2D.workspace) (mappings : CNM.t) (td : E2D.table_defs) :
  E2D.write_mysql_table_defs fuel tape self workspace mappings = Done td →
  E2D.td_per_image td !! s "ImageNumber" = Some 0
  ∧ E2D.td_per_object td !! s "ImageNumber" = Some 0
  ∧ E2D.td_per_object td !! s "ObjectNumber" = Some 1
  ∧ E2D.max_value (E2D.td_per_image td) = Done (length (E2D.td_image_lines td))
  ∧ E2D.max_value (E2D.td_per_object td)
    = Done (1 + length (E2D.td_object_lines td)).
Proof.
  intros (Himage & Hobject & Hnumber & (idx1 & m1 & t1 & Hcount1)
          & (idx2 & m2 & t2 & Hcount2))%table_defs_layout.
  split; [done|]. split; [done|]. split; [done|].
  apply counted_max_value in Hcount1, Hcount2. split.
  - rewrite Hcount1. f_equal; lia.
  - rewrite Hcount2. f_equal; lia.
Qed.

Lemma table_defs_count_columns_witness :
  let m := sample_source (VInt 2) (VFloat (float_of_Z 3))
             [float_of_Z 5; float_of_Z 7] in
  let mappings := E2D.get_column_name_mappings sample_settings m in
  ∃ td,
    E2D.write_mysql_table_defs 0 [] sample_settings (sample_workspace m) mappings
    = Done td
    ∧ E2D.td_per_image td !! s "ImageNumber" = Some 0
    ∧ E2D.td_per_object td !! s "ImageNumber" = Some 0
    ∧ E2D.td_per_object td !! s "ObjectNumber" = Some 1
    ∧ E2D.max_value (E2D.td_per_image td) = Done (length (E2D.td_image_lines td))
    ∧ E2D.max_value (E2D.td_per_object td)
      = Done (1 + length (E2D.td_object_lines td)).
Proof.
  intros m mappings.
  destruct (E2D.write_mysql_table_defs 0 [] sample_settings (sample_workspace m)
              mappings) as [td| |] eqn:Hrun; [|by vm_compute in Hrun..].
  exists td. split; [done|].
  exact (table_defs_count_columns 0 [] sample_settings (sample_workspace m)
           mappings td Hrun).
Defined.

(** X21: the dictionaries of [write_mysql_table_defs] hold every column
    that [write_data] looks up for the object classes: each exported
    feature of an object class is in [per_object], each of its selected
    aggregates is in [per_image], and so is each exported [Image] feature
    of the measurement columns of the pipeline.  Hence, with these
    dictionaries, the branch of [write_data] for an image set without
    objects never fails: on a row of the width of the image table it
    sets all its zeros. *)
Theorem table_defs_cover_writer (fuel : nat) (tape : list nat) (self : E2D.t)
    (workspace : E2D.workspace) (mappings : CNM.t) (td : E2D.table_defs) :
  E2D.write_mysql_table_defs fuel tape self workspace mappings = Done td →
  let m := E2D.ws_measurements workspace in
  (∀ object_name feature,
     object_name ∈ get_object_names m → object_name ≠ s "Image" →
     feature ∈ get_feature_names m object_name →
     E2D.ignore_feature object_name feature = false →
     is_Some (E2D.td_per_object td !! fmt2 object_name feature)
     ∧ ∀ aggname, aggname ∈ E2D.agg_names self →
         is_Some (E2D.td_per_image td !! fmt3 aggname object_name feature))
  ∧ (∀ col : E2D.column_def,
       col ∈ E2D.get_measurement_columns workspace →
       col.1.1 = cpmeas.IMAGE → E2D.ignore_feature col.1.1 col.1.2 = false →
       is_Some (E2D.td_per_image td !! fmt2 col.1.1 col.1.2))
  ∧ (∀ row : list scalar,
       length row = length (E2D.td_image_lines td) + 1 →
       ∃ row', E2D.csv_zero_aggregates self m (E2D.td_per_image td) row = Done row'
               ∧ length row' = length row).
Proof.
  intros (st1 & idx1 & mappings1 & tape1 & idx2 & Himage & Hagg & Hobj)
    %write_mysql_table_defs_inv m.
  assert (defs_extend 1 ({[ s "ImageNumber" := 0 ]}, 1, [], mappings, tape) st1)
    as Hext1.
  { revert Himage. apply for_each_rel;
      [apply defs_extend_refl|apply defs_extend_trans|].
    by intros st col st' _ [? _]%define_image_column_extend. }
  apply define_aggregate_columns_extend in Hagg as [Hext2 Haggs].
  apply define_object_columns_extend in Hobj as [_ Hobjs].
  fold m in Haggs, Hobjs. unfold defs_columns in Haggs, Hobjs. simpl in Haggs, Hobjs.
  pose proof (defs_extend_trans _ _ _ _ Hext1 Hext2) as (Hcount & _ & _).
  destruct Hcount as (Hidx & _ & Hbelow & _).
  { split; [done|]. split; [lia|]. split.
    - intros k i [<- <-]%lookup_singleton_Some. lia.
    - exists (s "ImageNumber"). by rewrite lookup_singleton_eq. }
  split; [|split].
  - intros object_name feature Hobject Hne Hfeature Hkept. split; [by apply Hobjs|].
    intros aggname Hagg. by apply Haggs.
  - intros col Hcol Himg Hkept.
    destruct Hext2 as (_ & _ & Hkeep). apply Hkeep.
    eapply (for_each_establish
              (fun st => is_Some (defs_columns st !! fmt2 col.1.1 col.1.2)));
      [exact Hcol| | |exact Himage].
    + intros st st' [_ Hsome]%define_image_column_extend. by apply Hsome.
    + intros st y st' _ Hst [(_ & _ & Hkeep') _]%define_image_column_extend.
      by apply Hkeep'.
  - intros row Hrow. unfold E2D.csv_zero_aggregates.
    set (P := fun r : list scalar => length r = length row).
    apply (for_each_total P); [done|].
    intros row1 object_name Hobject Hrow1.
    destruct (decide (object_name = s "Image")); [by exists row1|].
    apply (for_each_total P); [done|].
    intros row2 feature Hfeature Hrow2.
    destruct (E2D.ignore_feature object_name feature) eqn:Hkept; [by exists row2|].
    apply (for_each_total P); [done|].
    intros row3 aggname Hagg Hrow3.
    destruct (Haggs aggname object_name feature Hagg Hobject ltac:(done) Hfeature Hkept)
      as [c Hc].
    pose proof (Hbelow _ _ Hc) as Hlt.
    exists (<[c := VInt 0]> row3). unfold Py.getitem. rewrite Hc, bind_Done_l.
    unfold setitem. rewrite decide_True by (unfold P in Hrow3; lia).
    split; [done|]. unfold P. by rewrite length_insert.
Qed.

Lemma table_defs_cover_writer_witness :
  let m := sample_source (VInt 0) (VFloat (float_of_Z 3)) [] in
  let mappings := E2D.get_column_name_mappings sample_settings m in
  ∃ td,
    E2D.write_mysql_table_defs 0 [] sample_settings (sample_workspace m) mappings
    = Done td
    ∧ is_Some (E2D.td_per_object td !! s "Nuclei_AreaShape_Area")
    ∧ is_Some (E2D.td_per_image td !! s "Mean_Nuclei_AreaShape_Area")
    ∧ ∃ row',
        E2D.csv_zero_aggregates sample_settings m (E2D.td_per_image td)
          (replicate (length (E2D.td_image_lines td) + 1) VNone) = Done row'.
Proof.
  intros m mappings.
  destruct (E2D.write_mysql_table_defs 0 [] sample_settings (sample_workspace m)
              mappings) as [td| |] eqn:Hrun; [|by vm_compute in Hrun..].
  exists td. split; [done|].
  destruct (table_defs_cover_writer 0 [] sample_settings (sample_workspace m)
              mappings td Hrun) as (Hobjects & _ & Hzero).
  destruct (Hobjects (s "Nuclei") (s "AreaShape_Area")) as [Hobject Haggs];
    [by_eval|by vm_compute|by_eval|reflexivity|].
  split; [exact Hobject|]. split; [apply (Haggs (s "Mean")); by_eval|].
  destruct (Hzero (replicate (length (E2D.td_image_lines td) + 1) VNone))
    as (row' & Hrow' & _); [by rewrite length_replicate|].
  by exists row'.
Defined.

(** X22: the rows of the file path fit the tables of the file path: when
    [write_data] is given the dictionaries that [write_mysql_table_defs]
    returns, as in [post_run], every line of the image file has one field
    for [ImageNumber] and one for every column line of [Per_Image], every
    line of the object file one for [ImageNumber], one for [ObjectNumber]
    and one for every column line of [Per_Object], and the image file has
    one line for every image set so far. *)
Theorem file_rows_fit_table_defs (escape_string : str → str)
    (float_str : spec_float → str) (fuel : nat) (tape : list nat) (self : E2D.t)
    (workspace : E2D.workspace) (mappings : CNM.t) (td : E2D.table_defs)
    (files : E2D.csv_files) :
  E2D.write_mysql_table_defs fuel tape self workspace mappings = Done td →
  E2D.write_data escape_string float_str self (E2D.ws_measurements workspace)
    (E2D.td_per_image td) (E2D.td_per_object td) = Done files →
  length (E2D.per_image_file files)
  = image_set_index (E2D.ws_measurements workspace) + 1
  ∧ Forall (fun line => length line = 1 + length (E2D.td_image_lines td))
      (E2D.per_image_file files)
  ∧ Forall (fun line => length line = 2 + length (E2D.td_object_lines td))
      (E2D.per_object_file files).
Proof.
  intros (_ & _ & _ & (idx1 & m1 & t1 & Hcount1) & (idx2 & m2 & t2 & Hcount2))
    %table_defs_layout Hfiles.
  apply counted_max_value in Hcount1, Hcount2.
  unfold E2D.write_data in Hfiles. rewrite Hcount1, Hcount2, !bind_Done_l in Hfiles.
  apply write_data_lines_shape in Hfiles as (Hlen & Himage & Hobject).
  split; [exact Hlen|]. split.
  - eapply Forall_impl; [exact Himage|]. intros line Hline. simpl in Hline. lia.
  - eapply Forall_impl; [exact Hobject|]. intros line Hline. simpl in Hline. lia.
Qed.

Lemma file_rows_fit_table_defs_witness :
  let m := sample_source (VInt 2) (VFloat (float_of_Z 3))
             [float_of_Z 5; float_of_Z 7] in
  let mappings := E2D.get_column_name_mappings sample_settings m in
  ∃ td files,
    E2D.write_mysql_table_defs 0 [] sample_settings (sample_workspace m) mappings
    = Done td
    ∧ E2D.write_data sample_escape_string sample_float_str sample_settings m
        (E2D.td_per_image td) (E2D.td_per_object td) = Done files
    ∧ length (E2D.per_image_file files) = 1
    ∧ Forall (fun line => length line = 1 + length (E2D.td_image_lines td))
        (E2D.per_image_file files)
    ∧ Forall (fun line => length line = 2 + length (E2D.td_object_lines td))
        (E2D.per_object_file files).
Proof.
  intros m mappings.
  destruct (E2D.write_mysql_table_defs 0 [] sample_settings (sample_workspace m)
              mappings) as [td| |] eqn:Hrun; [|by vm_compute in Hrun..].
  destruct (E2D.write_data sample_escape_string sample_float_str sample_settings m
              (E2D.td_per_image td) (E2D.td_per_object td))
    as [files| |] eqn:Hfiles.
  - exists td, files. split; [done|]. split; [done|].
    exact (file_rows_fit_table_defs sample_escape_string sample_float_str 0 []
             sample_settings (sample_workspace m) mappings td files Hrun Hfiles).
  - exfalso. vm_compute in Hrun. injection Hrun as <-. by vm_compute in Hfiles.
  - exfalso. vm_compute in Hrun. injection Hrun as <-. by vm_compute in Hfiles.
Defined.

(** ** Validation of the settings *)

Lemma at_end_spec (x : str) : E2D.at_end x = true ↔ x = [] ∨ x = [E2D.newline].
Proof.
  unfold E2D.at_end. rewrite orb_true_iff, !bool_decide_eq_true. done.
Qed.

Lemma word_not_newline (c : ascii) : E2D.is_word c = true → c ≠ E2D.newline.
Proof. intros Hc ->. by vm_compute in Hc. Qed.

Lemma match_words_spec (x : str) : E2D.match_words x = true ↔ words_text x.
Proof.
  split.
  - induction x as [|c x IH]; [done|]. simpl.
    intros [Hc Hrest]%andb_true_iff. apply orb_true_iff in Hrest as [Hend|Hrest].
    + exists [c]. split; [by split; [|apply Forall_singleton]|].
      apply at_end_spec in Hend as [->| ->]; [by left|by right].
    + destruct (IH Hrest) as (body & [Hne Hbody] & Hx).
      exists (c :: body). split; [by split; [|apply Forall_cons]|].
      destruct Hx as [->| ->]; [by left|by right].
  - intros (body & [Hne Hbody] & Hx). revert x Hx.
    induction Hbody as [|c body Hc Hbody IH]; [done|]. intros x Hx.
    destruct body as [|c' body].
    + destruct Hx as [->| ->]; simpl; rewrite Hc; done.
    + specialize (IH ltac:(done)).
      destruct Hx as [->| ->]; simpl; rewrite Hc; simpl; apply orb_true_iff; right.
      * apply (IH (c' :: body)). by left.
      * apply (IH ((c' :: body) ++ [E2D.newline])). by right.
Qed.

Lemma match_any_spec (x : str) :
  E2D.match_any x = true
  ↔ ∃ body, Forall (fun c => c ≠ E2D.newline) body ∧ with_optional_newline body x.
Proof.
  split.
  - induction x as [|c x IH].
    + intros _. exists []. split; [done|by left].
    + cbn [E2D.match_any]. intros [Hend|Hrest]%orb_true_iff.
      * apply at_end_spec in Hend as [?| [= -> ->]]; [done|].
        exists []. split; [done|by right].
      * apply andb_true_iff in Hrest as [Hc Hrest].
        apply negb_true_iff, bool_decide_eq_false in Hc.
        destruct (IH Hrest) as (body & Hbody & Hx).
        exists (c :: body). split; [by apply Forall_cons|].
        destruct Hx as [->| ->]; [by left|by right].
  - intros (body & Hbody & Hx). revert x Hx.
    induction Hbody as [|c body Hc Hbody IH]; intros x Hx.
    + destruct Hx as [->| ->]; done.
    + assert (negb (bool_decide (c = E2D.newline)) = true) as Hc'
        by by apply negb_true_iff, bool_decide_eq_false.
      destruct Hx as [->| ->]; cbn [E2D.match_any app]; rewrite Hc';
        apply orb_true_iff; right; simpl.
      * apply IH. by left.
      * apply IH. by right.
Qed.

Lemma match_identifier_spec (x : str) :
  E2D.match_identifier x = true ↔ identifier_text x.
Proof.
  split.
  - destruct x as [|c x]; [done|]. simpl. intros [Hc Hx]%andb_true_iff.
    apply match_words_spec in Hx as (body & Hbody & Hx).
    exists c, body. split; [done|]. split; [done|].
    destruct Hx as [->| ->]; [by left|by right].
  - intros (c & body & Hc & Hbody & Hx).
    assert (E2D.match_words body = true
            ∧ E2D.match_words (body ++ [E2D.newline]) = true) as [H1 H2].
    { split; apply match_words_spec; exists body; (split; [done|]);
        [by left|by right]. }
    destruct Hx as [->| ->]; simpl; rewrite Hc; done.
Qed.

Lemma match_name_spec (x : str) : E2D.match_name x = true ↔ name_text x.
Proof.
  split.
  - destruct x as [|c x]; [done|]. simpl. intros [Hc Hx]%andb_true_iff.
    apply match_any_spec in Hx as (body & Hbody & Hx).
    exists c, body. split; [done|]. split; [done|].
    destruct Hx as [->| ->]; [by left|by right].
  - intros (c & body & Hc & Hbody & Hx).
    assert (E2D.match_any body = true
            ∧ E2D.match_any (body ++ [E2D.newline]) = true) as [H1 H2].
    { split; apply match_any_spec; exists body; (split; [done|]);
        [by left|by right]. }
    destruct Hx as [->| ->]; simpl; rewrite Hc; done.
Qed.

(** X23: [test_valid] returns without raising exactly when: the table
    prefix, if one is wanted, is a letter followed by one or more
    characters of [[A-Za-z0-9_]]; for MySQL the database name is one or
    more such characters; for SQLite the file name starts with such a
    character and goes on without a line break; without CSV files the
    user name is one or more such characters and the host name starts
    with one and goes on without a line break, also for SQLite; with CSV
    files the SQL file prefix is a letter followed by one or more such
    characters.  Each of these texts may end in one newline, which [$]
    lets pass. *)
Theorem test_valid_accepts (self : E2D.settings) :
  E2D.test_valid self = None
  ↔ (E2D.want_table_prefix self = true → identifier_text (E2D.table_prefix self))
    ∧ (E2D.db_type self = E2D.DB_MYSQL → words_text (E2D.db_name self))
    ∧ (E2D.db_type self = E2D.DB_SQLITE → name_text (E2D.sqlite_file self))
    ∧ (E2D.store_csvs self = false →
       words_text (E2D.db_user self) ∧ name_text (E2D.db_host self))
    ∧ (E2D.store_csvs self = true → identifier_text (E2D.sql_file_prefix self)).
Proof.
  rewrite <- !match_identifier_spec, <- !match_words_spec, <- !match_name_spec.
  unfold E2D.test_valid.
  assert (E2D.DB_MYSQL ≠ E2D.DB_SQLITE) as Hdb by by vm_compute.
  destruct (E2D.want_table_prefix self), (E2D.store_csvs self),
    (E2D.match_identifier (E2D.table_prefix self)),
    (E2D.match_identifier (E2D.sql_file_prefix self)),
    (E2D.match_words (E2D.db_user self)),
    (E2D.match_name (E2D.db_host self)),
    (E2D.match_words (E2D.db_name self)),
    (E2D.match_name (E2D.sqlite_file self)),
    (decide (E2D.db_type self = E2D.DB_MYSQL)) as [Hmysql|Hmysql],
    (decide (E2D.db_type self = E2D.DB_SQLITE)) as [Hsqlite|Hsqlite];
    simpl; try (exfalso; congruence); intuition congruence.
Qed.

Lemma test_valid_accepts_witness :
  E2D.test_valid default_settings = None
  ∧ words_text (E2D.db_name default_settings)
  ∧ words_text (E2D.db_user default_settings)
  ∧ name_text (E2D.db_host default_settings).
Proof.
  assert (E2D.test_valid default_settings = None) as Hvalid by reflexivity.
  split; [exact Hvalid|].
  destruct (proj1 (test_valid_accepts default_settings) Hvalid)
    as (_ & Hname & _ & Huser & _).
  split; [by apply Hname|]. by apply Huser.
Defined.

(** ** A count that is not a finite number *)

(** X24: the two writers part ways on an [Image] feature with [Count] in
    its name whose value is a double that is not finite.  The database
    path replaces the value by 0 before it takes [int] of it, so the cell
    holds 0 and the count is not raised; the file path stores the value
    and then takes [int] of it as it is, which raises [ValueError] for a
    NaN and [OverflowError] for an infinity, and with it the whole of
    [write_data]. *)
Theorem nonfinite_count_stops_file_export (escape_string : str → str)
    (self : E2D.t) (m : measurements) (per_image : gmap str nat) (index : nat)
    (feature ftype : str) (f : spec_float) (db_row : list E2D.image_cell)
    (csv_row : list scalar) (max_count : Z) (c c' : nat) :
  E2D.ignore_feature (s "Image") feature = false →
  contains (fmt2 (s "Image") feature) (s "Count") = true →
  E2D.first_value (get_measurement m (s "Image") feature index) = Done (VFloat f) →
  isfinite f = false →
  E2D.image_col_order self !! fmt2 (s "Image") feature = Some c → c < length db_row →
  per_image !! fmt2 (s "Image") feature = Some c' → c' < length csv_row →
  E2D.db_image_feature self m index (db_row, max_count) (s "Image", feature, ftype)
  = Done (<[c := Some (VInt 0, ftype, fmt2 (s "Image") feature)]> db_row,
          Z.max max_count 0)
  ∧ E2D.csv_image_feature escape_string m per_image index (csv_row, max_count) feature
    = Raise (match f with S754_nan => ValueError | _ => OverflowError end).
Proof.
  intros Hkept Hcount Hvalue Hfinite Hc Hlt Hc' Hlt'. split.
  - unfold E2D.db_image_feature. cbn [fst snd].
    change cpmeas.IMAGE with (s "Image"). rewrite Hvalue, bind_Done_l, Hfinite, Hc.
    unfold setitem. rewrite decide_True by done. rewrite bind_Done_l, Hcount. done.
  - unfold E2D.csv_image_feature. rewrite Hkept, Hvalue, bind_Done_l.
    unfold Py.getitem. rewrite Hc', bind_Done_l.
    unfold setitem. rewrite decide_True by done. rewrite bind_Done_l, Hcount.
    destruct f; done.
Qed.

Lemma nonfinite_count_stops_file_export_witness :
  let m := sample_source (VFloat S754_nan) (VInt 0) [] in
  E2D.db_image_feature sample_self m 0 (replicate 4 None, 0%Z)
    (s "Image", s "Count_Nuclei", s "integer")
  = Done (<[1 := Some (VInt 0, s "integer", s "Image_Count_Nuclei")]>
            (replicate 4 None), 0%Z)
  ∧ E2D.csv_image_feature sample_escape_string m sample_per_image 0
      (replicate 4 VNone, 0%Z) (s "Count_Nuclei") = Raise ValueError
  ∧ E2D.write_data sample_escape_string sample_float_str sample_self m
      sample_per_image sample_per_object = Raise ValueError.
Proof.
  intros m.
  destruct (nonfinite_count_stops_file_export sample_escape_string sample_self m
              sample_per_image 0 (s "Count_Nuclei") (s "integer") S754_nan
              (replicate 4 None) (replicate 4 VNone) 0%Z 1 1)
    as [Hdb Hcsv]; [reflexivity|reflexivity|reflexivity|reflexivity
                    |vm_compute; reflexivity|vm_compute; lia
                    |vm_compute; reflexivity|vm_compute; lia|].
  split; [exact Hdb|]. split; [exact Hcsv|]. vm_compute. reflexivity.
Defined.
